(** * Gobblet Gobblers over MQTT: board rules, turn handling and state
      replication

    A shallow embedding of the two Go programs of the repository:

    - the stand-alone terminal game (one process, two players sharing a
      keyboard), which tracks how many pieces of each size a player has
      placed in the [pieceCount] map;
    - the networked game ([gobletgame.go]), which replicates the whole
      game state as a retained JSON message on an MQTT topic.

    Go's [int] is taken to be the 64-bit signed integer of the usual
    targets and is modelled as [Z] with the wrap-around written out where
    the code does arithmetic.  A run-time panic of the Go program is the
    [None] of the state monad below.  Console output, [time.Sleep] and the
    mutex are not modelled: the development follows one goroutine at a
    time. *)

From Stdlib Require Import ZArith Lia Bool List String Ascii.
From Stdlib Require Import DecimalString DecimalZ DecimalPos DecimalFacts.
From stdpp Require Import base tactics option list gmap strings.

Local Open Scope Z_scope.

(** ** Machine integers *)

Definition int_min : Z := - 2 ^ 63.
Definition int_max : Z := 2 ^ 63 - 1.

Definition is_int (z : Z) : Prop := int_min <= z <= int_max.

Definition is_intb (z : Z) : bool := (int_min <=? z) && (z <=? int_max).

(** Result of a Go [int] operation whose mathematical value is [z]. *)
Definition wrap (z : Z) : Z := (z + 2 ^ 63) mod 2 ^ 64 - 2 ^ 63.

(** ** Data model shared by both programs

    [type Gobblet struct { Size int; Owner int }] *)

Record Gobblet : Type := mkGobblet { Size : Z; Owner : Z }.

(** [type Stack []Gobblet].  A Go slice is either [nil] or a (possibly
    empty) sequence; the two print differently in JSON, so they are kept
    apart.  The capacity of a slice is not observable by these programs:
    every cell of the board only ever holds slices built from its own
    previous value. *)

Inductive Stack : Type :=
| nil_slice
| slice (l : list Gobblet).

Definition elems (s : Stack) : list Gobblet :=
  match s with
  | nil_slice => []
  | slice l => l
  end.

(** [len(s)] *)
Definition len (s : Stack) : Z := Z.of_nat (length (elems s)).

(** [s[i]], which panics out of range. *)
Definition index (s : Stack) (i : Z) : option Gobblet :=
  if (i <? 0) || (len s <=? i) then None else elems s !! Z.to_nat i.

(** [append(s, g)] *)
Definition append (s : Stack) (g : Gobblet) : Stack := slice (elems s ++ [g]).

(** [s[:n]] for [0 <= n <= len(s)]; it panics for a negative [n].  (Go
    allows [n] up to the capacity; the programs only ever use
    [n = len(s) - 1].) *)
Definition reslice (s : Stack) (n : Z) : option Stack :=
  if (n <? 0) || (len s <? n) then None
  else match s with
       | nil_slice => Some nil_slice
       | slice l => Some (slice (take (Z.to_nat n) l))
       end.

(** A Go array of length three, [[3]T]. *)
Record Arr3 (A : Type) : Type := mkArr3 { at0 : A; at1 : A; at2 : A }.
Arguments mkArr3 {A} _ _ _.
Arguments at0 {A} _.
Arguments at1 {A} _.
Arguments at2 {A} _.

(** [a[i]] with a run-time index: out of range is a panic. *)
Definition get3 {A} (a : Arr3 A) (i : Z) : option A :=
  if i =? 0 then Some (at0 a)
  else if i =? 1 then Some (at1 a)
  else if i =? 2 then Some (at2 a)
  else None.

(** [a[i] = x] *)
Definition set3 {A} (a : Arr3 A) (i : Z) (x : A) : option (Arr3 A) :=
  if i =? 0 then Some (mkArr3 x (at1 a) (at2 a))
  else if i =? 1 then Some (mkArr3 (at0 a) x (at2 a))
  else if i =? 2 then Some (mkArr3 (at0 a) (at1 a) x)
  else None.

Definition fill3 {A} (x : A) : Arr3 A := mkArr3 x x x.

(** [type Board [3][3]Stack] *)
Definition Board : Type := Arr3 (Arr3 Stack).

(** The zero value of [Board]: nine nil slices. *)
Definition emptyBoard : Board := fill3 (fill3 nil_slice).

(** [b[row][col]] *)
Definition cell (b : Board) (row col : Z) : option Stack :=
  match get3 b row with
  | Some r => get3 r col
  | None => None
  end.

(** [b[row][col] = s] *)
Definition setCell (b : Board) (row col : Z) (s : Stack) : option Board :=
  match get3 b row with
  | Some r =>
      match set3 r col s with
      | Some r' => set3 b row r'
      | None => None
      end
  | None => None
  end.

(** ** A state monad with panics *)

Definition M (S A : Type) : Type := S -> option (A * S).

#[export] Instance M_ret {S} : MRet (M S) := fun A (a : A) s => Some (a, s).

#[export] Instance M_bind {S} : MBind (M S) :=
  fun A B (f : A -> M S B) (m : M S A) s =>
    match m s with
    | Some (a, s') => f a s'
    | None => None
    end.

Definition get {S} : M S S := fun s => Some (s, s).
Definition put {S} (s : S) : M S unit := fun _ => Some (tt, s).
Definition modify {S} (f : S -> S) : M S unit := fun s => Some (tt, f s).
Definition gets {S A} (f : S -> A) : M S A := fun s => Some (f s, s).

(** A partial operation of the language: [None] is a panic. *)
Definition orPanic {S A} (o : option A) : M S A :=
  fun s => match o with Some a => Some (a, s) | None => None end.

(** ** Win detection

    [checkLine] and [checkWin] are the same text in both programs. *)

(** [a[len(a)-1]] *)
Definition lastOf (s : Stack) : option Gobblet := index s (len s - 1).

Definition checkLine (a b c : Stack) : option Z :=
  if (len a >? 0) && (len b >? 0) && (len c >? 0) then
    ta ← lastOf a;
    tb ← lastOf b;
    tc ← lastOf c;
    if (Owner ta =? Owner tb) && (Owner tb =? Owner tc)
    then Some (Owner ta)
    else Some 0
  else Some 0.

(** The three cells read by one call of [checkLine]. *)
Definition lineOf (b : Board) (p q r : Z * Z) : option Z :=
  a ← cell b p.1 p.2;
  b' ← cell b q.1 q.2;
  c ← cell b r.1 r.2;
  checkLine a b' c.

(** The body of [for i := 0; i < 3; i++], for the values of [i] left to
    visit: the result is [Some w] when the loop returns [w] and [None]
    when it falls through. *)
Fixpoint rowsAndCols (b : Board) (idxs : list Z) : option (option Z) :=
  match idxs with
  | [] => Some None
  | i :: rest =>
      w ← lineOf b (i, 0) (i, 1) (i, 2);
      if negb (w =? 0) then Some (Some w)
      else
        w' ← lineOf b (0, i) (1, i) (2, i);
        if negb (w' =? 0) then Some (Some w')
        else rowsAndCols b rest
  end.

Definition checkWin (b : Board) : option Z :=
  r ← rowsAndCols b [0; 1; 2];
  match r with
  | Some w => Some w
  | None =>
      w ← lineOf b (0, 0) (1, 1) (2, 2);
      if negb (w =? 0) then Some w
      else
        w' ← lineOf b (0, 2) (1, 1) (2, 0);
        if negb (w' =? 0) then Some w'
        else Some 0
  end.

(** ** The display

    [printBoard] is the same text in both programs, up to the call of
    [printDebugState] that ends the one of the stand-alone program.  The
    value is the text written to the standard output. *)







(** ** The wire format

    [type GameState struct { Board Board; PlayerTurn int; Winner int }] *)

Record GameState : Type :=
  mkGameState { Board_ : Board; PlayerTurn : Z; Winner : Z }.

(** The zero value, as declared by [var state GameState]. *)
Definition zeroGameState : GameState := mkGameState emptyBoard 0 0.
Definition zeroGobblet : Gobblet := mkGobblet 0 0.

(** [json.Marshal] and [json.Unmarshal] belong to Go's standard library,
    not to this repository.  They are modelled here after the documented
    behaviour of [encoding/json] on the types above: [Marshal] writes the
    exported fields in declaration order without white space, a nil slice
    as [null], an array or a non-nil slice as a JSON array and an [int] in
    decimal; [Unmarshal] first parses the text, then stores what it finds
    into the target, matching keys to field names without regard to case,
    ignoring unknown keys, accepting [null] everywhere and refusing
    anything of another shape than its target.  The model is exact on
    the texts [Marshal] writes; of what else a payload may hold it leaves
    out the [\uXXXX] escapes, the folding of letters outside ASCII and the
    limit on nesting. *)

Module Json.

Local Open Scope string_scope.

#[local] Unset Elimination Schemes.
Inductive value : Type :=
| Null
| Bool (b : bool)
| Number (literal : string)
| Str (s : string)
| Array (items : list value)
| Object (members : list (string * value)).
#[local] Set Elimination Schemes.

(** *** Writing *)

Fixpoint comma_sep (parts : list string) : string :=
  match parts with
  | [] => EmptyString
  | p :: ps =>
      match ps with
      | [] => p
      | _ :: _ => p +:+ "," +:+ comma_sep ps
      end
  end.

(** Only field names are ever written as strings, so no character needs
    escaping. *)
Definition quote (s : string) : string :=
  String "034"%char (s +:+ String "034"%char EmptyString).

Fixpoint render (v : value) : string :=
  match v with
  | Null => "null"
  | Bool true => "true"
  | Bool false => "false"
  | Number literal => literal
  | Str s => quote s
  | Array items => "[" +:+ comma_sep (map render items) +:+ "]"
  | Object members =>
      "{" +:+ comma_sep (map (fun m => quote m.1 +:+ ":" +:+ render m.2) members)
          +:+ "}"
  end.

Definition encodeInt (z : Z) : value :=
  Number (NilZero.string_of_int (Z.to_int z)).

Definition encodeGobblet (g : Gobblet) : value :=
  Object [("Size", encodeInt (Size g)); ("Owner", encodeInt (Owner g))].

Definition encodeStack (s : Stack) : value :=
  match s with
  | nil_slice => Null
  | slice l => Array (map encodeGobblet l)
  end.

Definition encodeArr3 {A} (enc : A -> value) (a : Arr3 A) : value :=
  Array [enc (at0 a); enc (at1 a); enc (at2 a)].

Definition encodeGameState (st : GameState) : value :=
  Object [("Board", encodeArr3 (encodeArr3 encodeStack) (Board_ st));
          ("PlayerTurn", encodeInt (PlayerTurn st));
          ("Winner", encodeInt (Winner st))].

(** [json.Marshal(state)]; it cannot fail on this type. *)
Definition Marshal (st : GameState) : string := render (encodeGameState st).

(** *** Reading *)

Local Open Scope char_scope.

Definition isSpace (c : ascii) : bool :=
  Ascii.eqb c " " || Ascii.eqb c "009" || Ascii.eqb c "010" || Ascii.eqb c "013".

Fixpoint skipSpace (s : string) : string :=
  match s with
  | String c r => if isSpace c then skipSpace r else s
  | EmptyString => s
  end.

Definition isDigit (c : ascii) : bool :=
  (48 <=? nat_of_ascii c)%nat && (nat_of_ascii c <=? 57)%nat.

(** The characters a number may be made of. *)
Definition isNumberChar (c : ascii) : bool :=
  isDigit c || Ascii.eqb c "-" || Ascii.eqb c "+" || Ascii.eqb c "."
  || Ascii.eqb c "e" || Ascii.eqb c "E".

Fixpoint spanNumber (s : string) : string * string :=
  match s with
  | String c r =>
      if isNumberChar c
      then let '(lit, rest) := spanNumber r in (String c lit, rest)
      else (EmptyString, s)
  | EmptyString => (EmptyString, EmptyString)
  end.

Fixpoint dropDigits (s : string) : string :=
  match s with
  | String c r => if isDigit c then dropDigits r else s
  | EmptyString => s
  end.

(** One or more digits, then whatever [k] accepts. *)
Definition digits1 (k : string -> bool) (s : string) : bool :=
  match s with
  | String c r => isDigit c && k (dropDigits r)
  | EmptyString => false
  end.

Definition isEmpty (s : string) : bool :=
  match s with EmptyString => true | String _ _ => false end.

Definition exponentOpt (s : string) : bool :=
  match s with
  | EmptyString => true
  | String c r =>
      if Ascii.eqb c "e" || Ascii.eqb c "E" then
        match r with
        | String d r' =>
            if Ascii.eqb d "+" || Ascii.eqb d "-" then digits1 isEmpty r'
            else digits1 isEmpty r
        | EmptyString => false
        end
      else false
  end.

Definition fractionOpt (s : string) : bool :=
  match s with
  | String c r =>
      if Ascii.eqb c "." then digits1 exponentOpt r else exponentOpt s
  | EmptyString => true
  end.

Definition integerPart (s : string) : bool :=
  match s with
  | String c r =>
      if Ascii.eqb c "0" then fractionOpt r
      else isDigit c && fractionOpt (dropDigits r)
  | EmptyString => false
  end.

(** The grammar of a JSON number: an optional minus sign; then either a
    single zero or a non-zero digit followed by any digits; then,
    optionally, a dot and one or more digits; then, optionally, an
    exponent mark, an optional sign and one or more digits. *)
Definition validNumber (s : string) : bool :=
  match s with
  | String c r => if Ascii.eqb c "-" then integerPart r else integerPart s
  | EmptyString => false
  end.

(** The character an escape sequence stands for.  Escapes of the form
    [\uXXXX] are outside this model and read as malformed. *)
Definition unescape (c : ascii) : option ascii :=
  if Ascii.eqb c "034" then Some "034"
  else if Ascii.eqb c "\" then Some "\"
  else if Ascii.eqb c "/" then Some "/"
  else if Ascii.eqb c "b" then Some "008"
  else if Ascii.eqb c "f" then Some "012"
  else if Ascii.eqb c "n" then Some "010"
  else if Ascii.eqb c "r" then Some "013"
  else if Ascii.eqb c "t" then Some "009"
  else None.

(** The rest of a string, after its opening quote. *)
Fixpoint parseChars (s : string) : option (string * string) :=
  match s with
  | EmptyString => None
  | String c r =>
      if Ascii.eqb c "034" then Some (EmptyString, r)
      else if Ascii.eqb c "\" then
        match r with
        | String e r' =>
            match unescape e, parseChars r' with
            | Some u, Some (str, rest) => Some (String u str, rest)
            | _, _ => None
            end
        | EmptyString => None
        end
      else if (nat_of_ascii c <? 32)%nat then None
      else match parseChars r with
           | Some (str, rest) => Some (String c str, rest)
           | None => None
           end
  end.

(** [word] at the head of [s]. *)
Fixpoint expect (word s : string) : option string :=
  match word with
  | EmptyString => Some s
  | String c word' =>
      match s with
      | String d r => if Ascii.eqb c d then expect word' r else None
      | EmptyString => None
      end
  end.

(** The recursive descent proper.  [fuel] bounds the number of nested
    calls; the length of the text is always enough (see [parse]). *)
Fixpoint parseValue (fuel : nat) (s : string) : option (value * string) :=
  match fuel with
  | O => None
  | S fuel' =>
      match skipSpace s with
      | EmptyString => None
      | String c r =>
          if Ascii.eqb c "n" then
            r' ← expect "ull" r; Some (Null, r')
          else if Ascii.eqb c "t" then
            r' ← expect "rue" r; Some (Bool true, r')
          else if Ascii.eqb c "f" then
            r' ← expect "alse" r; Some (Bool false, r')
          else if Ascii.eqb c "034" then
            '(str, r') ← parseChars r; Some (Str str, r')
          else if Ascii.eqb c "[" then
            match skipSpace r with
            | EmptyString => None
            | String d r' =>
                if Ascii.eqb d "]" then Some (Array [], r')
                else '(items, r'') ← parseItems fuel' r; Some (Array items, r'')
            end
          else if Ascii.eqb c "{" then
            match skipSpace r with
            | EmptyString => None
            | String d r' =>
                if Ascii.eqb d "}" then Some (Object [], r')
                else '(members, r'') ← parseMembers fuel' r;
                     Some (Object members, r'')
            end
          else if isDigit c || Ascii.eqb c "-" then
            let '(lit, r') := spanNumber (String c r) in
            if validNumber lit then Some (Number lit, r') else None
          else None
      end
  end
with parseItems (fuel : nat) (s : string) : option (list value * string) :=
  match fuel with
  | O => None
  | S fuel' =>
      '(v, r) ← parseValue fuel' s;
      match skipSpace r with
      | EmptyString => None
      | String c r' =>
          if Ascii.eqb c "," then
            '(vs, r'') ← parseItems fuel' r'; Some (v :: vs, r'')
          else if Ascii.eqb c "]" then Some ([v], r')
          else None
      end
  end
with parseMembers (fuel : nat) (s : string)
  : option (list (string * value) * string) :=
  match fuel with
  | O => None
  | S fuel' =>
      match skipSpace s with
      | EmptyString => None
      | String q r =>
          if Ascii.eqb q "034" then
            '(key, r1) ← parseChars r;
            match skipSpace r1 with
            | EmptyString => None
            | String colon r2 =>
                if Ascii.eqb colon ":" then
                  '(v, r3) ← parseValue fuel' r2;
                  match skipSpace r3 with
                  | EmptyString => None
                  | String c r4 =>
                      if Ascii.eqb c "," then
                        '(ms, r5) ← parseMembers fuel' r4;
                        Some ((key, v) :: ms, r5)
                      else if Ascii.eqb c "}" then Some ([(key, v)], r4)
                      else None
                  end
                else None
            end
          else None
      end
  end.

(** A whole text: one value, with nothing but white space after it. *)
Definition parse (s : string) : option value :=
  '(v, r) ← parseValue (2 * String.length s + 2) s;
  if isEmpty (skipSpace r) then Some v else None.

(** *** Storing a parsed value into a Go value

    Each function takes the current content of its target, which [null]
    leaves alone. *)

Definition toLower (c : ascii) : ascii :=
  let n := nat_of_ascii c in
  if (65 <=? n)%nat && (n <=? 90)%nat then ascii_of_nat (n + 32) else c.

Fixpoint lower (s : string) : string :=
  match s with
  | EmptyString => EmptyString
  | String c r => String (toLower c) (lower r)
  end.

(** Whether [key] names the field [field]: letters match in either case
    (only ASCII folding is modelled). *)
Definition names (key field : string) : bool :=
  String.eqb (lower key) (lower field).

Definition intOfLiteral (literal : string) : option Z :=
  d ← NilZero.int_of_string literal;
  let z := Z.of_int d in
  if is_intb z then Some z else None.

Definition decodeInt (v : value) (cur : Z) : option Z :=
  match v with
  | Null => Some cur
  | Number literal => intOfLiteral literal
  | _ => None
  end.

Definition decodeGobbletField (g : Gobblet) (m : string * value)
  : option Gobblet :=
  if names m.1 "Size" then
    z ← decodeInt m.2 (Size g); Some (mkGobblet z (Owner g))
  else if names m.1 "Owner" then
    z ← decodeInt m.2 (Owner g); Some (mkGobblet (Size g) z)
  else Some g.

(** Left-to-right traversal that stops at the first failure. *)
Fixpoint foldOpt {A B} (f : A -> B -> option A) (l : list B) (a : A)
  : option A :=
  match l with
  | [] => Some a
  | x :: l' => a' ← f a x; foldOpt f l' a'
  end.

Definition decodeGobblet (v : value) (cur : Gobblet) : option Gobblet :=
  match v with
  | Null => Some cur
  | Object members => foldOpt decodeGobbletField members cur
  | _ => None
  end.

Fixpoint decodeAll {A} (dec : value -> option A) (l : list value)
  : option (list A) :=
  match l with
  | [] => Some []
  | v :: l' => a ← dec v; rest ← decodeAll dec l'; Some (a :: rest)
  end.

(** A slice is emptied and refilled, or set to [nil] by [null]. *)
Definition decodeStack (v : value) (cur : Stack) : option Stack :=
  match v with
  | Null => Some nil_slice
  | Array items =>
      l ← decodeAll (fun x => decodeGobblet x zeroGobblet) items; Some (slice l)
  | _ => None
  end.

(** An array takes the first three items, ignores further ones and
    zeroes the elements for which there is no item. *)
Definition decodeArr3 {A} (dec : value -> A -> option A) (zero : A)
    (v : value) (cur : Arr3 A) : option (Arr3 A) :=
  match v with
  | Null => Some cur
  | Array items =>
      let slot (i : nat) (old : A) : option A :=
        match items !! i with
        | Some x => dec x old
        | None => Some zero
        end in
      x0 ← slot 0%nat (at0 cur);
      x1 ← slot 1%nat (at1 cur);
      x2 ← slot 2%nat (at2 cur);
      Some (mkArr3 x0 x1 x2)
  | _ => None
  end.

Definition decodeBoard : value -> Board -> option Board :=
  decodeArr3 (decodeArr3 decodeStack nil_slice) (fill3 nil_slice).

Definition decodeGameStateField (st : GameState) (m : string * value)
  : option GameState :=
  if names m.1 "Board" then
    b ← decodeBoard m.2 (Board_ st);
    Some (mkGameState b (PlayerTurn st) (Winner st))
  else if names m.1 "PlayerTurn" then
    z ← decodeInt m.2 (PlayerTurn st);
    Some (mkGameState (Board_ st) z (Winner st))
  else if names m.1 "Winner" then
    z ← decodeInt m.2 (Winner st);
    Some (mkGameState (Board_ st) (PlayerTurn st) z)
  else Some st.

Definition decodeGameState (v : value) (cur : GameState) : option GameState :=
  match v with
  | Null => Some cur
  | Object members => foldOpt decodeGameStateField members cur
  | _ => None
  end.

(** [json.Unmarshal(data, &state)]: [None] stands for a non-nil error,
    after which the callers make no use of [state]. *)
Definition Unmarshal (data : string) (cur : GameState) : option GameState :=
  v ← parse data;
  decodeGameState v cur.

End Json.

(** ** The stand-alone program *)

Module Standalone.

(** The package-level variables [board], [playerTurn] and [pieceCount]. *)
Record World : Type :=
  mkWorld { board : Board; playerTurn : Z; pieceCount : gmap Z (gmap Z Z) }.

Definition initial : World :=
  mkWorld emptyBoard 1
          {[ 1 := {[ 1 := 0; 2 := 0; 3 := 0 ]};
             2 := {[ 1 := 0; 2 := 0; 3 := 0 ]} ]}.

Definition setBoard (b : Board) (w : World) : World :=
  mkWorld b (playerTurn w) (pieceCount w).
Definition setPlayerTurn (t : Z) (w : World) : World :=
  mkWorld (board w) t (pieceCount w).
Definition setPieceCount (pc : gmap Z (gmap Z Z)) (w : World) : World :=
  mkWorld (board w) (playerTurn w) pc.

(** [pieceCount[p][size]]: a missing key reads as the zero value, at
    either level. *)
Definition countOf (pc : gmap Z (gmap Z Z)) (p size : Z) : Z :=
  match pc !! p with
  | Some inner => default 0 (inner !! size)
  | None => 0
  end.

(** [pieceCount[p][size]++]: the inner map is updated in place; writing
    to the nil map read for a missing [p] panics. *)
Definition increment (pc : gmap Z (gmap Z Z)) (p size : Z)
  : option (gmap Z (gmap Z Z)) :=
  match pc !! p with
  | Some inner =>
      Some (<[ p := <[ size := wrap (default 0 (inner !! size) + 1) ]> inner ]> pc)
  | None => None
  end.

Definition placePiece (row col size : Z) : M World bool :=
  if (row <? 0) || (row >=? 3) || (col <? 0) || (col >=? 3) then mret false
  else
    pc ← gets pieceCount;
    turn ← gets playerTurn;
    if countOf pc turn size >=? 3 then mret false
    else
      b ← gets board;
      c ← orPanic (cell b row col);
      covered ← (if len c >? 0
                 then t ← orPanic (lastOf c); mret (Size t >=? size)
                 else mret false);
      if covered : bool then mret false
      else
        b' ← orPanic (setCell b row col (append c (mkGobblet size turn)));
        modify (setBoard b');;
        pc' ← orPanic (increment pc turn size);
        modify (setPieceCount pc');;
        mret true.

Definition movePiece (fromRow fromCol toRow toCol : Z) : M World bool :=
  if (fromRow <? 0) || (fromRow >=? 3) || (fromCol <? 0) || (fromCol >=? 3)
     || (toRow <? 0) || (toRow >=? 3) || (toCol <? 0) || (toCol >=? 3)
  then mret false
  else
    b ← gets board;
    src ← orPanic (cell b fromRow fromCol);
    if len src =? 0 then mret false
    else
      top ← orPanic (lastOf src);
      turn ← gets playerTurn;
      if negb (Owner top =? turn) then mret false
      else
        dst ← orPanic (cell b toRow toCol);
        covered ← (if len dst >? 0
                   then t ← orPanic (lastOf dst); mret (Size t >=? Size top)
                   else mret false);
        if covered : bool then mret false
        else
          popped ← orPanic (reslice src (len src - 1));
          b1 ← orPanic (setCell b fromRow fromCol popped);
          modify (setBoard b1);;
          dst' ← orPanic (cell b1 toRow toCol);
          b2 ← orPanic (setCell b1 toRow toCol (append dst' top));
          modify (setBoard b2);;
          mret true.

(** What one pass of the loop of [main] reads from the keyboard.  A
    failed [fmt.Scan] and an unknown action both restart the loop. *)
Inductive Command : Type :=
| Place (row col size : Z)
| Move (fromRow fromCol toRow toCol : Z)
| Unreadable.

(** How one pass of the loop ends: [continue] or the fall through to the
    next pass, or [os.Exit(0)] after announcing the winner. *)
Inductive Pass : Type :=
| Again
| Exit (winner : Z).

(** The dispatch on the action read: whether the loop goes on to the win
    check ([true]) or restarts with [continue] ([false]). *)
Definition perform (cmd : Command) : M World bool :=
  match cmd with
  | Place row col size => placePiece row col size
  | Move fromRow fromCol toRow toCol => movePiece fromRow fromCol toRow toCol
  | Unreadable => mret false
  end.

Definition mainLoopBody (cmd : Command) : M World Pass :=
  accepted ← perform cmd;
  if accepted : bool then
    b ← gets board;
    winner ← orPanic (checkWin b);
    if negb (winner =? 0) then mret (Exit winner)
    else
      turn ← gets playerTurn;
      modify (setPlayerTurn (wrap (3 - turn)));;
      mret Again
  else mret Again.

(** The states the program can be in at the top of its loop. *)
Inductive reachable : World -> Prop :=
| reach_initial : reachable initial
| reach_pass w cmd w' :
    reachable w -> mainLoopBody cmd w = Some (Again, w') -> reachable w'.

End Standalone.

(** ** The networked program ([gobletgame.go]) *)

Module Networked.

(** One call of [mqttClient.Publish(topic, qos, retained, payload)]. *)
Record Publication : Type :=
  mkPublication { topic : string; qos : Z; retained : bool; payload : string }.

(** The package-level variables [board], [playerTurn] and [gameID],
    together with what the process has handed to the MQTT client so far,
    oldest first.  [exited] records a call of [os.Exit]. *)
Record World : Type :=
  mkWorld { board : Board;
            playerTurn : Z;
            gameID : string;
            outbox : list Publication;
            exited : bool }.

Definition initial (id : string) : World := mkWorld emptyBoard 1 id [] false.

Definition setBoard (b : Board) (w : World) : World :=
  mkWorld b (playerTurn w) (gameID w) (outbox w) (exited w).
Definition setPlayerTurn (t : Z) (w : World) : World :=
  mkWorld (board w) t (gameID w) (outbox w) (exited w).
Definition setExited (w : World) : World :=
  mkWorld (board w) (playerTurn w) (gameID w) (outbox w) true.

Definition publish (tp : string) (q : Z) (r : bool) (data : string)
  : M World unit :=
  modify (fun w => mkWorld (board w) (playerTurn w) (gameID w)
                           (outbox w ++ [mkPublication tp q r data])
                           (exited w)).

Definition topicOf (id : string) : string := ("gobblet/game/" +:+ id)%string.

Definition saveGameState : M World unit :=
  b ← gets board;
  winner ← orPanic (checkWin b);
  turn ← gets playerTurn;
  let state := mkGameState b turn winner in
  let data := Json.Marshal state in
  id ← gets gameID;
  publish (topicOf id) 1 true data.

Definition publishMove : M World unit :=
  b ← gets board;
  winner ← orPanic (checkWin b);
  turn ← gets playerTurn;
  let state := mkGameState b turn winner in
  let data := Json.Marshal state in
  id ← gets gameID;
  publish (topicOf id) 1 true data.

Definition placePiece (row col size : Z) : M World bool :=
  if (size <? 1) || (size >? 3) then mret false
  else if (row <? 0) || (row >=? 3) || (col <? 0) || (col >=? 3) then mret false
  else
    b ← gets board;
    c ← orPanic (cell b row col);
    covered ← (if len c >? 0
               then t ← orPanic (lastOf c); mret (Size t >=? size)
               else mret false);
    if covered : bool then mret false
    else
      turn ← gets playerTurn;
      b' ← orPanic (setCell b row col (append c (mkGobblet size turn)));
      modify (setBoard b');;
      saveGameState;;
      publishMove;;
      b'' ← gets board;
      winner ← orPanic (checkWin b'');
      if negb (winner =? 0) then mret true
      else
        turn' ← gets playerTurn;
        modify (setPlayerTurn (wrap (3 - turn')));;
        publishMove;;
        mret true.

Definition movePiece (fromRow fromCol toRow toCol : Z) : M World bool :=
  if (fromRow <? 0) || (fromRow >=? 3) || (fromCol <? 0) || (fromCol >=? 3)
     || (toRow <? 0) || (toRow >=? 3) || (toCol <? 0) || (toCol >=? 3)
  then mret false
  else
    b ← gets board;
    src ← orPanic (cell b fromRow fromCol);
    if len src =? 0 then mret false
    else
      top ← orPanic (lastOf src);
      turn ← gets playerTurn;
      if negb (Owner top =? turn) then mret false
      else
        dst ← orPanic (cell b toRow toCol);
        covered ← (if len dst >? 0
                   then t ← orPanic (lastOf dst); mret (Size t >=? Size top)
                   else mret false);
        if covered : bool then mret false
        else
          popped ← orPanic (reslice src (len src - 1));
          b1 ← orPanic (setCell b fromRow fromCol popped);
          modify (setBoard b1);;
          dst' ← orPanic (cell b1 toRow toCol);
          b2 ← orPanic (setCell b1 toRow toCol (append dst' top));
          modify (setBoard b2);;
          saveGameState;;
          publishMove;;
          b3 ← gets board;
          winner ← orPanic (checkWin b3);
          if negb (winner =? 0) then mret true
          else
            turn' ← gets playerTurn;
            modify (setPlayerTurn (wrap (3 - turn')));;
            publishMove;;
            mret true.

(** The lines that end both [placePiece] and [movePiece], word for word:
    everything after the board has been changed.  Named here for the
    statements below. *)
Definition announce : M World bool :=
  saveGameState;;
  publishMove;;
  b ← gets board;
  winner ← orPanic (checkWin b);
  if negb (winner =? 0) then mret true
  else
    turn ← gets playerTurn;
    modify (setPlayerTurn (wrap (3 - turn)));;
    publishMove;;
    mret true.

(** The two actions [main] dispatches to. *)
Inductive Command : Type :=
| Place (row col size : Z)
| Move (fromRow fromCol toRow toCol : Z).

Definition perform (cmd : Command) : M World bool :=
  match cmd with
  | Place row col size => placePiece row col size
  | Move fromRow fromCol toRow toCol => movePiece fromRow fromCol toRow toCol
  end.

(** A script of local actions, with the answer to each. *)
Fixpoint performAll (cmds : list Command) : M World (list bool) :=
  match cmds with
  | [] => mret []
  | cmd :: rest =>
      ok ← perform cmd;
      oks ← performAll rest;
      mret (ok :: oks)
  end.

(** The subscription callback.  A payload that does not decode is
    dropped; any other replaces the board and the turn, and ends the
    process when it names a winner. *)
Definition onMessageReceived (data : string) : M World unit :=
  match Json.Unmarshal data zeroGameState with
  | None => mret tt
  | Some state =>
      modify (setBoard (Board_ state));;
      modify (setPlayerTurn (PlayerTurn state));;
      if negb (Winner state =? 0) then modify setExited else mret tt
  end.

(** The states a process gets to by local actions alone, starting from a
    fresh session. *)
Inductive reachable (id : string) : World -> Prop :=
| reach_initial : reachable id (initial id)
| reach_perform w cmd accepted w' :
    reachable id w -> perform cmd w = Some (accepted, w') -> reachable id w'.

(** What [saveGameState] and [publishMove] hand to the MQTT client for
    the snapshot [st]. *)
Definition publicationOf (w : World) (st : GameState) : Publication :=
  mkPublication (topicOf (gameID w)) 1 true (Json.Marshal st).

(** *** Joining a session and taking turns

    What the broker and the keyboard do is an input of the functions
    below; the process is followed at the moments when no message is
    being delivered. *)

(** The callback of [loadGameState] drops a payload that does not decode
    and offers any other to a channel of capacity one, from which the
    function takes one state: the first that decoded. *)
Fixpoint firstDecoded (arrivals : list string) : option GameState :=
  match arrivals with
  | [] => None
  | data :: rest =>
      match Json.Unmarshal data zeroGameState with
      | Some state => Some state
      | None => firstDecoded rest
      end
  end.

(** [loadGameState], given whether the subscription succeeded and the
    payloads that reach the callback before the two seconds are over, in
    order of arrival.  A winner in the state adopted is announced on the
    console, and nothing more. *)
Definition loadGameState (subscribed : bool) (arrivals : list string)
  : M World bool :=
  if negb subscribed then mret false
  else
    match firstDecoded arrivals with
    | Some state =>
        modify (setBoard (Board_ state));;
        modify (setPlayerTurn (PlayerTurn state));;
        mret true
    | None => mret false
    end.

(** How [main] gets to its loop: [os.Exit(1)], or a process. *)
Inductive Start : Type :=
| Refused
| Started (w : World).

(** The beginning of [main], once the connection of [setupMQTT] stands:
    the test of the identifier, then [loadGameState], then
    [saveGameState] if no game was found.  [None] is a panic. *)
Definition start (id : string) (subscribed : bool) (arrivals : list string)
  : option Start :=
  if negb (String.length id =? 5)%nat then Some Refused
  else
    match (found ← loadGameState subscribed arrivals;
           if found : bool then mret tt else saveGameState) (initial id) with
    | Some (_, w) => Some (Started w)
    | None => None
    end.

(** What one pass of the loop of [main] reads from the keyboard. *)
Inductive Input : Type :=
| Act (cmd : Command)
| Unreadable.

(** How one pass of the loop ends: with [continue] for a spectator; in
    the loop that sleeps until the turn comes, which only a delivery can
    end; with [os.Exit(0)]; or at the bottom of the loop. *)
Inductive Pass : Type :=
| Spectating
| Waiting
| Exit (winner : Z)
| Again.

Definition mainLoopBody (playerID : Z) (input : Input) : M World Pass :=
  if playerID =? 3 then mret Spectating
  else
    turn ← gets playerTurn;
    if negb (turn =? playerID) then mret Waiting
    else
      b ← gets board;
      winner ← orPanic (checkWin b);
      if negb (winner =? 0) then
        modify setExited;;
        mret (Exit winner)
      else
        match input with
        | Act cmd => perform cmd;; mret Again
        | Unreadable => mret Again
        end.

(** Deliveries to the callback, one after the other, for as long as the
    process lives. *)
Fixpoint deliverAll (payloads : list string) : M World unit :=
  match payloads with
  | [] => mret tt
  | data :: rest =>
      gone ← gets exited;
      if gone : bool then mret tt
      else onMessageReceived data;; deliverAll rest
  end.

(** The life of a process whose user has entered [playerID]: it starts,
    and from then on passes of the loop of [main] and calls of
    [onMessageReceived] follow one another in any order, until
    [os.Exit].  A delivery falls between two passes. *)
Inductive runs (id : string) (playerID : Z) : World -> Prop :=
| run_start subscribed arrivals w :
    start id subscribed arrivals = Some (Started w) -> runs id playerID w
| run_pass w input pass w' :
    runs id playerID w -> exited w = false ->
    mainLoopBody playerID input w = Some (pass, w') -> runs id playerID w'
| run_delivery w data w' :
    runs id playerID w -> exited w = false ->
    onMessageReceived data w = Some (tt, w') -> runs id playerID w'.

End Networked.

(** ** Vocabulary of the statements *)

(** A valid row or column number. *)
Definition inb (i : Z) : Prop := 0 <= i < 3.

(** The visible piece of a stack. *)
Definition topPiece (s : Stack) : option Gobblet := last (elems s).

(** The visible piece of a cell of the board, if any. *)
Definition topAt (b : Board) (xy : Z * Z) : option Gobblet :=
  s ← cell b xy.1 xy.2; topPiece s.

(** What [checkWin] can see of a cell: the owner of its visible piece. *)
Definition topOwner (b : Board) (xy : Z * Z) : option Z :=
  Owner <$> topAt b xy.

Definition Line : Type := (Z * Z) * (Z * Z) * (Z * Z).

(** The eight lines, in the order in which [checkWin] visits them: row
    [i] then column [i] for [i = 0, 1, 2], then the two diagonals. *)
Definition lines : list Line :=
  [ ((0, 0), (0, 1), (0, 2)); ((0, 0), (1, 0), (2, 0));
    ((1, 0), (1, 1), (1, 2)); ((0, 1), (1, 1), (2, 1));
    ((2, 0), (2, 1), (2, 2)); ((0, 2), (1, 2), (2, 2));
    ((0, 0), (1, 1), (2, 2)); ((0, 2), (1, 1), (2, 0)) ].

(** All three cells of the line are occupied and show a piece of [p]. *)
Definition ownsLine (b : Board) (p : Z) (l : Line) : Prop :=
  topOwner b l.1.1 = Some p /\ topOwner b l.1.2 = Some p
  /\ topOwner b l.2 = Some p.

(** The verdict on one line: its owner, or 0. *)
Definition lineWinner (b : Board) (l : Line) : Z :=
  match topOwner b l.1.1, topOwner b l.1.2, topOwner b l.2 with
  | Some x, Some y, Some z => if (x =? y) && (y =? z) then x else 0
  | _, _, _ => 0
  end.

(** The first verdict other than 0, or 0. *)
Fixpoint firstNonZero (l : list Z) : Z :=
  match l with
  | [] => 0
  | x :: l' => if x =? 0 then firstNonZero l' else x
  end.

(** The visible piece of [st] is at least as large as [size]: the test
    that keeps a piece of that size off the stack. *)
Definition blocks (st : Stack) (size : Z) : bool :=
  match topPiece st with
  | Some g => Size g >=? size
  | None => false
  end.

(** The bounds test of both programs, for one coordinate. *)
Definition outside (i : Z) : bool := (i <? 0) || (i >=? 3).

(** Why a move is turned down: a coordinate off the board, nothing to
    move, a piece of the other player on top of the source, or a piece at
    least as large on top of the destination. *)
Definition moveRefused (b : Board) (turn fromRow fromCol toRow toCol : Z)
  : Prop :=
  ~ inb fromRow \/ ~ inb fromCol \/ ~ inb toRow \/ ~ inb toCol
  \/ exists src, cell b fromRow fromCol = Some src
     /\ (topPiece src = None
         \/ exists top, topPiece src = Some top
            /\ (Owner top <> turn
                \/ exists dst, cell b toRow toCol = Some dst
                   /\ blocks dst (Size top) = true)).

(** What a placement does to the board: the piece [g] goes on top of the
    stack of the cell, and no other cell changes. *)
Definition placedOnTop (b b' : Board) (row col : Z) (g : Gobblet) : Prop :=
  exists st,
    cell b row col = Some st
    /\ cell b' row col = Some (slice (elems st ++ [g]))
    /\ forall r c, (r, c) <> (row, col) -> cell b' r c = cell b r c.

(** What a move does to the board: the two cells differ; the source stack
    loses its last element, which the destination stack gains; no other
    cell changes. *)
Definition movedTop (b b' : Board) (fromRow fromCol toRow toCol : Z) : Prop :=
  (fromRow, fromCol) <> (toRow, toCol)
  /\ exists src top dst,
      cell b fromRow fromCol = Some src
      /\ cell b toRow toCol = Some dst
      /\ elems src = removelast (elems src) ++ [top]
      /\ cell b' fromRow fromCol = Some (slice (removelast (elems src)))
      /\ cell b' toRow toCol = Some (slice (elems dst ++ [top]))
      /\ forall row col,
          (row, col) <> (fromRow, fromCol) -> (row, col) <> (toRow, toCol) ->
          cell b' row col = cell b row col.

(** The board [b2] is [b] after the visible piece of the source cell has
    gone to the destination cell, by way of the board [b1] of the
    program. *)
Definition moveDone (b : Board) (turn fromRow fromCol toRow toCol : Z)
    (b2 : Board) : Prop :=
  inb fromRow /\ inb fromCol /\ inb toRow /\ inb toCol
  /\ (fromRow, fromCol) <> (toRow, toCol)
  /\ exists src top dst b1,
      cell b fromRow fromCol = Some src /\ topPiece src = Some top
      /\ Owner top = turn
      /\ cell b toRow toCol = Some dst /\ blocks dst (Size top) = false
      /\ setCell b fromRow fromCol (slice (removelast (elems src))) = Some b1
      /\ setCell b1 toRow toCol (append dst top) = Some b2.

Definition isPlayer (p : Z) : Prop := p = 1 \/ p = 2.

(** Every piece on the board, visible or buried, satisfies [P]. *)
Definition boardAll (P : Gobblet -> Prop) (b : Board) : Prop :=
  forall row col st g, cell b row col = Some st -> In g (elems st) -> P g.

(** Every piece on the board belongs to player 1 or to player 2. *)
Definition ownersValid (b : Board) : Prop :=
  boardAll (fun g => isPlayer (Owner g)) b.

(** A piece of the game: one of the three sizes, one of the two players. *)
Definition regular (g : Gobblet) : Prop :=
  1 <= Size g <= 3 /\ isPlayer (Owner g).

(** Values of the Go types: every [int] is in range. *)
Definition wfGobblet (g : Gobblet) : Prop := is_int (Size g) /\ is_int (Owner g).

Definition wfGameState (st : GameState) : Prop :=
  boardAll wfGobblet (Board_ st) /\ is_int (PlayerTurn st) /\ is_int (Winner st).

(** All the pieces on the board, buried ones included. *)
Definition allPieces (b : Board) : list Gobblet :=
  let row (r : Arr3 Stack) := elems (at0 r) ++ elems (at1 r) ++ elems (at2 r) in
  row (at0 b) ++ row (at1 b) ++ row (at2 b).

(** How many pieces of [size] the player [owner] has on the board.  In
    the networked program a piece never leaves the board, so this is the
    number of such pieces the player has placed. *)
Definition placedCount (b : Board) (owner size : Z) : nat :=
  length (filter (fun g => (Owner g =? owner) && (Size g =? size)) (allPieces b)).

(** The placement budget of the stand-alone program: what is left, for
    the player to move, of the three pieces of a size. *)
Definition budget (w : Standalone.World) (size : Z) : Z :=
  3 - Standalone.countOf (Standalone.pieceCount w) (Standalone.playerTurn w) size.

(** *** Vocabulary of the round trip through JSON *)

Fixpoint allDigits (s : string) : bool :=
  match s with
  | EmptyString => true
  | String c r => Json.isDigit c && allDigits r
  end.

(** What may follow a number in a text: the end, or a character that no
    number contains. *)
Definition closing (rest : string) : Prop :=
  match rest with
  | EmptyString => True
  | String c _ => Json.isNumberChar c = false
  end.

(** The decimal numeral of an integer, as [Json.encodeInt] writes it. *)
Definition numeral (z : Z) : string := NilZero.string_of_int (Z.to_int z).

(** Characters that stand for themselves between quotes. *)
Definition plainChar (c : ascii) : bool :=
  negb (Ascii.eqb c "034") && negb (Ascii.eqb c "\")
  && negb (nat_of_ascii c <? 32)%nat.

Fixpoint plainString (s : string) : bool :=
  match s with
  | EmptyString => true
  | String c r => plainChar c && plainString r
  end.

(** The values [Json.Marshal] can write: numbers are numerals, strings
    need no escaping. *)
#[local] Unset Elimination Schemes.
Inductive plain : Json.value -> Prop :=
| plain_null : plain Json.Null
| plain_bool b : plain (Json.Bool b)
| plain_number z : plain (Json.Number (numeral z))
| plain_str s : plainString s = true -> plain (Json.Str s)
| plain_array items : Forall plain items -> plain (Json.Array items)
| plain_object members :
    Forall (fun m => plainString m.1 = true /\ plain m.2) members ->
    plain (Json.Object members).
#[local] Set Elimination Schemes.

(** The fuel [Json.parseValue] needs to read a value back. *)
Fixpoint cost (v : Json.value) : nat :=
  match v with
  | Json.Array items =>
      S ((fix go (l : list Json.value) : nat :=
            match l with
            | [] => O
            | x :: l' => S (Nat.max (cost x) (go l'))
            end) items)
  | Json.Object members =>
      S ((fix go (l : list (string * Json.value)) : nat :=
            match l with
            | [] => O
            | m :: l' => S (Nat.max (cost m.2) (go l'))
            end) members)
  | _ => 1%nat
  end.

Definition costItems : list Json.value -> nat :=
  fix go (l : list Json.value) : nat :=
    match l with
    | [] => O
    | x :: l' => S (Nat.max (cost x) (go l'))
    end.

Definition costMembers : list (string * Json.value) -> nat :=
  fix go (l : list (string * Json.value)) : nat :=
    match l with
    | [] => O
    | m :: l' => S (Nat.max (cost m.2) (go l'))
    end.

(** With enough fuel, the text of [v] followed by [rest] reads back as
    [v], leaving [rest]. *)
Definition readsBack (v : Json.value) : Prop :=
  forall fuel rest,
    (cost v <= fuel)%nat -> closing rest ->
    Json.parseValue fuel (Json.render v +:+ rest) = Some (v, rest).

(** The publication carries the JSON text of a snapshot. *)
Definition publishesSnapshot (p : Networked.Publication) : Prop :=
  exists st, wfGameState st /\ Networked.payload p = Json.Marshal st.

(** *** Example positions *)

(** The state of a process of session 12345 after a script of local
    actions. *)
Definition netAfter (cmds : list Networked.Command) : Networked.World :=
  match Networked.performAll cmds (Networked.initial "12345") with
  | Some (_, w) => w
  | None => Networked.initial "12345"
  end.

(** The state of the stand-alone program after its loop has gone through
    a list of inputs. *)
Fixpoint stdPlay (cmds : list Standalone.Command) (w : Standalone.World)
  : Standalone.World :=
  match cmds with
  | [] => w
  | cmd :: rest =>
      match Standalone.mainLoopBody cmd w with
      | Some (_, w') => stdPlay rest w'
      | None => w
      end
  end.

Definition stdAfter (cmds : list Standalone.Command) : Standalone.World :=
  stdPlay cmds Standalone.initial.

(** A game that fills the board without a line: every cell ends with one
    piece, no three in a line of one player. *)
Definition drawnGame : list Networked.Command :=
  [ Networked.Place 0 0 1; Networked.Place 0 1 1; Networked.Place 0 2 1;
    Networked.Place 1 1 1; Networked.Place 1 0 2; Networked.Place 1 2 2;
    Networked.Place 2 1 2; Networked.Place 2 0 2; Networked.Place 2 2 3 ].

(** *** Vocabulary of the invariants of play *)

(** From the bottom of a stack to its top, every piece is larger than
    the ones beneath it. *)
Definition ascending (l : list Gobblet) : Prop :=
  forall i j a b,
    l !! i = Some a -> l !! j = Some b -> (i < j)%nat -> Size a < Size b.

(** Every stack of the board satisfies [P]. *)
Definition stacksAll (P : list Gobblet -> Prop) (b : Board) : Prop :=
  forall row col st, cell b row col = Some st -> P (elems st).

(** The counts of the stand-alone program are the numbers of pieces on
    its board. *)
Definition countsMatch (w : Standalone.World) : Prop :=
  forall p size,
    Standalone.countOf (Standalone.pieceCount w) p size
    = Z.of_nat (placedCount (Standalone.board w) p size).

(** What a call of [onMessageReceived] makes of the process, given what
    the payload decodes to. *)
Definition received (o : option GameState) (w : Networked.World)
  : Networked.World :=
  match o with
  | Some st =>
      Networked.mkWorld (Board_ st) (PlayerTurn st) (Networked.gameID w)
                        (Networked.outbox w)
                        (if Winner st =? 0 then Networked.exited w else true)
  | None => w
  end.

(** The snapshot of the present state of a process. *)
Definition snapshotOf (w : Networked.World) (winner : Z) : GameState :=
  mkGameState (Networked.board w) (Networked.playerTurn w) winner.


(** ** Arrays and boards *)


Lemma get3_is_Some {A} (a : Arr3 A) i : is_Some (get3 a i) <-> inb i.
Proof.
  unfold get3, inb. split.
  - intros [x Hx]. repeat case_match; try discriminate; lia.
  - intros Hi. assert (i = 0 \/ i = 1 \/ i = 2) as [-> | [-> | ->]] by lia; eauto.
Qed.

Lemma set3_is_Some {A} (a : Arr3 A) i x : is_Some (set3 a i x) <-> inb i.
Proof.
  unfold set3, inb. split.
  - intros [y Hy]. repeat case_match; try discriminate; lia.
  - intros Hi. assert (i = 0 \/ i = 1 \/ i = 2) as [-> | [-> | ->]] by lia; eauto.
Qed.

Lemma get3_set3 {A} (a a' : Arr3 A) i j x :
  set3 a i x = Some a' ->
  get3 a' j = if decide (i = j) then Some x else get3 a j.
Proof.
  intros H. assert (inb i) as Hi by (apply (set3_is_Some a i x); eauto).
  unfold inb in Hi.
  assert (i = 0 \/ i = 1 \/ i = 2) as [-> | [-> | ->]] by lia;
    cbv in H; injection H as <-; unfold get3; cbn;
    case_decide; subst; try reflexivity;
    repeat (case_match; try lia; try reflexivity).
Qed.

Lemma cell_is_Some b r c : is_Some (cell b r c) <-> inb r /\ inb c.
Proof.
  unfold cell. split.
  - intros [s Hs]. destruct (get3 b r) as [row|] eqn:Hr; [|discriminate].
    split; [apply (get3_is_Some b r) | apply (get3_is_Some row c)]; eauto.
  - intros [Hr Hc]. apply (get3_is_Some b r) in Hr as [row ->].
    by apply get3_is_Some.
Qed.

Lemma setCell_is_Some b r c s : is_Some (setCell b r c s) <-> inb r /\ inb c.
Proof.
  unfold setCell. split.
  - intros [b' Hb']. destruct (get3 b r) as [row|] eqn:Hr; [|discriminate].
    destruct (set3 row c s) as [row'|] eqn:Hc; [|discriminate].
    split; [apply (get3_is_Some b r) | apply (set3_is_Some row c s)]; eauto.
  - intros [Hr Hc]. destruct (proj2 (get3_is_Some b r) Hr) as [row ->].
    destruct (proj2 (set3_is_Some row c s) Hc) as [row' ->].
    by apply set3_is_Some.
Qed.

Lemma cell_setCell b b' r c s r' c' :
  setCell b r c s = Some b' ->
  cell b' r' c' = if decide (r = r' /\ c = c') then Some s else cell b r' c'.
Proof.
  unfold setCell, cell. intros H.
  destruct (get3 b r) as [row|] eqn:Hr; [|discriminate].
  destruct (set3 row c s) as [row'|] eqn:Hc; [|discriminate].
  rewrite (get3_set3 _ _ _ r' _ H).
  destruct (decide (r = r')) as [<-|Hne].
  - rewrite Hr, (get3_set3 _ _ _ c' _ Hc).
    destruct (decide (c = c')); case_decide; try reflexivity; tauto.
  - case_decide; [tauto | reflexivity].
Qed.

(** ** Win detection *)

Lemma lastOf_last s : lastOf s = topPiece s.
Proof.
  unfold lastOf, index, topPiece, len.
  destruct (elems s) as [|g l _] using rev_ind; [reflexivity|].
  rewrite length_app, last_snoc. cbn [length].
  destruct (_ || _) eqn:E.
  - apply orb_true_iff in E as [E%Z.ltb_lt|E%Z.leb_le]; lia.
  - replace (Z.to_nat _) with (length l) by lia.
    by rewrite lookup_app_r, Nat.sub_diag by lia.
Qed.

Lemma len_pos s : (len s >? 0) = true <-> is_Some (topPiece s).
Proof.
  unfold len, topPiece.
  destruct (elems s) as [|g l _] using rev_ind; cbn.
  - split; [discriminate | intros [? ?]; discriminate].
  - rewrite last_snoc, length_app. cbn [length]. split; [eauto | intros _; apply Z.gtb_lt; lia].
Qed.

Lemma len_zero s : (len s >? 0) = false <-> topPiece s = None.
Proof.
  rewrite <- not_true_iff_false, len_pos, <- eq_None_not_Some. tauto.
Qed.

Lemma checkLine_spec a b c :
  checkLine a b c =
  Some match Owner <$> topPiece a, Owner <$> topPiece b, Owner <$> topPiece c with
       | Some x, Some y, Some z => if (x =? y) && (y =? z) then x else 0
       | _, _, _ => 0
       end.
Proof.
  unfold checkLine. rewrite !lastOf_last.
  destruct (len a >? 0) eqn:Ea; [apply len_pos in Ea as [ta ->] | apply len_zero in Ea as ->];
  (destruct (len b >? 0) eqn:Eb; [apply len_pos in Eb as [tb ->] | apply len_zero in Eb as ->]);
  (destruct (len c >? 0) eqn:Ec; [apply len_pos in Ec as [tc ->] | apply len_zero in Ec as ->]);
  cbn; try reflexivity.
  by destruct (_ && _).
Qed.

Lemma lineOf_spec b p q r :
  In (p, q, r) lines -> lineOf b p q r = Some (lineWinner b (p, q, r)).
Proof.
  intros Hin. unfold lineOf, lineWinner, topOwner, topAt.
  assert (forall xy, In xy [p; q; r] -> is_Some (cell b xy.1 xy.2)) as Hc.
  { intros xy Hxy. apply cell_is_Some. unfold inb.
    cbn in Hin, Hxy. intuition (simplify_eq; cbn; lia). }
  destruct (Hc p) as [sa Ha]; [cbn; tauto|].
  destruct (Hc q) as [sb Hb]; [cbn; tauto|].
  destruct (Hc r) as [sc Hs]; [cbn; tauto|].
  cbn [fst snd]. rewrite Ha, Hb, Hs. cbn. apply checkLine_spec.
Qed.

Lemma checkWin_spec b :
  checkWin b = Some (firstNonZero (map (lineWinner b) lines)).
Proof.
  unfold checkWin. cbn [rowsAndCols].
  rewrite !lineOf_spec by (cbn; tauto).
  cbn [map lines firstNonZero].
  unfold mbind, option_bind; cbv beta iota.
  repeat (destruct (lineWinner b _ =? 0); cbn [negb]; try reflexivity).
Qed.

(** ** Running the monad; stacks and bounds *)

Ltac run_monad :=
  unfold mbind, mret, M_bind, M_ret, gets, modify, orPanic, get, put in *;
  cbv beta iota in *.


Lemma blocks_run {S} (st : Stack) (size : Z) (s : S) :
  (if len st >? 0
   then t ← orPanic (lastOf st); mret (Size t >=? size)
   else mret false : M S bool) s = Some (blocks st size, s).
Proof.
  unfold blocks. rewrite lastOf_last.
  destruct (len st >? 0) eqn:E.
  - apply len_pos in E as [g ->]. reflexivity.
  - apply len_zero in E as ->. reflexivity.
Qed.

Lemma outside_false i : outside i = false <-> inb i.
Proof. unfold outside, inb. rewrite orb_false_iff, Z.ltb_ge, Z.geb_leb, Z.leb_gt. lia. Qed.

Lemma outside_true i : outside i = true <-> ~ inb i.
Proof. rewrite <- outside_false. destruct (outside i); intuition congruence. Qed.

Lemma len_eqb_zero st : (len st =? 0) = true <-> topPiece st = None.
Proof.
  rewrite <- len_zero. rewrite Z.eqb_eq, Z.gtb_ltb, Z.ltb_ge. unfold len. lia.
Qed.

Lemma take_removelast {A} (l : list A) :
  take (Z.to_nat (Z.of_nat (length l) - 1)) l = removelast l.
Proof.
  destruct l as [|x l _] using rev_ind; [reflexivity|].
  rewrite removelast_last, length_app. cbn [length].
  replace (Z.to_nat _) with (length l) by lia.
  by rewrite take_app_length.
Qed.

Lemma reslice_pop st g :
  topPiece st = Some g ->
  reslice st (len st - 1) = Some (slice (removelast (elems st))).
Proof.
  intros Hg. unfold reslice.
  assert (0 < len st) as Hpos.
  { apply Z.gtb_lt, len_pos. eauto. }
  destruct (_ || _) eqn:E.
  { apply orb_true_iff in E as [E%Z.ltb_lt | E%Z.ltb_lt]; lia. }
  destruct st as [|l]; [discriminate|].
  unfold len. cbn [elems]. by rewrite take_removelast.
Qed.

Lemma blocks_self st g : topPiece st = Some g -> blocks st (Size g) = true.
Proof. intros H. unfold blocks. rewrite H. rewrite Z.geb_leb. apply Z.leb_refl. Qed.

Lemma bounds4 a b c d :
  (a <? 0) || (a >=? 3) || (b <? 0) || (b >=? 3)
  || (c <? 0) || (c >=? 3) || (d <? 0) || (d >=? 3)
  = outside a || (outside b || (outside c || outside d)).
Proof. unfold outside. by rewrite <- !orb_assoc. Qed.

Lemma bounds2 a b :
  (a <? 0) || (a >=? 3) || (b <? 0) || (b >=? 3) = outside a || outside b.
Proof. unfold outside. by rewrite <- !orb_assoc. Qed.

(** ** The networked program, case by case *)

Section NetworkedFacts.
Import Networked.

Lemma net_announce_spec w :
  announce w =
  Some (true,
        let win := firstNonZero (map (lineWinner (board w)) lines) in
        let before := publicationOf w (mkGameState (board w) (playerTurn w) win) in
        if win =? 0 then
          mkWorld (board w) (wrap (3 - playerTurn w)) (gameID w)
                  (outbox w ++ [before; before;
                     publicationOf w (mkGameState (board w)
                                        (wrap (3 - playerTurn w)) win)])
                  (exited w)
        else
          mkWorld (board w) (playerTurn w) (gameID w)
                  (outbox w ++ [before; before]) (exited w)).
Proof.
  unfold announce, saveGameState, publishMove, publish, setPlayerTurn, publicationOf.
  run_monad.
  repeat (rewrite checkWin_spec; cbv beta iota;
          cbn [board playerTurn gameID outbox exited]).
  destruct (_ =? 0) eqn:E; cbn [negb];
    repeat (rewrite ?checkWin_spec; cbv beta iota;
            cbn [board playerTurn gameID outbox exited]);
    rewrite <- ?app_assoc; reflexivity.
Qed.

Lemma net_place_cases row col size w :
  placePiece row col size w = Some (false, w)
  /\ (size < 1 \/ 3 < size \/ ~ inb row \/ ~ inb col
      \/ exists st, cell (board w) row col = Some st /\ blocks st size = true)
  \/ 1 <= size <= 3 /\ inb row /\ inb col
     /\ exists st b',
         cell (board w) row col = Some st /\ blocks st size = false
         /\ setCell (board w) row col
                    (append st (mkGobblet size (playerTurn w))) = Some b'
         /\ placePiece row col size w = announce (setBoard b' w).
Proof.
  unfold placePiece.
  destruct ((size <? 1) || (size >? 3)) eqn:Es.
  { left. split; [reflexivity|].
    apply orb_true_iff in Es as [E%Z.ltb_lt | E%Z.gtb_lt]; lia. }
  apply orb_false_iff in Es as [E1%Z.ltb_ge E2].
  assert (size <= 3) by (rewrite Z.gtb_ltb in E2; apply Z.ltb_ge in E2; lia).
  rewrite bounds2.
  destruct (outside row) eqn:Er.
  { left. split; [reflexivity|]. apply outside_true in Er. tauto. }
  destruct (outside col) eqn:Ec.
  { left. split; [reflexivity|]. apply outside_true in Ec. tauto. }
  apply outside_false in Er, Ec. cbn [orb].
  destruct (proj2 (cell_is_Some (board w) row col) (conj Er Ec)) as [st Hst].
  destruct (proj2 (setCell_is_Some (board w) row col
              (append st (mkGobblet size (playerTurn w)))) (conj Er Ec)) as [b' Hb'].
  pose proof (blocks_run st size w) as Hblocks.
  run_monad. rewrite Hst. cbv beta iota. rewrite Hblocks.
  destruct (blocks st size) eqn:Eb.
  - left. split; [reflexivity|]. right; right; right; right. eauto.
  - right. repeat split; try lia; try apply Er; try apply Ec.
    exists st, b'. rewrite Hb'. repeat split; done.
Qed.

Lemma net_move_cases fromRow fromCol toRow toCol w :
  movePiece fromRow fromCol toRow toCol w = Some (false, w)
  /\ moveRefused (board w) (playerTurn w) fromRow fromCol toRow toCol
  \/ exists b2,
      moveDone (board w) (playerTurn w) fromRow fromCol toRow toCol b2
      /\ movePiece fromRow fromCol toRow toCol w = announce (setBoard b2 w).
Proof.
  unfold movePiece, moveRefused, moveDone.
  rewrite bounds4.
  destruct (outside fromRow) eqn:E1.
  { left. split; [reflexivity|]. apply outside_true in E1. tauto. }
  destruct (outside fromCol) eqn:E2.
  { left. split; [reflexivity|]. apply outside_true in E2. tauto. }
  destruct (outside toRow) eqn:E3.
  { left. split; [reflexivity|]. apply outside_true in E3. tauto. }
  destruct (outside toCol) eqn:E4.
  { left. split; [reflexivity|]. apply outside_true in E4. tauto. }
  apply outside_false in E1, E2, E3, E4. cbn [orb].
  destruct (proj2 (cell_is_Some (board w) fromRow fromCol) (conj E1 E2)) as [src Hsrc].
  destruct (proj2 (cell_is_Some (board w) toRow toCol) (conj E3 E4)) as [dst Hdst].
  pose proof (fun size => blocks_run dst size w) as Hblocks.
  run_monad. rewrite Hsrc. cbv beta iota.
  destruct (len src =? 0) eqn:El.
  { left. split; [reflexivity|]. apply len_eqb_zero in El.
    do 4 right. exists src. split; [done | by left]. }
  assert (is_Some (topPiece src)) as [top Htop].
  { apply not_true_iff_false in El. rewrite len_eqb_zero in El.
    by apply not_eq_None_Some. }
  rewrite lastOf_last, Htop. cbv beta iota.
  destruct (Owner top =? playerTurn w) eqn:Eo; cbn [negb].
  2:{ left. split; [reflexivity|]. apply Z.eqb_neq in Eo.
      do 4 right. exists src. split; [done|]. right. exists top. split; [done | by left]. }
  apply Z.eqb_eq in Eo.
  rewrite Hdst. cbv beta iota. rewrite Hblocks.
  destruct (blocks dst (Size top)) eqn:Eb.
  { left. split; [reflexivity|].
    do 4 right. exists src. split; [done|]. right. exists top. split; [done|].
    right. eauto. }
  assert ((fromRow, fromCol) <> (toRow, toCol)) as Hne.
  { intros [= -> ->]. rewrite Hsrc in Hdst. injection Hdst as ->.
    rewrite (blocks_self _ _ Htop) in Eb. discriminate. }
  rewrite (reslice_pop _ _ Htop).
  destruct (proj2 (setCell_is_Some (board w) fromRow fromCol
              (slice (removelast (elems src)))) (conj E1 E2)) as [b1 Hb1].
  rewrite Hb1. cbn [board setBoard].
  rewrite (cell_setCell _ _ _ _ _ toRow toCol Hb1).
  case_decide as Hd; [exfalso; apply Hne; destruct Hd; congruence|].
  rewrite Hdst.
  destruct (proj2 (setCell_is_Some b1 toRow toCol (append dst top)) (conj E3 E4))
    as [b2 Hb2].
  rewrite Hb2. right. exists b2. split; [|reflexivity].
  do 5 (split; [done|]). exists src, top, dst, b1. repeat split; done.
Qed.

End NetworkedFacts.

(** ** The stand-alone program, case by case *)

Section StandaloneFacts.
Import Standalone.

Lemma std_place_cases row col size w :
  placePiece row col size w = Some (false, w)
  /\ (~ inb row \/ ~ inb col
      \/ 3 <= countOf (pieceCount w) (playerTurn w) size
      \/ exists st, cell (board w) row col = Some st /\ blocks st size = true)
  \/ inb row /\ inb col
     /\ countOf (pieceCount w) (playerTurn w) size < 3
     /\ exists st b',
         cell (board w) row col = Some st /\ blocks st size = false
         /\ setCell (board w) row col
                    (append st (mkGobblet size (playerTurn w))) = Some b'
         /\ placePiece row col size w =
            match increment (pieceCount w) (playerTurn w) size with
            | Some pc' => Some (true, mkWorld b' (playerTurn w) pc')
            | None => None
            end.
Proof.
  unfold placePiece. rewrite bounds2.
  destruct (outside row) eqn:Er.
  { left. split; [reflexivity|]. apply outside_true in Er. tauto. }
  destruct (outside col) eqn:Ec.
  { left. split; [reflexivity|]. apply outside_true in Ec. tauto. }
  apply outside_false in Er, Ec. cbn [orb].
  destruct (proj2 (cell_is_Some (board w) row col) (conj Er Ec)) as [st Hst].
  destruct (proj2 (setCell_is_Some (board w) row col
              (append st (mkGobblet size (playerTurn w)))) (conj Er Ec)) as [b' Hb'].
  pose proof (blocks_run st size w) as Hblocks.
  run_monad.
  destruct (countOf (pieceCount w) (playerTurn w) size >=? 3) eqn:En.
  { left. split; [reflexivity|]. rewrite Z.geb_leb in En. apply Z.leb_le in En. tauto. }
  rewrite Z.geb_leb in En. apply Z.leb_gt in En.
  rewrite Hst. cbv beta iota. rewrite Hblocks.
  destruct (blocks st size) eqn:Eb.
  - left. split; [reflexivity|]. right; right; right. eauto.
  - right. do 3 (split; [done|]).
    exists st, b'. rewrite Hb'. do 3 (split; [done|]).
    unfold setBoard, setPieceCount. cbn [board playerTurn pieceCount].
    by destruct (increment _ _ _).
Qed.

Lemma std_move_cases fromRow fromCol toRow toCol w :
  movePiece fromRow fromCol toRow toCol w = Some (false, w)
  /\ moveRefused (board w) (playerTurn w) fromRow fromCol toRow toCol
  \/ exists b2,
      moveDone (board w) (playerTurn w) fromRow fromCol toRow toCol b2
      /\ movePiece fromRow fromCol toRow toCol w = Some (true, setBoard b2 w).
Proof.
  unfold movePiece, moveRefused, moveDone.
  rewrite bounds4.
  destruct (outside fromRow) eqn:E1.
  { left. split; [reflexivity|]. apply outside_true in E1. tauto. }
  destruct (outside fromCol) eqn:E2.
  { left. split; [reflexivity|]. apply outside_true in E2. tauto. }
  destruct (outside toRow) eqn:E3.
  { left. split; [reflexivity|]. apply outside_true in E3. tauto. }
  destruct (outside toCol) eqn:E4.
  { left. split; [reflexivity|]. apply outside_true in E4. tauto. }
  apply outside_false in E1, E2, E3, E4. cbn [orb].
  destruct (proj2 (cell_is_Some (board w) fromRow fromCol) (conj E1 E2)) as [src Hsrc].
  destruct (proj2 (cell_is_Some (board w) toRow toCol) (conj E3 E4)) as [dst Hdst].
  pose proof (fun size => blocks_run dst size w) as Hblocks.
  run_monad. rewrite Hsrc. cbv beta iota.
  destruct (len src =? 0) eqn:El.
  { left. split; [reflexivity|]. apply len_eqb_zero in El.
    do 4 right. exists src. split; [done | by left]. }
  assert (is_Some (topPiece src)) as [top Htop].
  { apply not_true_iff_false in El. rewrite len_eqb_zero in El.
    by apply not_eq_None_Some. }
  rewrite lastOf_last, Htop. cbv beta iota.
  destruct (Owner top =? playerTurn w) eqn:Eo; cbn [negb].
  2:{ left. split; [reflexivity|]. apply Z.eqb_neq in Eo.
      do 4 right. exists src. split; [done|]. right. exists top. split; [done | by left]. }
  apply Z.eqb_eq in Eo.
  rewrite Hdst. cbv beta iota. rewrite Hblocks.
  destruct (blocks dst (Size top)) eqn:Eb.
  { left. split; [reflexivity|].
    do 4 right. exists src. split; [done|]. right. exists top. split; [done|].
    right. eauto. }
  assert ((fromRow, fromCol) <> (toRow, toCol)) as Hne.
  { intros [= -> ->]. rewrite Hsrc in Hdst. injection Hdst as ->.
    rewrite (blocks_self _ _ Htop) in Eb. discriminate. }
  rewrite (reslice_pop _ _ Htop).
  destruct (proj2 (setCell_is_Some (board w) fromRow fromCol
              (slice (removelast (elems src)))) (conj E1 E2)) as [b1 Hb1].
  rewrite Hb1. cbn [board setBoard].
  rewrite (cell_setCell _ _ _ _ _ toRow toCol Hb1).
  case_decide as Hd; [exfalso; apply Hne; destruct Hd; congruence|].
  rewrite Hdst.
  destruct (proj2 (setCell_is_Some b1 toRow toCol (append dst top)) (conj E3 E4))
    as [b2 Hb2].
  rewrite Hb2. right. exists b2. split; [|reflexivity].
  do 5 (split; [done|]). exists src, top, dst, b1. repeat split; done.
Qed.

End StandaloneFacts.

(** ** Refused actions and moves *)

Lemma net_announce_true w r w' :
  Networked.announce w = Some (r, w') ->
  r = true /\ Networked.board w' = Networked.board w
  /\ Networked.gameID w' = Networked.gameID w.
Proof.
  rewrite net_announce_spec. intros [= <- <-]. cbv zeta.
  by destruct (_ =? 0).
Qed.

Lemma net_place_rejected row col size w w' :
  Networked.placePiece row col size w = Some (false, w') -> w' = w.
Proof.
  destruct (net_place_cases row col size w) as [[-> _] | (_ & _ & _ & st & b' & _ & _ & _ & ->)].
  - congruence.
  - intros H%net_announce_true. by destruct H.
Qed.

Lemma net_move_rejected fromRow fromCol toRow toCol w w' :
  Networked.movePiece fromRow fromCol toRow toCol w = Some (false, w') -> w' = w.
Proof.
  destruct (net_move_cases fromRow fromCol toRow toCol w) as [[-> _] | (b2 & _ & ->)].
  - congruence.
  - intros H%net_announce_true. by destruct H.
Qed.

Lemma std_place_rejected row col size w w' :
  Standalone.placePiece row col size w = Some (false, w') -> w' = w.
Proof.
  destruct (std_place_cases row col size w) as [[-> _] | (_ & _ & _ & st & b' & _ & _ & _ & ->)].
  - congruence.
  - by destruct (Standalone.increment _ _ _).
Qed.

Lemma std_move_rejected fromRow fromCol toRow toCol w w' :
  Standalone.movePiece fromRow fromCol toRow toCol w = Some (false, w') -> w' = w.
Proof.
  destruct (std_move_cases fromRow fromCol toRow toCol w) as [[-> _] | (b2 & _ & ->)];
    congruence.
Qed.

(** C4.  A refused placement or move changes nothing: the board, the turn,
    the placement counts and (in the networked program) the list of
    publications are what they were, so that asking again gives the same
    refusal, again without any change. *)
Theorem rejected_action_changes_nothing :
  (forall w w' row col size,
      Networked.placePiece row col size w = Some (false, w') ->
      w' = w /\ Networked.outbox w' = Networked.outbox w
      /\ Networked.placePiece row col size w' = Some (false, w'))
  /\ (forall w w' fromRow fromCol toRow toCol,
      Networked.movePiece fromRow fromCol toRow toCol w = Some (false, w') ->
      w' = w /\ Networked.outbox w' = Networked.outbox w
      /\ Networked.movePiece fromRow fromCol toRow toCol w' = Some (false, w'))
  /\ (forall w w' row col size,
      Standalone.placePiece row col size w = Some (false, w') ->
      w' = w /\ Standalone.placePiece row col size w' = Some (false, w'))
  /\ (forall w w' fromRow fromCol toRow toCol,
      Standalone.movePiece fromRow fromCol toRow toCol w = Some (false, w') ->
      w' = w /\ Standalone.movePiece fromRow fromCol toRow toCol w' = Some (false, w')).
Proof.
  repeat split.
  all: try (intros; match goal with
            | H : Networked.placePiece _ _ _ _ = _ |- _ =>
                pose proof (net_place_rejected _ _ _ _ _ H)
            | H : Networked.movePiece _ _ _ _ _ = _ |- _ =>
                pose proof (net_move_rejected _ _ _ _ _ _ H)
            | H : Standalone.placePiece _ _ _ _ = _ |- _ =>
                pose proof (std_place_rejected _ _ _ _ _ H)
            | H : Standalone.movePiece _ _ _ _ _ = _ |- _ =>
                pose proof (std_move_rejected _ _ _ _ _ _ H)
            end; subst; done).
Qed.

Lemma moveDone_distinct b turn fromRow fromCol toRow toCol b2 :
  moveDone b turn fromRow fromCol toRow toCol b2 ->
  (fromRow, fromCol) <> (toRow, toCol).
Proof. intros H. apply H. Qed.

(** C9.  A piece cannot be moved onto the cell it stands on: on a cell of
    the board that holds a piece, a move whose destination is its source
    is refused and leaves everything as it was.  (When the piece belongs
    to the player to move, the refusal comes from comparing the size of
    the piece with itself.) *)
Theorem move_onto_own_cell_rejected :
  (forall w row col st,
      cell (Networked.board w) row col = Some st -> topPiece st <> None ->
      Networked.movePiece row col row col w = Some (false, w)
      /\ exists top, topPiece st = Some top /\ blocks st (Size top) = true)
  /\ (forall w row col st,
      cell (Standalone.board w) row col = Some st -> topPiece st <> None ->
      Standalone.movePiece row col row col w = Some (false, w)
      /\ exists top, topPiece st = Some top /\ blocks st (Size top) = true).
Proof.
  split; intros w row col st _ Htop; (split; [|]).
  - destruct (net_move_cases row col row col w) as [[H _] | (b2 & Hd & _)]; [done|].
    by apply moveDone_distinct in Hd.
  - destruct (topPiece st) as [top|] eqn:E; [|done].
    exists top. split; [done | by apply blocks_self].
  - destruct (std_move_cases row col row col w) as [[H _] | (b2 & Hd & _)]; [done|].
    by apply moveDone_distinct in Hd.
  - destruct (topPiece st) as [top|] eqn:E; [|done].
    exists top. split; [done | by apply blocks_self].
Qed.

Lemma moveDone_movedTop b turn fromRow fromCol toRow toCol b2 :
  moveDone b turn fromRow fromCol toRow toCol b2 ->
  movedTop b b2 fromRow fromCol toRow toCol.
Proof.
  intros (_ & _ & _ & _ & Hne & src & top & dst & b1 & Hsrc & Htop & Ho & Hdst & _ & Hb1 & Hb2).
  split; [done|]. exists src, top, dst. do 2 (split; [done|]).
  split.
  { unfold topPiece in Htop. destruct (elems src) as [|x l _] using rev_ind; [done|].
    rewrite last_snoc in Htop. injection Htop as ->. by rewrite removelast_last. }
  split.
  { rewrite (cell_setCell _ _ _ _ _ fromRow fromCol Hb2).
    case_decide as Hd; [exfalso; apply Hne; destruct Hd; congruence|].
    rewrite (cell_setCell _ _ _ _ _ fromRow fromCol Hb1).
    case_decide as Hd'; [done | tauto]. }
  split.
  { rewrite (cell_setCell _ _ _ _ _ toRow toCol Hb2).
    case_decide as Hd; [done | tauto]. }
  intros row col H1 H2.
  rewrite (cell_setCell _ _ _ _ _ row col Hb2).
  case_decide as Hd; [exfalso; apply H2; destruct Hd; congruence|].
  rewrite (cell_setCell _ _ _ _ _ row col Hb1).
  case_decide as Hd'; [exfalso; apply H1; destruct Hd'; congruence | done].
Qed.

Lemma net_move_accepted fromRow fromCol toRow toCol w w' :
  Networked.movePiece fromRow fromCol toRow toCol w = Some (true, w') ->
  moveDone (Networked.board w) (Networked.playerTurn w)
           fromRow fromCol toRow toCol (Networked.board w')
  /\ Networked.announce
       (Networked.setBoard (Networked.board w') w) = Some (true, w').
Proof.
  destruct (net_move_cases fromRow fromCol toRow toCol w) as [[-> _] | (b2 & Hd & ->)];
    [discriminate|].
  intros H. destruct (net_announce_true _ _ _ H) as (_ & -> & _). done.
Qed.

Lemma std_move_accepted fromRow fromCol toRow toCol w w' :
  Standalone.movePiece fromRow fromCol toRow toCol w = Some (true, w') ->
  moveDone (Standalone.board w) (Standalone.playerTurn w)
           fromRow fromCol toRow toCol (Standalone.board w')
  /\ w' = Standalone.setBoard (Standalone.board w') w.
Proof.
  destruct (std_move_cases fromRow fromCol toRow toCol w) as [[-> _] | (b2 & Hd & ->)];
    [discriminate|].
  by intros [= <-].
Qed.

(** C6.  An accepted move takes the visible piece off the source stack
    and puts that very piece on top of the destination stack: the source
    stack is its old self without its last element (so what lay beneath
    is untouched and in the same order), the destination stack is its old
    self followed by the piece, the two cells are different, and every
    other cell of the board is the same as before. *)
Theorem move_pops_source_pushes_destination :
  (forall w w' fromRow fromCol toRow toCol,
      Networked.movePiece fromRow fromCol toRow toCol w = Some (true, w') ->
      movedTop (Networked.board w) (Networked.board w')
               fromRow fromCol toRow toCol)
  /\ (forall w w' fromRow fromCol toRow toCol,
      Standalone.movePiece fromRow fromCol toRow toCol w = Some (true, w') ->
      movedTop (Standalone.board w) (Standalone.board w')
               fromRow fromCol toRow toCol).
Proof.
  split; intros w w' fromRow fromCol toRow toCol H.
  - apply net_move_accepted in H as [Hd _]. by eapply moveDone_movedTop.
  - apply std_move_accepted in H as [Hd _]. by eapply moveDone_movedTop.
Qed.

(** ** The turn *)

Lemma wrap_id z : is_int z -> wrap z = z.
Proof.
  unfold is_int, int_min, int_max, wrap. intros H.
  rewrite Z.mod_small by lia. lia.
Qed.

Lemma flip_player t : isPlayer t -> wrap (3 - t) = 3 - t /\ isPlayer (3 - t).
Proof. intros [-> | ->]; (split; [reflexivity | unfold isPlayer; lia]). Qed.

Lemma flip_player_wrap t : isPlayer t -> isPlayer (wrap (3 - t)).
Proof. intros H. destruct (flip_player t H) as [-> ?]. done. Qed.

Lemma net_announce_turn w r w' :
  Networked.announce w = Some (r, w') ->
  exists win,
    checkWin (Networked.board w') = Some win
    /\ Networked.playerTurn w'
       = (if win =? 0 then wrap (3 - Networked.playerTurn w)
          else Networked.playerTurn w).
Proof.
  rewrite net_announce_spec. intros [= <- <-]. cbv zeta.
  exists (firstNonZero (map (lineWinner (Networked.board w)) lines)). split.
  - rewrite checkWin_spec. by destruct (_ =? 0).
  - by destruct (_ =? 0).
Qed.

Lemma net_perform_cases cmd w ok w' :
  Networked.perform cmd w = Some (ok, w') ->
  ok = false /\ w' = w
  \/ ok = true
     /\ Networked.announce (Networked.setBoard (Networked.board w') w)
        = Some (true, w').
Proof.
  destruct cmd as [row col size | fromRow fromCol toRow toCol]; cbn [Networked.perform].
  - destruct (net_place_cases row col size w)
      as [[-> _] | (_ & _ & _ & st & b' & _ & _ & _ & ->)].
    + intros [= <- <-]. by left.
    + intros H. destruct (net_announce_true _ _ _ H) as (-> & Hb & _).
      cbn in Hb. subst b'. by right.
  - destruct (net_move_cases fromRow fromCol toRow toCol w) as [[-> _] | (b2 & _ & ->)].
    + intros [= <- <-]. by left.
    + intros H. destruct (net_announce_true _ _ _ H) as (-> & Hb & _).
      cbn in Hb. subst b2. by right.
Qed.

Lemma net_perform_turn cmd w ok w' :
  Networked.perform cmd w = Some (ok, w') ->
  exists win,
    checkWin (Networked.board w') = Some win
    /\ Networked.playerTurn w'
       = (if ok && (win =? 0) then wrap (3 - Networked.playerTurn w)
          else Networked.playerTurn w).
Proof.
  intros [[-> ->] | [-> H]]%net_perform_cases.
  - rewrite checkWin_spec. eauto.
  - apply net_announce_turn in H as (win & Hwin & ->). eauto.
Qed.

Lemma net_reachable_turn id w :
  Networked.reachable id w -> isPlayer (Networked.playerTurn w).
Proof.
  induction 1 as [|w cmd ok w' _ IH Hstep]; [by left|].
  apply net_perform_turn in Hstep as (win & _ & ->).
  destruct (ok && _); [by apply flip_player_wrap | done].
Qed.

Lemma std_mainLoopBody_spec cmd w ok w1 :
  Standalone.perform cmd w = Some (ok, w1) ->
  exists win,
    checkWin (Standalone.board w1) = Some win
    /\ Standalone.mainLoopBody cmd w
       = Some (if ok then
                 if win =? 0
                 then (Standalone.Again,
                       Standalone.setPlayerTurn
                         (wrap (3 - Standalone.playerTurn w1)) w1)
                 else (Standalone.Exit win, w1)
               else (Standalone.Again, w1)).
Proof.
  intros H. exists (firstNonZero (map (lineWinner (Standalone.board w1)) lines)).
  split; [apply checkWin_spec|].
  unfold Standalone.mainLoopBody. run_monad. rewrite H.
  destruct ok; [|done]. rewrite checkWin_spec.
  by destruct (_ =? 0).
Qed.

Lemma std_perform_turn cmd w ok w1 :
  Standalone.perform cmd w = Some (ok, w1) ->
  Standalone.playerTurn w1 = Standalone.playerTurn w.
Proof.
  destruct cmd as [row col size | fromRow fromCol toRow toCol |]; cbn [Standalone.perform].
  - destruct (std_place_cases row col size w)
      as [[-> _] | (_ & _ & _ & st & b' & _ & _ & _ & ->)].
    + by intros [= <- <-].
    + destruct (Standalone.increment _ _ _); [|done]. by intros [= <- <-].
  - destruct (std_move_cases fromRow fromCol toRow toCol w) as [[-> _] | (b2 & _ & ->)];
      by intros [= <- <-].
  - by intros [= <- <-].
Qed.

Lemma std_perform_rejected cmd w w1 :
  Standalone.perform cmd w = Some (false, w1) -> w1 = w.
Proof.
  destruct cmd; cbn [Standalone.perform].
  - apply std_place_rejected.
  - apply std_move_rejected.
  - by intros [= <-].
Qed.

Lemma std_reachable_turn w :
  Standalone.reachable w -> isPlayer (Standalone.playerTurn w).
Proof.
  induction 1 as [|w cmd w' _ IH Hstep]; [by left|].
  unfold Standalone.mainLoopBody in Hstep. run_monad.
  destruct (Standalone.perform cmd w) as [[ok w1]|] eqn:Hp; [|done].
  pose proof (std_perform_turn _ _ _ _ Hp) as Ht.
  destruct ok; [|by injection Hstep as <-; rewrite Ht].
  rewrite checkWin_spec in Hstep.
  destruct (_ =? 0); [|done]. cbn in Hstep. injection Hstep as <-.
  cbn. rewrite Ht. by apply flip_player_wrap.
Qed.


(** ** The owners of the pieces *)

Lemma boardAll_setCell P b row col s b' :
  setCell b row col s = Some b' ->
  boardAll P b ->
  (forall g, In g (elems s) -> P g) ->
  boardAll P b'.
Proof.
  intros Hset Hb Hs r c st g Hcell Hin.
  rewrite (cell_setCell _ _ _ _ _ r c Hset) in Hcell.
  case_decide.
  - injection Hcell as <-. by apply Hs.
  - by apply (Hb r c st).
Qed.

Lemma boardAll_empty P : boardAll P emptyBoard.
Proof.
  intros r c st g Hcell Hin.
  assert (st = nil_slice) as ->; [|done].
  unfold cell, get3 in Hcell. by repeat case_match; simplify_eq.
Qed.

Lemma boardAll_impl (P Q : Gobblet -> Prop) b :
  (forall g, P g -> Q g) -> boardAll P b -> boardAll Q b.
Proof. intros HPQ Hb r c st g Hcell Hin. by apply HPQ, (Hb r c st). Qed.

Lemma boardAll_place P b row col st g b' :
  cell b row col = Some st ->
  setCell b row col (append st g) = Some b' ->
  P g -> boardAll P b -> boardAll P b'.
Proof.
  intros Hcell Hset Hg Hb. apply (boardAll_setCell _ _ _ _ _ _ Hset Hb).
  intros x [Hin | [<- | []]]%in_app_or; [by apply (Hb row col st) | done].
Qed.

Lemma boardAll_move P b turn fromRow fromCol toRow toCol b2 :
  moveDone b turn fromRow fromCol toRow toCol b2 ->
  boardAll P b -> boardAll P b2.
Proof.
  intros (_ & _ & _ & _ & Hne & src & top & dst & b1 & Hsrc & Htop & Ho & Hdst & _ & Hb1 & Hb2) Hb.
  assert (elems src = removelast (elems src) ++ [top]) as Hsplit.
  { unfold topPiece in Htop. destruct (elems src) as [|x l _] using rev_ind; [done|].
    rewrite last_snoc in Htop. injection Htop as ->. by rewrite removelast_last. }
  assert (forall g, In g (elems src) -> P g) as Hall
    by (intros g; apply (Hb fromRow fromCol src g Hsrc)).
  apply (boardAll_setCell _ _ _ _ _ _ Hb2).
  - apply (boardAll_setCell _ _ _ _ _ _ Hb1 Hb).
    intros g Hin. apply Hall. rewrite Hsplit. apply in_or_app. by left.
  - intros g [Hin | [<- | []]]%in_app_or; [by apply (Hb toRow toCol dst)|].
    apply Hall. rewrite Hsplit. apply in_or_app. right. by left.
Qed.

Lemma net_place_accepted row col size w w' :
  Networked.placePiece row col size w = Some (true, w') ->
  1 <= size <= 3
  /\ exists st,
      cell (Networked.board w) row col = Some st /\ blocks st size = false
      /\ setCell (Networked.board w) row col
                 (append st (mkGobblet size (Networked.playerTurn w)))
         = Some (Networked.board w')
      /\ Networked.announce (Networked.setBoard (Networked.board w') w)
         = Some (true, w').
Proof.
  destruct (net_place_cases row col size w)
    as [[-> _] | (Hs & _ & _ & st & b' & Hc & Hb & Hset & ->)]; [done|].
  intros H. destruct (net_announce_true _ _ _ H) as (_ & Hb' & _).
  cbn in Hb'. subst b'. split; [done|]. by exists st.
Qed.

Lemma std_place_accepted row col size w w' :
  Standalone.placePiece row col size w = Some (true, w') ->
  Standalone.countOf (Standalone.pieceCount w) (Standalone.playerTurn w) size < 3
  /\ Standalone.playerTurn w' = Standalone.playerTurn w
  /\ Standalone.increment (Standalone.pieceCount w) (Standalone.playerTurn w) size
     = Some (Standalone.pieceCount w')
  /\ exists st,
      cell (Standalone.board w) row col = Some st /\ blocks st size = false
      /\ setCell (Standalone.board w) row col
                 (append st (mkGobblet size (Standalone.playerTurn w)))
         = Some (Standalone.board w').
Proof.
  destruct (std_place_cases row col size w)
    as [[-> _] | (_ & _ & Hn & st & b' & Hc & Hb & Hset & ->)]; [done|].
  destruct (Standalone.increment _ _ _) as [pc'|]; [|done].
  intros [= <-]. cbn. do 3 (split; [done|]). by exists st.
Qed.

Lemma net_reachable_regular id w :
  Networked.reachable id w -> boardAll regular (Networked.board w).
Proof.
  induction 1 as [|w cmd ok w' Hr IH Hstep]; [apply boardAll_empty|].
  pose proof (net_reachable_turn _ _ Hr) as Ht.
  destruct ok.
  - destruct cmd as [row col size | fromRow fromCol toRow toCol]; cbn in Hstep.
    + apply net_place_accepted in Hstep as (Hs & st & Hc & _ & Hset & _).
      by apply (boardAll_place _ _ _ _ _ _ _ Hc Hset).
    + apply net_move_accepted in Hstep as [Hd _].
      by apply (boardAll_move _ _ _ _ _ _ _ _ Hd).
  - by apply net_perform_cases in Hstep as [[_ ->] | [? _]].
Qed.

Lemma net_reachable_owners id w :
  Networked.reachable id w -> ownersValid (Networked.board w).
Proof.
  intros H%net_reachable_regular. eapply boardAll_impl; [|done]. by intros g [_ ?].
Qed.

Lemma std_reachable_owners w :
  Standalone.reachable w -> ownersValid (Standalone.board w).
Proof.
  induction 1 as [|w cmd w' Hr IH Hstep]; [apply boardAll_empty|].
  pose proof (std_reachable_turn _ Hr) as Ht.
  destruct (Standalone.perform cmd w) as [[ok w1]|] eqn:Hp.
  2:{ unfold Standalone.mainLoopBody in Hstep. run_monad. by rewrite Hp in Hstep. }
  destruct (std_mainLoopBody_spec _ _ _ _ Hp) as (win & _ & Hbody).
  rewrite Hbody in Hstep.
  assert (ownersValid (Standalone.board w1)) as H1.
  { destruct ok; [|by apply std_perform_rejected in Hp as ->].
    destruct cmd as [row col size | fromRow fromCol toRow toCol |]; cbn in Hp.
    - apply std_place_accepted in Hp as (_ & _ & _ & st & Hc & _ & Hset).
      by apply (boardAll_place _ _ _ _ _ _ _ Hc Hset).
    - apply std_move_accepted in Hp as [Hd _].
      by apply (boardAll_move _ _ _ _ _ _ _ _ Hd).
    - done. }
  destruct ok; [destruct (win =? 0)|]; by simplify_eq.
Qed.

Lemma setCell_placedOnTop b row col st g b' :
  cell b row col = Some st ->
  setCell b row col (append st g) = Some b' ->
  placedOnTop b b' row col g.
Proof.
  intros Hc Hset. exists st. split; [done|]. split.
  - rewrite (cell_setCell _ _ _ _ _ row col Hset). by case_decide; [|tauto].
  - intros r c Hne. rewrite (cell_setCell _ _ _ _ _ r c Hset).
    case_decide as Hd; [exfalso; apply Hne; destruct Hd; congruence | done].
Qed.

(** C8.  A placement takes no owner: the piece it puts on the board has
    the size asked for and belongs to the player whose turn it is when
    the call is made; it goes on top of the cell named, and no other
    cell changes.  Hence every piece on a board that either program has
    built by local actions belongs to player 1 or player 2. *)
Theorem placed_piece_belongs_to_player_to_move :
  (forall w w' row col size,
      Networked.placePiece row col size w = Some (true, w') ->
      placedOnTop (Networked.board w) (Networked.board w') row col
                  (mkGobblet size (Networked.playerTurn w)))
  /\ (forall w w' row col size,
      Standalone.placePiece row col size w = Some (true, w') ->
      placedOnTop (Standalone.board w) (Standalone.board w') row col
                  (mkGobblet size (Standalone.playerTurn w)))
  /\ (forall id w, Networked.reachable id w -> ownersValid (Networked.board w))
  /\ (forall w, Standalone.reachable w -> ownersValid (Standalone.board w)).
Proof.
  split; [|split; [|split; [apply net_reachable_owners | apply std_reachable_owners]]].
  - intros w w' row col size (_ & st & Hc & _ & Hset & _)%net_place_accepted.
    by eapply setCell_placedOnTop.
  - intros w w' row col size (_ & _ & _ & st & Hc & _ & Hset)%std_place_accepted.
    by eapply setCell_placedOnTop.
Qed.

(** ** What [checkWin] reports *)

Lemma lineWinner_owns b l p :
  p <> 0 -> (lineWinner b l = p <-> ownsLine b p l).
Proof.
  intros Hp. unfold lineWinner, ownsLine.
  destruct (topOwner b l.1.1) as [x|], (topOwner b l.1.2) as [y|],
    (topOwner b l.2) as [z|]; try (split; [congruence | intros (? & ? & ?); congruence]).
  destruct (Z.eqb_spec x y) as [->|Hxy]; cbn [andb].
  - destruct (Z.eqb_spec y z) as [->|Hyz].
    + split; [by intros -> | intros (? & ? & ?); congruence].
    + split; [congruence | intros (? & ? & ?); congruence].
  - split; [congruence | intros (? & ? & ?); congruence].
Qed.

Lemma firstNonZero_split {A} (f : A -> Z) (ls : list A) :
  firstNonZero (map f ls) <> 0 ->
  exists before l after,
    ls = before ++ l :: after /\ f l = firstNonZero (map f ls)
    /\ forall l', In l' before -> f l' = 0.
Proof.
  induction ls as [|x ls IH]; cbn [map firstNonZero]; [done|].
  destruct (Z.eqb_spec (f x) 0) as [E|E].
  - intros (before & l & after & -> & Hl & Hb)%IH.
    exists (x :: before), l, after. repeat split; [done|].
    intros l' [<- | Hin]; [done | by apply Hb].
  - intros _. exists [], x, ls. repeat split. intros l' [].
Qed.

Lemma firstNonZero_none {A} (f : A -> Z) (ls : list A) :
  firstNonZero (map f ls) = 0 -> forall l, In l ls -> f l = 0.
Proof.
  induction ls as [|x ls IH]; cbn [map firstNonZero]; [by intros _ l []|].
  destruct (Z.eqb_spec (f x) 0) as [E|E].
  - intros H l [<- | Hin]; [done | by apply IH].
  - done.
Qed.

Lemma lineWinner_ext b b' l :
  In l lines ->
  (forall row col, inb row -> inb col ->
     topOwner b' (row, col) = topOwner b (row, col)) ->
  lineWinner b' l = lineWinner b l.
Proof.
  intros Hin Hsame. unfold lineWinner.
  assert (forall xy, In xy [l.1.1; l.1.2; l.2] -> topOwner b' xy = topOwner b xy) as H.
  { intros [r c] Hxy. apply Hsame; unfold inb;
      cbn in Hin, Hxy; intuition (simplify_eq; cbn in *; simplify_eq; lia). }
  rewrite !H by (cbn; tauto). done.
Qed.

(** C3, as amended.  [checkWin] always returns.  It returns a player
    other than 0 exactly when some line has its three cells occupied with
    visible pieces of one such player, and then it returns the owner of
    the first such line in its scanning order; it returns 0 when there is
    no such line.  The answer depends on nothing but the owners of the
    visible pieces: two boards that show the same owners cell by cell get
    the same answer, whatever the sizes and whatever lies beneath. *)
Theorem checkWin_reports_first_owned_line (b : Board) :
  exists w,
    checkWin b = Some w
    /\ (w <> 0 ->
        exists before l after,
          lines = before ++ l :: after /\ ownsLine b w l
          /\ forall l' p, In l' before -> p <> 0 -> ~ ownsLine b p l')
    /\ (w = 0 -> forall l p, In l lines -> p <> 0 -> ~ ownsLine b p l)
    /\ (forall b',
          (forall row col, inb row -> inb col ->
             topOwner b' (row, col) = topOwner b (row, col)) ->
          checkWin b' = Some w).
Proof.
  exists (firstNonZero (map (lineWinner b) lines)).
  split; [apply checkWin_spec|]. split; [|split].
  - intros Hw.
    destruct (firstNonZero_split _ _ Hw) as (before & l & after & Hl & Hf & Hb).
    exists before, l, after. split; [done|]. split.
    + by apply lineWinner_owns.
    + intros l' p Hin Hp Ho. apply lineWinner_owns in Ho; [|done].
      rewrite (Hb l' Hin) in Ho. congruence.
  - intros Hw l p Hin Hp Ho. apply lineWinner_owns in Ho; [|done].
    rewrite (firstNonZero_none _ _ Hw l Hin) in Ho. congruence.
  - intros b' Hsame. rewrite checkWin_spec. do 2 f_equal.
    apply map_ext_in. intros l Hin. by apply lineWinner_ext.
Qed.

(** C3, a board on which the claim fails: after these seven accepted
    actions of the networked program, the last of which moves the large
    piece of player 1 off a piece of player 2, row 1 shows three pieces
    of player 2, and yet [checkWin] answers 1, for row 0. *)
Lemma checkWin_overlooks_second_owner :
  exists w,
    Networked.performAll
      [Networked.Place 0 0 1; Networked.Place 1 0 1; Networked.Place 1 0 3;
       Networked.Place 1 1 1; Networked.Place 0 1 1; Networked.Place 1 2 1;
       Networked.Move 1 0 0 2]
      (Networked.initial "12345")
    = Some ([true; true; true; true; true; true; true], w)
    /\ In ((1, 0), (1, 1), (1, 2)) lines
    /\ ownsLine (Networked.board w) 2 ((1, 0), (1, 1), (1, 2))
    /\ checkWin (Networked.board w) = Some 1
    /\ checkWin (Networked.board w) <> Some 2.
Proof.
  eexists. split; [vm_compute; reflexivity|].
  split; [cbn; tauto|]. split; [by vm_compute|]. split; [by vm_compute|].
  vm_compute. discriminate.
Qed.

(** ** Publications of an accepted action *)

Lemma net_announce_outbox w w' :
  Networked.announce w = Some (true, w') ->
  exists win,
    checkWin (Networked.board w') = Some win
    /\ let before :=
         Networked.publicationOf w
           (mkGameState (Networked.board w') (Networked.playerTurn w) win) in
       let after :=
         Networked.publicationOf w
           (mkGameState (Networked.board w')
                        (wrap (3 - Networked.playerTurn w)) win) in
       Networked.outbox w'
       = Networked.outbox w
           ++ (if win =? 0 then [before; before; after] else [before; before]).
Proof.
  rewrite net_announce_spec. intros [= <-]. cbv zeta.
  exists (firstNonZero (map (lineWinner (Networked.board w)) lines)).
  destruct (_ =? 0); cbn; (split; [apply checkWin_spec | done]).
Qed.

(** C1, as amended.  An accepted placement or move that leaves no winner
    is followed by exactly three publications of the snapshot, all
    retained, on the topic of the session: two of the state right after
    the board has changed, with the turn still unchanged (one by
    [saveGameState], one by [publishMove]), and a third after the turn
    has gone to the other player, [next = 3 - current]. *)
Theorem accepted_action_publishes_three_snapshots w cmd w' :
  Networked.perform cmd w = Some (true, w') ->
  checkWin (Networked.board w') = Some 0 ->
  let before :=
    Networked.publicationOf w
      (mkGameState (Networked.board w') (Networked.playerTurn w) 0) in
  let after :=
    Networked.publicationOf w
      (mkGameState (Networked.board w') (Networked.playerTurn w') 0) in
  Networked.outbox w' = Networked.outbox w ++ [before; before; after]
  /\ Networked.playerTurn w' = wrap (3 - Networked.playerTurn w)
  /\ (isPlayer (Networked.playerTurn w) ->
      Networked.playerTurn w' = 3 - Networked.playerTurn w).
Proof.
  intros Hp Hwin. cbv zeta.
  destruct (net_perform_turn _ _ _ _ Hp) as (win & Hwin' & Hturn).
  rewrite Hwin in Hwin'. injection Hwin' as <-. cbn in Hturn.
  apply net_perform_cases in Hp as [[? _] | [_ Ha]]; [done|].
  apply net_announce_outbox in Ha as (win & Hwin' & Hout).
  rewrite Hwin in Hwin'. injection Hwin' as <-. cbn in Hout.
  rewrite Hout, Hturn. repeat split.
  intros Ht. by apply flip_player.
Qed.

(** The same action, when it does produce a winner, is followed by two
    publications only, and the turn stays where it was. *)
Lemma winning_action_publishes_two_snapshots w cmd w' p :
  Networked.perform cmd w = Some (true, w') ->
  checkWin (Networked.board w') = Some p -> p <> 0 ->
  let final :=
    Networked.publicationOf w
      (mkGameState (Networked.board w') (Networked.playerTurn w) p) in
  Networked.outbox w' = Networked.outbox w ++ [final; final]
  /\ Networked.playerTurn w' = Networked.playerTurn w.
Proof.
  intros Hp Hwin Hne. cbv zeta.
  destruct (net_perform_turn _ _ _ _ Hp) as (win & Hwin' & Hturn).
  rewrite Hwin in Hwin'. injection Hwin' as <-.
  apply Z.eqb_neq in Hne. rewrite Hne in Hturn. cbn in Hturn.
  apply net_perform_cases in Hp as [[? _] | [_ Ha]]; [done|].
  apply net_announce_outbox in Ha as (win & Hwin' & Hout).
  rewrite Hwin in Hwin'. injection Hwin' as <-. rewrite Hne in Hout.
  by rewrite Hout, Hturn.
Qed.

(** C1, an action for which the claim fails: the first placement of a
    game is accepted, leaves no winner, and is followed by three
    publications, not two. *)
Lemma first_placement_publishes_three_times :
  exists w',
    Networked.perform (Networked.Place 0 0 1) (Networked.initial "12345")
    = Some (true, w')
    /\ checkWin (Networked.board w') = Some 0
    /\ Networked.outbox (Networked.initial "12345") = []
    /\ length (Networked.outbox w') = 3%nat
    /\ map Networked.payload (Networked.outbox w')
       = [Json.Marshal (mkGameState (Networked.board w') 1 0);
          Json.Marshal (mkGameState (Networked.board w') 1 0);
          Json.Marshal (mkGameState (Networked.board w') 2 0)].
Proof.
  eexists. split; [vm_compute; reflexivity|]. by vm_compute.
Qed.

(** ** Placement *)

Lemma increment_is_Some (pc : gmap Z (gmap Z Z)) p size :
  is_Some (pc !! p) -> is_Some (Standalone.increment pc p size).
Proof. intros [inner H]. unfold Standalone.increment. rewrite H. eauto. Qed.

Lemma countOf_increment (pc pc' : gmap Z (gmap Z Z)) p size q size' :
  Standalone.increment pc p size = Some pc' ->
  Standalone.countOf pc' q size'
  = if decide (p = q /\ size = size')
    then wrap (Standalone.countOf pc p size + 1)
    else Standalone.countOf pc q size'.
Proof.
  unfold Standalone.increment, Standalone.countOf.
  destruct (pc !! p) as [inner|] eqn:Hp; [|done]. intros [= <-].
  destruct (decide (p = q)) as [<-|Hpq].
  - rewrite lookup_insert_eq, Hp.
    destruct (decide (size = size')) as [<-|Hs].
    + rewrite lookup_insert_eq. cbn. by case_decide; [|tauto].
    + rewrite lookup_insert_ne by done. by case_decide; [tauto|].
  - rewrite lookup_insert_ne by done. by case_decide; [tauto|].
Qed.

Lemma increment_keeps_keys (pc pc' : gmap Z (gmap Z Z)) p size k :
  Standalone.increment pc p size = Some pc' ->
  is_Some (pc !! k) -> is_Some (pc' !! k).
Proof.
  unfold Standalone.increment. destruct (pc !! p) as [inner|] eqn:Hp; [|done].
  intros [= <-] Hk. destruct (decide (p = k)) as [<-|Hne].
  - rewrite lookup_insert_eq. eauto.
  - by rewrite lookup_insert_ne.
Qed.

Lemma std_perform_keeps_keys cmd w ok w1 k :
  Standalone.perform cmd w = Some (ok, w1) ->
  is_Some (Standalone.pieceCount w !! k) ->
  is_Some (Standalone.pieceCount w1 !! k).
Proof.
  destruct ok; [|by intros ->%std_perform_rejected].
  destruct cmd as [row col size | fromRow fromCol toRow toCol |];
    cbn [Standalone.perform].
  - intros (_ & _ & Hinc & _)%std_place_accepted. by eapply increment_keeps_keys.
  - intros [_ ->]%std_move_accepted. done.
  - done.
Qed.

Lemma std_reachable_keys w :
  Standalone.reachable w ->
  is_Some (Standalone.pieceCount w !! 1) /\ is_Some (Standalone.pieceCount w !! 2).
Proof.
  induction 1 as [|w cmd w' Hr [IH1 IH2] Hstep].
  - split; vm_compute; eauto.
  - destruct (Standalone.perform cmd w) as [[ok w1]|] eqn:Hp.
    2:{ unfold Standalone.mainLoopBody in Hstep. run_monad. by rewrite Hp in Hstep. }
    destruct (std_mainLoopBody_spec _ _ _ _ Hp) as (win & _ & Hbody).
    rewrite Hbody in Hstep.
    pose proof (std_perform_keeps_keys _ _ _ _ 1 Hp IH1).
    pose proof (std_perform_keeps_keys _ _ _ _ 2 Hp IH2).
    destruct ok; [destruct (win =? 0)|]; by simplify_eq.
Qed.

Lemma std_reachable_key w :
  Standalone.reachable w ->
  is_Some (Standalone.pieceCount w !! Standalone.playerTurn w).
Proof.
  intros Hr. destruct (std_reachable_keys w Hr) as [H1 H2].
  by destruct (std_reachable_turn w Hr) as [-> | ->].
Qed.

Lemma std_place_outcome row col size w :
  is_Some (Standalone.pieceCount w !! Standalone.playerTurn w) ->
  Standalone.placePiece row col size w = Some (false, w)
  /\ (~ inb row \/ ~ inb col \/ budget w size <= 0
      \/ exists st, cell (Standalone.board w) row col = Some st
                    /\ blocks st size = true)
  \/ inb row /\ inb col /\ 0 < budget w size
     /\ exists st w',
         cell (Standalone.board w) row col = Some st /\ blocks st size = false
         /\ Standalone.placePiece row col size w = Some (true, w')
         /\ setCell (Standalone.board w) row col
              (append st (mkGobblet size (Standalone.playerTurn w)))
            = Some (Standalone.board w')
         /\ Standalone.playerTurn w' = Standalone.playerTurn w
         /\ Standalone.increment (Standalone.pieceCount w)
              (Standalone.playerTurn w) size
            = Some (Standalone.pieceCount w').
Proof.
  intros Hkey. unfold budget.
  destruct (std_place_cases row col size w)
    as [[H Hwhy] | (Hr & Hc & Hn & st & b' & Hcell & Hb & Hset & H)].
  - left. split; [done|]. destruct Hwhy as [?|[?|[?|?]]]; eauto; right; right; left; lia.
  - right. do 2 (split; [done|]). split; [lia|].
    destruct (increment_is_Some _ _ size Hkey) as [pc' Hpc]. rewrite Hpc in H.
    exists st, (Standalone.mkWorld b' (Standalone.playerTurn w) pc').
    repeat split; done.
Qed.

(** C2, as amended.  In the stand-alone program, for a player that the
    [pieceCount] map knows (as it does the player to move in every state
    the program reaches), [placePiece(row, col, size)] is refused if
    and only if a coordinate is off the 3x3 board, or the player to move
    has no piece of that size left out of three, or the visible piece of
    the cell is at least as large as [size]; otherwise the piece, owned
    by the player to move, goes on top of the stack of the cell and that
    player's count for the size goes up by one (the budget down by one).
    The networked program keeps no budget at all: there the placement is
    refused if and only if [size] is not 1, 2 or 3, or a coordinate is
    off the board, or the visible piece of the cell is at least as large;
    otherwise the piece goes on top of the stack of the cell. *)
Theorem placement_refused_iff :
  (forall w row col size,
      is_Some (Standalone.pieceCount w !! Standalone.playerTurn w) ->
      let refusal :=
        ~ inb row \/ ~ inb col \/ budget w size <= 0
        \/ exists st, cell (Standalone.board w) row col = Some st
                      /\ blocks st size = true in
      (Standalone.placePiece row col size w = Some (false, w) <-> refusal)
      /\ (~ refusal ->
          exists w',
            Standalone.placePiece row col size w = Some (true, w')
            /\ placedOnTop (Standalone.board w) (Standalone.board w') row col
                           (mkGobblet size (Standalone.playerTurn w))
            /\ Standalone.playerTurn w' = Standalone.playerTurn w
            /\ Standalone.countOf (Standalone.pieceCount w')
                 (Standalone.playerTurn w) size
               = wrap (Standalone.countOf (Standalone.pieceCount w)
                         (Standalone.playerTurn w) size + 1)
            /\ (is_int (Standalone.countOf (Standalone.pieceCount w)
                           (Standalone.playerTurn w) size) ->
                budget w' size = budget w size - 1)))
  /\ (forall w row col size,
      let refusal :=
        size < 1 \/ 3 < size \/ ~ inb row \/ ~ inb col
        \/ exists st, cell (Networked.board w) row col = Some st
                      /\ blocks st size = true in
      (Networked.placePiece row col size w = Some (false, w) <-> refusal)
      /\ (~ refusal ->
          exists w',
            Networked.placePiece row col size w = Some (true, w')
            /\ placedOnTop (Networked.board w) (Networked.board w') row col
                           (mkGobblet size (Networked.playerTurn w))))
  /\ (forall w,
      Standalone.reachable w ->
      is_Some (Standalone.pieceCount w !! Standalone.playerTurn w)).
Proof.
  split; [|split; [|apply std_reachable_key]].
  - intros w row col size Hkey refusal. subst refusal.
    destruct (std_place_outcome row col size w Hkey)
      as [[H Hwhy] | (Hr & Hc & Hn & st & w' & Hcell & Hb & H & Hset & Ht & Hinc)].
    + split; [tauto|]. intros Hno. tauto.
    + split.
      * rewrite H. split; [done|].
        intros [?|[?|[?|(st' & Hcell' & Hb')]]]; try tauto; try lia.
        rewrite Hcell in Hcell'. injection Hcell' as <-. congruence.
      * intros _. exists w'. split; [done|].
        split; [by eapply setCell_placedOnTop|].
        split; [done|].
        assert (Standalone.countOf (Standalone.pieceCount w')
                  (Standalone.playerTurn w) size
                = wrap (Standalone.countOf (Standalone.pieceCount w)
                          (Standalone.playerTurn w) size + 1)) as Hcount.
        { rewrite (countOf_increment _ _ _ _ _ _ Hinc). by case_decide; [|tauto]. }
        split; [done|].
        unfold budget in *. rewrite Ht, Hcount. intros Hint.
        rewrite wrap_id; [lia|]. unfold is_int, int_min, int_max in *. lia.
  - intros w row col size refusal. subst refusal.
    destruct (net_place_cases row col size w)
      as [[H Hwhy] | (Hs & Hr & Hc & st & b' & Hcell & Hb & Hset & H)].
    + split; [tauto|]. intros Hno. tauto.
    + assert (exists w', Networked.announce (Networked.setBoard b' w) = Some (true, w'))
        as [w' Hw'] by (rewrite net_announce_spec; eauto).
      rewrite Hw' in H. split.
      * rewrite H. split; [done|].
        intros [?|[?|[?|[?|(st' & Hcell' & Hb')]]]]; try tauto; try lia.
        rewrite Hcell in Hcell'. injection Hcell' as <-. congruence.
      * intros _. exists w'. split; [done|].
        destruct (net_announce_true _ _ _ Hw') as (_ & -> & _). cbn.
        by eapply setCell_placedOnTop.
Qed.

(** C2, a state in which the claim fails.  In the networked program,
    after six accepted placements player 1 has three pieces of size 1 on
    the board, and a fourth one is accepted all the same; and on the
    empty board a piece of size 4 is refused although the cell is on the
    board and empty and no piece has been placed yet. *)
Lemma networked_placement_ignores_budget :
  exists w w',
    Networked.performAll
      [Networked.Place 0 0 1; Networked.Place 1 0 1; Networked.Place 0 1 1;
       Networked.Place 1 1 1; Networked.Place 2 2 1; Networked.Place 2 0 1]
      (Networked.initial "12345")
    = Some ([true; true; true; true; true; true], w)
    /\ Networked.playerTurn w = 1
    /\ placedCount (Networked.board w) 1 1 = 3%nat
    /\ cell (Networked.board w) 1 2 = Some nil_slice
    /\ Networked.placePiece 1 2 1 w = Some (true, w')
    /\ placedCount (Networked.board w') 1 1 = 4%nat
    /\ cell (Networked.board (Networked.initial "12345")) 0 0 = Some nil_slice
    /\ placedCount (Networked.board (Networked.initial "12345")) 1 4 = 0%nat
    /\ Networked.placePiece 0 0 4 (Networked.initial "12345")
       = Some (false, Networked.initial "12345").
Proof.
  do 2 eexists.
  split; [vm_compute; reflexivity|].
  do 3 (split; [vm_compute; reflexivity|]).
  split; [vm_compute; reflexivity|].
  repeat split; vm_compute; reflexivity.
Qed.

(** C10.  The networked [placePiece] refuses every size other than 1, 2
    and 3 before it looks at the coordinates or the board.  The
    stand-alone [placePiece] has no such test: whatever the size, a
    placement on the board is accepted as soon as the player to move has
    placed fewer than three pieces of that size and the cell is empty or
    shows a smaller piece, and the piece put down has the size asked for.
    The initial [pieceCount] reads 0 for every other size, so that the
    first player can open with a piece of size 4, of size 0 or of size -1
    on any cell. *)
Theorem standalone_places_any_size_networked_refuses :
  (forall w row col size,
      size < 1 \/ 3 < size ->
      Networked.placePiece row col size w = Some (false, w))
  /\ (forall w row col size st,
      is_Some (Standalone.pieceCount w !! Standalone.playerTurn w) ->
      Standalone.countOf (Standalone.pieceCount w) (Standalone.playerTurn w) size < 3 ->
      cell (Standalone.board w) row col = Some st ->
      blocks st size = false ->
      exists w',
        Standalone.placePiece row col size w = Some (true, w')
        /\ placedOnTop (Standalone.board w) (Standalone.board w') row col
                       (mkGobblet size (Standalone.playerTurn w)))
  /\ (forall p size,
      size < 1 \/ 3 < size ->
      Standalone.countOf (Standalone.pieceCount Standalone.initial) p size = 0)
  /\ (forall row col size,
      inb row -> inb col -> size < 1 \/ 3 < size ->
      exists w',
        Standalone.placePiece row col size Standalone.initial = Some (true, w')
        /\ cell (Standalone.board w') row col = Some (slice [mkGobblet size 1])).
Proof.
  assert (forall w row col size st,
      is_Some (Standalone.pieceCount w !! Standalone.playerTurn w) ->
      Standalone.countOf (Standalone.pieceCount w) (Standalone.playerTurn w) size < 3 ->
      cell (Standalone.board w) row col = Some st ->
      blocks st size = false ->
      exists w',
        Standalone.placePiece row col size w = Some (true, w')
        /\ placedOnTop (Standalone.board w) (Standalone.board w') row col
                       (mkGobblet size (Standalone.playerTurn w)))
    as Hany.
  { intros w row col size st Hkey Hn Hcell Hb.
    destruct (proj1 (cell_is_Some _ _ _) (ex_intro _ st Hcell)) as [Hr Hc].
    destruct (std_place_outcome row col size w Hkey)
      as [[_ Hwhy] | (_ & _ & _ & st' & w' & Hcell' & _ & H & Hset & _)].
    - unfold budget in Hwhy.
      destruct Hwhy as [?|[?|[?|(st' & Hcell' & Hb')]]]; try tauto; try lia.
      rewrite Hcell in Hcell'. injection Hcell' as <-. congruence.
    - exists w'. split; [done|]. by eapply setCell_placedOnTop. }
  assert (forall p size, size < 1 \/ 3 < size ->
      Standalone.countOf (Standalone.pieceCount Standalone.initial) p size = 0)
    as Hzero.
  { intros p size Hs. unfold Standalone.countOf.
    cbn [Standalone.pieceCount Standalone.initial].
    destruct (decide (p = 1)) as [->|H1]; [|destruct (decide (p = 2)) as [->|H2]].
    - rewrite lookup_insert_eq. cbn.
      by rewrite !lookup_insert_ne, lookup_singleton_ne by lia.
    - rewrite lookup_insert_ne, lookup_singleton_eq by lia. cbn.
      by rewrite !lookup_insert_ne, lookup_singleton_ne by lia.
    - by rewrite lookup_insert_ne, lookup_singleton_ne by lia. }
  split; [|split; [exact Hany | split; [exact Hzero|]]].
  - intros w row col size Hs.
    destruct (net_place_cases row col size w) as [[H _] | (? & _)]; [done | lia].
  - intros row col size Hr Hc Hs.
    destruct (proj2 (cell_is_Some emptyBoard row col) (conj Hr Hc)) as [st Hcell].
    assert (st = nil_slice) as ->.
    { unfold cell, get3 in Hcell. by repeat case_match; simplify_eq. }
    destruct (Hany Standalone.initial row col size nil_slice) as (w' & Hw' & Hp);
      try done.
    + pose proof (Hzero 1 size Hs) as Hz.
      change (Standalone.countOf (Standalone.pieceCount Standalone.initial) 1 size < 3).
      lia.
    + exists w'. split; [done|].
      destruct Hp as (st & Hst & Hcell' & _).
      change (Standalone.board Standalone.initial) with emptyBoard in Hst.
      rewrite Hcell in Hst. injection Hst as <-. done.
Qed.

(** ** Strings *)

Lemma append_nil_l (s : string) : EmptyString +:+ s = s.
Proof. reflexivity. Qed.

Lemma append_cons (c : ascii) (s t : string) :
  String c s +:+ t = String c (s +:+ t).
Proof. reflexivity. Qed.

(** ** Decimal numerals *)

Lemma string_of_uint_digits d : allDigits (NilEmpty.string_of_uint d) = true.
Proof. induction d; cbn [NilEmpty.string_of_uint allDigits]; by rewrite ?IHd. Qed.

Lemma to_uint_normal p : Decimal.unorm (Pos.to_uint p) = Pos.to_uint p.
Proof.
  rewrite <- (DecimalPos.Unsigned.to_of (Pos.to_uint p)).
  by rewrite DecimalPos.Unsigned.of_to.
Qed.

Lemma normal_head u :
  Decimal.unorm u = u ->
  match u with
  | Decimal.Nil => False
  | Decimal.D0 u' => u' = Decimal.Nil
  | _ => True
  end.
Proof.
  destruct u as [|u'| | | | | | | | |]; try done.
  rewrite unorm_D0. intros H.
  assert (u' = Decimal.Nil \/ u' <> Decimal.Nil) as [->|Hne]
    by (destruct u'; (by left) || (by right)); [done|].
  pose proof (nb_digits_unorm u' Hne) as Hle.
  rewrite H in Hle. cbn [Decimal.nb_digits] in Hle. lia.
Qed.

Lemma dropDigits_all s : allDigits s = true -> Json.dropDigits s = EmptyString.
Proof.
  induction s as [|c r IH]; [done|]. cbn [allDigits Json.dropDigits].
  intros [-> ?]%andb_true_iff. auto.
Qed.

Lemma spanNumber_digits s rest :
  allDigits s = true ->
  match rest with
  | EmptyString => True
  | String c _ => Json.isNumberChar c = false
  end ->
  Json.spanNumber (s +:+ rest) = (s, rest).
Proof.
  intros Hs Hrest. induction s as [|c r IH]; rewrite ?append_nil_l, ?append_cons.
  - destruct rest as [|c r]; [done|]. cbn [Json.spanNumber]. cbv beta iota in Hrest.
    by rewrite Hrest.
  - cbn [allDigits] in Hs. apply andb_true_iff in Hs as [Hc Hr].
    cbn [Json.spanNumber]. unfold Json.isNumberChar. rewrite Hc. cbn [orb]. by rewrite IH.
Qed.

Lemma numeral_unsigned p :
  exists c r,
    NilZero.string_of_uint (Pos.to_uint p) = String c r
    /\ Json.isDigit c = true /\ Ascii.eqb c "0" = false /\ allDigits r = true.
Proof.
  pose proof (normal_head _ (to_uint_normal p)) as Hhead.
  pose proof (DecimalPos.Unsigned.to_uint_nonzero p) as Hnz.
  pose proof (string_of_uint_digits (Pos.to_uint p)) as Hd.
  destruct (Pos.to_uint p) as [|u|u|u|u|u|u|u|u|u|u]; try done;
    try (cbn [NilZero.string_of_uint NilEmpty.string_of_uint] in *;
         do 2 eexists; split; [reflexivity|];
         cbn [allDigits] in Hd; apply andb_true_iff in Hd as [_ Hd];
         by repeat split).
  subst u. by destruct Hnz.
Qed.

Lemma numeral_cases z :
  numeral z = "0"%string
  \/ (exists c r, numeral z = String c r
        /\ Json.isDigit c = true /\ Ascii.eqb c "0" = false /\ allDigits r = true)
  \/ (exists c r, numeral z = String "-" (String c r)
        /\ Json.isDigit c = true /\ Ascii.eqb c "0" = false /\ allDigits r = true).
Proof.
  unfold numeral. destruct z as [|p|p]; cbn [Z.to_int NilZero.string_of_int].
  - by left.
  - right; left. apply numeral_unsigned.
  - right; right. destruct (numeral_unsigned p) as (c & r & -> & ?). eauto.
Qed.

Lemma digit_not_minus c : Json.isDigit c = true -> Ascii.eqb c "-" = false.
Proof.
  intros H. destruct (Ascii.eqb_spec c "-") as [->|]; [|done]. by vm_compute in H.
Qed.

Lemma numeral_valid z : Json.validNumber (numeral z) = true.
Proof.
  destruct (numeral_cases z) as [-> | [(c & r & -> & Hc & H0 & Hr)
                                      | (c & r & -> & Hc & H0 & Hr)]]; [done|..].
  - cbn [Json.validNumber]. rewrite (digit_not_minus _ Hc).
    cbn [Json.integerPart]. by rewrite H0, Hc, (dropDigits_all _ Hr).
  - cbn [Json.validNumber]. change (Ascii.eqb "-" "-") with true. cbv iota.
    cbn [Json.integerPart]. by rewrite H0, Hc, (dropDigits_all _ Hr).
Qed.

Lemma numeral_span z rest :
  closing rest -> Json.spanNumber (numeral z +:+ rest) = (numeral z, rest).
Proof.
  intros Hrest.
  destruct (numeral_cases z) as [-> | [(c & r & -> & Hc & H0 & Hr)
                                      | (c & r & -> & Hc & H0 & Hr)]].
  - by apply spanNumber_digits.
  - apply spanNumber_digits; [|done]. cbn [allDigits]. by rewrite Hc.
  - rewrite append_cons. cbn [Json.spanNumber].
    change (Json.isNumberChar "-") with true. cbv iota.
    rewrite spanNumber_digits; [done | | done]. cbn [allDigits]. by rewrite Hc.
Qed.

Lemma numeral_head z :
  exists c r, numeral z = String c r
    /\ (Json.isDigit c || Ascii.eqb c "-") = true.
Proof.
  destruct (numeral_cases z) as [-> | [(c & r & -> & Hc & H0 & Hr)
                                      | (c & r & -> & Hc & H0 & Hr)]].
  - by do 2 eexists.
  - do 2 eexists. split; [done|]. by rewrite Hc.
  - by do 2 eexists.
Qed.

Lemma intOfLiteral_numeral z : is_int z -> Json.intOfLiteral (numeral z) = Some z.
Proof.
  intros Hz. unfold Json.intOfLiteral, numeral.
  rewrite NilZero.isi.
  - cbn. rewrite DecimalZ.of_to.
    unfold is_intb. unfold is_int in Hz.
    destruct Hz as [H1%Z.leb_le H2%Z.leb_le]. by rewrite H1, H2.
  - destruct z; cbn; try discriminate;
      intros [= H]; by apply DecimalPos.Unsigned.to_uint_nonnil in H.
  - destruct z; cbn; try discriminate;
      intros [= H]; by apply DecimalPos.Unsigned.to_uint_nonnil in H.
Qed.

Section JsonFacts.
Import Json.

Section value_induction.
Variable P : value -> Prop.
Hypothesis HNull : P Null.
Hypothesis HBool : forall b, P (Bool b).
Hypothesis HNumber : forall literal, P (Number literal).
Hypothesis HStr : forall s, P (Str s).
Hypothesis HArray : forall items, Forall P items -> P (Array items).
Hypothesis HObject :
  forall members, Forall (fun m => P m.2) members -> P (Object members).

Fixpoint value_induction (v : value) : P v :=
  match v with
  | Null => HNull
  | Bool b => HBool b
  | Number literal => HNumber literal
  | Str s => HStr s
  | Array items =>
      HArray items
        ((fix go (l : list value) : Forall P l :=
            match l with
            | [] => List.Forall_nil P
            | x :: l' => List.Forall_cons P x l' (value_induction x) (go l')
            end) items)
  | Object members =>
      HObject members
        ((fix go (l : list (string * value)) : Forall (fun m => P m.2) l :=
            match l with
            | [] => List.Forall_nil _
            | m :: l' =>
                List.Forall_cons (fun m => P m.2) m l' (value_induction m.2) (go l')
            end) members)
  end.
End value_induction.

(** ** Reading back what was written *)

Lemma append_assoc (a b c : string) : (a +:+ b) +:+ c = a +:+ (b +:+ c).
Proof. induction a as [|x a IH]; [done|]. by rewrite !append_cons, IH. Qed.

Ltac norm_app :=
  repeat (rewrite append_assoc || rewrite append_cons || rewrite append_nil_l).

Lemma parseValue_quote fuel r :
  parseValue (S fuel) (String "034" r)
  = '(str, r') ← parseChars r; Some (Str str, r').
Proof. reflexivity. Qed.

Lemma parseValue_bracket fuel r :
  parseValue (S fuel) (String "[" r)
  = match skipSpace r with
    | EmptyString => None
    | String d r' =>
        if Ascii.eqb d "]" then Some (Array [], r')
        else '(items, r'') ← parseItems fuel r; Some (Array items, r'')
    end.
Proof. reflexivity. Qed.

Lemma parseValue_brace fuel r :
  parseValue (S fuel) (String "{" r)
  = match skipSpace r with
    | EmptyString => None
    | String d r' =>
        if Ascii.eqb d "}" then Some (Object [], r')
        else '(members, r'') ← parseMembers fuel r; Some (Object members, r'')
    end.
Proof. reflexivity. Qed.

Lemma skipSpace_head c r : isSpace c = false -> skipSpace (String c r) = String c r.
Proof. intros H. cbn [skipSpace]. by rewrite H. Qed.

Lemma parseChars_plain s rest :
  plainString s = true -> parseChars (s +:+ String "034" rest) = Some (s, rest).
Proof.
  induction s as [|c r IH]; [done|].
  cbn [plainString]. unfold plainChar.
  intros [[[Hq%negb_true_iff Hb%negb_true_iff]%andb_true_iff Hc%negb_true_iff]%andb_true_iff Hr]%andb_true_iff.
  rewrite append_cons. cbn [parseChars]. by rewrite Hq, Hb, Hc, IH.
Qed.

Lemma number_start c :
  (isDigit c || Ascii.eqb c "-") = true ->
  isSpace c = false /\ Ascii.eqb c "n" = false /\ Ascii.eqb c "t" = false
  /\ Ascii.eqb c "f" = false /\ Ascii.eqb c "034" = false
  /\ Ascii.eqb c "[" = false /\ Ascii.eqb c "{" = false
  /\ Ascii.eqb c "]" = false /\ Ascii.eqb c "}" = false.
Proof.
  intros H. unfold isSpace.
  repeat split;
    repeat match goal with
      | |- context [Ascii.eqb c ?d] =>
          destruct (Ascii.eqb_spec c d) as [->|_]; [by vm_compute in H|]
      end; done.
Qed.

Lemma render_head v :
  plain v ->
  exists c tl, render v = String c tl
    /\ isSpace c = false /\ Ascii.eqb c "]" = false /\ Ascii.eqb c "}" = false.
Proof.
  destruct 1 as [|b|z|s Hs|items Hi|members Hm]; cbn [render].
  - by do 2 eexists.
  - destruct b; by do 2 eexists.
  - destruct (numeral_head z) as (c & r & -> & Hc).
    destruct (number_start c Hc) as (? & _ & _ & _ & _ & _ & _ & ? & ?).
    by exists c, r.
  - by do 2 eexists.
  - norm_app. by do 2 eexists.
  - norm_app. by do 2 eexists.
Qed.

Lemma parseValue_atom fuel v rest :
  match v with Null | Bool _ | Number _ | Str _ => True | _ => False end ->
  plain v -> closing rest ->
  parseValue (S fuel) (render v +:+ rest) = Some (v, rest).
Proof.
  intros Hatom Hv Hrest.
  destruct Hv as [|b|z|s Hs|items Hi|members Hm]; [| | | |done|done].
  - reflexivity.
  - by destruct b.
  - cbn [render].
    destruct (numeral_head z) as (c & r & Hnum & Hc).
    destruct (number_start c Hc) as (Hsp & Hn & Ht & Hf & Hq & Hl & Hb & _).
    rewrite Hnum, append_cons. cbn [parseValue]. rewrite (skipSpace_head _ _ Hsp).
    rewrite Hn, Ht, Hf, Hq, Hl, Hb, Hc.
    rewrite <- append_cons, <- Hnum, (numeral_span _ _ Hrest), numeral_valid. done.
  - cbn [render]. unfold quote. norm_app.
    by rewrite parseValue_quote, (parseChars_plain s rest Hs).
Qed.

Lemma parseItems_S fuel s :
  parseItems (S fuel) s
  = '(v, r) ← parseValue fuel s;
    match skipSpace r with
    | EmptyString => None
    | String c r' =>
        if Ascii.eqb c "," then
          '(vs, r'') ← parseItems fuel r'; Some (v :: vs, r'')
        else if Ascii.eqb c "]" then Some ([v], r')
        else None
    end.
Proof. reflexivity. Qed.

Lemma parseMembers_quote fuel r :
  parseMembers (S fuel) (String "034" r)
  = '(key, r1) ← parseChars r;
    match skipSpace r1 with
    | EmptyString => None
    | String colon r2 =>
        if Ascii.eqb colon ":" then
          '(v, r3) ← parseValue fuel r2;
          match skipSpace r3 with
          | EmptyString => None
          | String c r4 =>
              if Ascii.eqb c "," then
                '(ms, r5) ← parseMembers fuel r4; Some ((key, v) :: ms, r5)
              else if Ascii.eqb c "}" then Some ([(key, v)], r4)
              else None
          end
        else None
    end.
Proof. reflexivity. Qed.

Lemma parseItems_render items :
  items <> [] ->
  Forall readsBack items ->
  forall fuel rest,
    (costItems items <= fuel)%nat ->
    parseItems fuel (comma_sep (map render items) +:+ String "]" rest)
    = Some (items, rest).
Proof.
  induction items as [|v vs IH]; [done|].
  intros _ HF fuel rest Hfuel.
  apply Forall_cons in HF as [Hv Hvs].
  cbn [costItems] in Hfuel. destruct fuel as [|fuel]; [lia|].
  rewrite parseItems_S. cbn [map comma_sep].
  destruct vs as [|v' vs'].
  - cbn [map]. rewrite (Hv fuel (String "]" rest)) by (done || lia). reflexivity.
  - change (map render (v' :: vs')) with (render v' :: map render vs') at 1.
    cbv iota. change (render v' :: map render vs') with (map render (v' :: vs')).
    norm_app.
    rewrite (Hv fuel (String "," _)) by (done || lia).
    cbn [mbind option_bind]. rewrite skipSpace_head by done.
    change (Ascii.eqb "," ",") with true. cbv iota.
    rewrite IH; [done | done | done | lia].
Qed.

Lemma parseMembers_render members :
  members <> [] ->
  Forall (fun m => plainString m.1 = true /\ readsBack m.2) members ->
  forall fuel rest,
    (costMembers members <= fuel)%nat ->
    parseMembers fuel
      (comma_sep (map (fun m => quote m.1 +:+ ":" +:+ render m.2) members)
         +:+ String "}" rest)
    = Some (members, rest).
Proof.
  induction members as [|[k v] ms IH]; [done|].
  intros _ HF fuel rest Hfuel.
  apply Forall_cons in HF as [[Hk Hv] Hms]. cbn [fst snd] in Hk, Hv.
  cbn [costMembers snd] in Hfuel. destruct fuel as [|fuel]; [lia|].
  cbn [map comma_sep fst snd].
  destruct ms as [|m' ms'].
  - cbn [map]. unfold quote. norm_app. rewrite parseMembers_quote.
    rewrite (parseChars_plain k _ Hk). cbn [mbind option_bind].
    rewrite skipSpace_head by done. change (Ascii.eqb ":" ":") with true. cbv iota.
    rewrite (Hv fuel (String "}" rest)) by (done || lia). reflexivity.
  - set (f := fun m : string * value => quote m.1 +:+ ":" +:+ render m.2).
    change (map f (m' :: ms')) with (f m' :: map f ms') at 1.
    cbv iota. change (f m' :: map f ms') with (map f (m' :: ms')).
    unfold quote. norm_app. rewrite parseMembers_quote.
    rewrite (parseChars_plain k _ Hk). cbn [mbind option_bind].
    rewrite skipSpace_head by done. change (Ascii.eqb ":" ":") with true. cbv iota.
    rewrite (Hv fuel (String "," _)) by (done || lia).
    cbn [mbind option_bind]. rewrite skipSpace_head by done.
    change (Ascii.eqb "," ",") with true. cbv iota.
    subst f. rewrite IH; [done | done | done | lia].
Qed.

Lemma plain_array_inv items : plain (Array items) -> Forall plain items.
Proof. by inversion 1. Qed.

Lemma plain_object_inv members :
  plain (Object members) ->
  Forall (fun m => plainString m.1 = true /\ plain m.2) members.
Proof. by inversion 1. Qed.

Lemma parseValue_render v : plain v -> readsBack v.
Proof.
  induction v as [|b|literal|s|items IH|members IH] using value_induction;
    intros Hv fuel rest Hfuel Hrest.
  1-4: destruct fuel as [|fuel]; [cbn in Hfuel; lia|]; by apply parseValue_atom.
  - apply plain_array_inv in Hv.
    change (cost (Array items)) with (S (costItems items)) in Hfuel.
    destruct fuel as [|fuel]; [lia|].
    cbn [render]. norm_app. rewrite parseValue_bracket.
    destruct items as [|v vs].
    + reflexivity.
    + assert (Forall readsBack (v :: vs)) as Hall.
      { apply Forall_forall. intros x Hx.
        rewrite Forall_forall in IH, Hv. by apply IH, Hv. }
      rewrite parseItems_render by (done || lia).
      apply Forall_cons in Hv as [Hv _].
      destruct (render_head v Hv) as (c & tl & Hhead & Hsp & Hrb & _).
      assert (exists tl', comma_sep (map render (v :: vs)) +:+ String "]" rest
                          = String c tl') as [tl' ->].
      { cbn [map comma_sep]. destruct (map render vs); rewrite Hhead; norm_app; eauto. }
      rewrite skipSpace_head by done. by rewrite Hrb.
  - apply plain_object_inv in Hv.
    change (cost (Object members)) with (S (costMembers members)) in Hfuel.
    destruct fuel as [|fuel]; [lia|].
    cbn [render]. norm_app. rewrite parseValue_brace.
    destruct members as [|m ms].
    + reflexivity.
    + assert (Forall (fun m => plainString m.1 = true /\ readsBack m.2) (m :: ms))
        as Hall.
      { apply Forall_forall. intros x Hx.
        rewrite Forall_forall in IH, Hv. destruct (Hv x Hx). split; [done|].
        by apply IH. }
      rewrite parseMembers_render by (done || lia).
      assert (exists tl',
                comma_sep (map (fun m => quote m.1 +:+ ":" +:+ render m.2) (m :: ms))
                  +:+ String "}" rest
                = String "034" tl') as [tl' ->].
      { cbn [map comma_sep]. destruct (map _ ms); unfold quote; norm_app; eauto. }
      reflexivity.
Qed.

(** ** Fuel *)

Lemma length_append (a b : string) :
  String.length (a +:+ b) = (String.length a + String.length b)%nat.
Proof. induction a as [|x a IH]; [done|]. rewrite append_cons. cbn. by rewrite IH. Qed.

Lemma append_nil_r (a : string) : a +:+ EmptyString = a.
Proof. induction a as [|x a IH]; [done|]. by rewrite append_cons, IH. Qed.

Lemma costItems_bound items :
  Forall (fun v => (cost v <= 2 * String.length (render v) + 1)%nat) items ->
  (costItems items <= 2 * String.length (comma_sep (map render items)) + 2)%nat.
Proof.
  induction 1 as [|v vs Hv Hvs IH]; [cbn; lia|].
  cbn [costItems map comma_sep]. destruct vs as [|v' vs'].
  - cbn [map costItems]. lia.
  - change (map render (v' :: vs')) with (render v' :: map render vs') at 1.
    cbv iota. change (render v' :: map render vs') with (map render (v' :: vs')).
    rewrite !length_append. cbn [String.length]. cbn [costItems] in IH |- *. lia.
Qed.

Lemma costMembers_bound members :
  Forall (fun m => (cost m.2 <= 2 * String.length (render m.2) + 1)%nat) members ->
  (costMembers members
   <= 2 * String.length
          (comma_sep (map (fun m => quote m.1 +:+ ":" +:+ render m.2) members)) + 2)%nat.
Proof.
  induction 1 as [|m ms Hm Hms IH]; [cbn; lia|].
  set (f := fun m : string * value => quote m.1 +:+ ":" +:+ render m.2) in *.
  cbn [costMembers map comma_sep]. destruct ms as [|m' ms'].
  - cbn [map costMembers]. unfold f. rewrite !length_append. lia.
  - change (map f (m' :: ms')) with (f m' :: map f ms') at 1.
    cbv iota. change (f m' :: map f ms') with (map f (m' :: ms')).
    rewrite !length_append. cbn [String.length]. cbn [costMembers] in IH |- *.
    unfold f at 1. rewrite !length_append. lia.
Qed.

Lemma cost_bound v : (cost v <= 2 * String.length (render v) + 1)%nat.
Proof.
  induction v as [|b|literal|s|items IH|members IH] using value_induction.
  1-4: cbn [cost]; lia.
  - change (cost (Array items)) with (S (costItems items)).
    pose proof (costItems_bound items IH).
    cbn [render]. rewrite !length_append. cbn [String.length]. lia.
  - change (cost (Object members)) with (S (costMembers members)).
    pose proof (costMembers_bound members IH).
    cbn [render]. rewrite !length_append. cbn [String.length]. lia.
Qed.

Lemma parse_render v : plain v -> parse (render v) = Some v.
Proof.
  intros Hv. unfold parse.
  pose proof (parseValue_render v Hv (2 * String.length (render v) + 2)%nat
                EmptyString) as H.
  rewrite append_nil_r in H. rewrite H; [done | | done].
  pose proof (cost_bound v). lia.
Qed.

End JsonFacts.

(** ** What [Marshal] writes is plain *)

Lemma plain_encodeInt z : plain (Json.encodeInt z).
Proof. apply plain_number. Qed.

Lemma plain_encodeGobblet g : plain (Json.encodeGobblet g).
Proof.
  apply plain_object.
  apply List.Forall_cons; [split; [done | apply plain_encodeInt]|].
  apply List.Forall_cons; [split; [done | apply plain_encodeInt]|].
  apply List.Forall_nil.
Qed.

Lemma plain_encodeStack s : plain (Json.encodeStack s).
Proof.
  destruct s as [|l]; [constructor|]. apply plain_array.
  apply List.Forall_forall. intros v (g & <- & _)%in_map_iff. apply plain_encodeGobblet.
Qed.

Lemma plain_encodeArr3 {A} (enc : A -> Json.value) a :
  (forall x, plain (enc x)) -> plain (Json.encodeArr3 enc a).
Proof.
  intros H. apply plain_array.
  repeat (apply List.Forall_cons; [apply H|]). apply List.Forall_nil.
Qed.

Lemma plain_encodeGameState st : plain (Json.encodeGameState st).
Proof.
  apply plain_object.
  apply List.Forall_cons;
    [split; [done | apply plain_encodeArr3; intros r;
                    apply plain_encodeArr3, plain_encodeStack]|].
  apply List.Forall_cons; [split; [done | apply plain_encodeInt]|].
  apply List.Forall_cons; [split; [done | apply plain_encodeInt]|].
  apply List.Forall_nil.
Qed.

(** ** Storing what was written gives the value back *)

Lemma decodeInt_encodeInt z cur :
  is_int z -> Json.decodeInt (Json.encodeInt z) cur = Some z.
Proof. intros Hz. by apply intOfLiteral_numeral. Qed.

Lemma decodeGobbletField_Size g z :
  is_int z ->
  Json.decodeGobbletField g ("Size"%string, Json.encodeInt z)
  = Some (mkGobblet z (Owner g)).
Proof.
  intros Hz. unfold Json.decodeGobbletField. cbn [fst snd].
  change (Json.names "Size" "Size") with true. cbv iota.
  by rewrite (decodeInt_encodeInt _ _ Hz).
Qed.

Lemma decodeGobbletField_Owner g z :
  is_int z ->
  Json.decodeGobbletField g ("Owner"%string, Json.encodeInt z)
  = Some (mkGobblet (Size g) z).
Proof.
  intros Hz. unfold Json.decodeGobbletField. cbn [fst snd].
  change (Json.names "Owner" "Size") with false.
  change (Json.names "Owner" "Owner") with true. cbv iota.
  by rewrite (decodeInt_encodeInt _ _ Hz).
Qed.

Lemma decodeGobblet_encodeGobblet g cur :
  wfGobblet g -> Json.decodeGobblet (Json.encodeGobblet g) cur = Some g.
Proof.
  intros [Hs Ho]. destruct g as [size owner]. cbn in Hs, Ho.
  unfold Json.encodeGobblet, Json.decodeGobblet. cbn [Json.foldOpt Size Owner].
  rewrite (decodeGobbletField_Size _ _ Hs). cbn [mbind option_bind].
  by rewrite (decodeGobbletField_Owner _ _ Ho).
Qed.

Lemma decodeAll_encode l :
  Forall wfGobblet l ->
  Json.decodeAll (fun x => Json.decodeGobblet x zeroGobblet)
                 (map Json.encodeGobblet l) = Some l.
Proof.
  induction 1 as [|g l Hg Hl IH]; [done|].
  cbn [map Json.decodeAll]. by rewrite (decodeGobblet_encodeGobblet _ _ Hg), IH.
Qed.

Lemma decodeStack_encodeStack s cur :
  Forall wfGobblet (elems s) ->
  Json.decodeStack (Json.encodeStack s) cur = Some s.
Proof.
  destruct s as [|l]; [done|]. cbn [elems]. intros Hl.
  cbn [Json.encodeStack Json.decodeStack]. by rewrite (decodeAll_encode _ Hl).
Qed.

Lemma decodeArr3_encodeArr3 {A} (enc : A -> Json.value)
    (dec : Json.value -> A -> option A) zero a cur :
  (forall old, dec (enc (at0 a)) old = Some (at0 a)) ->
  (forall old, dec (enc (at1 a)) old = Some (at1 a)) ->
  (forall old, dec (enc (at2 a)) old = Some (at2 a)) ->
  Json.decodeArr3 dec zero (Json.encodeArr3 enc a) cur = Some a.
Proof.
  intros H0 H1 H2. unfold Json.decodeArr3, Json.encodeArr3.
  cbn [lookup list_lookup]. rewrite H0, H1, H2. by destruct a.
Qed.

Lemma wf_cell b row col st :
  boardAll wfGobblet b -> cell b row col = Some st -> Forall wfGobblet (elems st).
Proof. intros Hb Hcell. apply List.Forall_forall. intros g Hin. by apply (Hb row col st). Qed.

Lemma decodeBoard_encode b cur :
  boardAll wfGobblet b ->
  Json.decodeBoard (Json.encodeArr3 (Json.encodeArr3 Json.encodeStack) b) cur
  = Some b.
Proof.
  intros Hb. unfold Json.decodeBoard.
  apply decodeArr3_encodeArr3; intros old;
    apply decodeArr3_encodeArr3; intros old';
    apply decodeStack_encodeStack.
  - by apply (wf_cell b 0 0).
  - by apply (wf_cell b 0 1).
  - by apply (wf_cell b 0 2).
  - by apply (wf_cell b 1 0).
  - by apply (wf_cell b 1 1).
  - by apply (wf_cell b 1 2).
  - by apply (wf_cell b 2 0).
  - by apply (wf_cell b 2 1).
  - by apply (wf_cell b 2 2).
Qed.

Lemma decodeGameStateField_Board st b :
  boardAll wfGobblet b ->
  Json.decodeGameStateField st
    ("Board"%string, Json.encodeArr3 (Json.encodeArr3 Json.encodeStack) b)
  = Some (mkGameState b (PlayerTurn st) (Winner st)).
Proof.
  intros Hb. unfold Json.decodeGameStateField. cbn [fst snd].
  change (Json.names "Board" "Board") with true. cbv iota.
  by rewrite (decodeBoard_encode _ _ Hb).
Qed.

Lemma decodeGameStateField_PlayerTurn st z :
  is_int z ->
  Json.decodeGameStateField st ("PlayerTurn"%string, Json.encodeInt z)
  = Some (mkGameState (Board_ st) z (Winner st)).
Proof.
  intros Hz. unfold Json.decodeGameStateField. cbn [fst snd].
  change (Json.names "PlayerTurn" "Board") with false.
  change (Json.names "PlayerTurn" "PlayerTurn") with true. cbv iota.
  by rewrite (decodeInt_encodeInt _ _ Hz).
Qed.

Lemma decodeGameStateField_Winner st z :
  is_int z ->
  Json.decodeGameStateField st ("Winner"%string, Json.encodeInt z)
  = Some (mkGameState (Board_ st) (PlayerTurn st) z).
Proof.
  intros Hz. unfold Json.decodeGameStateField. cbn [fst snd].
  change (Json.names "Winner" "Board") with false.
  change (Json.names "Winner" "PlayerTurn") with false.
  change (Json.names "Winner" "Winner") with true. cbv iota.
  by rewrite (decodeInt_encodeInt _ _ Hz).
Qed.

Lemma decodeGameState_encode st cur :
  wfGameState st ->
  Json.decodeGameState (Json.encodeGameState st) cur = Some st.
Proof.
  intros (Hb & Ht & Hw). destruct st as [b turn win]. cbn in Hb, Ht, Hw.
  unfold Json.encodeGameState, Json.decodeGameState.
  cbn [Json.foldOpt Board_ PlayerTurn Winner].
  rewrite (decodeGameStateField_Board _ _ Hb). cbn [mbind option_bind].
  rewrite (decodeGameStateField_PlayerTurn _ _ Ht). cbn [mbind option_bind].
  by rewrite (decodeGameStateField_Winner _ _ Hw).
Qed.

Lemma Unmarshal_Marshal st cur :
  wfGameState st -> Json.Unmarshal (Json.Marshal st) cur = Some st.
Proof.
  intros Hst. unfold Json.Unmarshal, Json.Marshal.
  rewrite (parse_render _ (plain_encodeGameState st)). cbn [mbind option_bind].
  by apply decodeGameState_encode.
Qed.

(** ** The snapshots the networked program publishes *)

Lemma topOwner_player b xy x :
  ownersValid b -> topOwner b xy = Some x -> isPlayer x.
Proof.
  intros Hb. unfold topOwner, topAt, topPiece.
  destruct (cell b xy.1 xy.2) as [st|] eqn:Hcell; [|done]. cbn.
  destruct (last (elems st)) as [g|] eqn:Hlast; [|done]. cbn. intros [= <-].
  apply (Hb xy.1 xy.2 st g Hcell).
  apply list_elem_of_In. by apply last_Some_elem_of.
Qed.

Lemma lineWinner_range b l :
  ownersValid b -> 0 <= lineWinner b l <= 2.
Proof.
  intros Hb. unfold lineWinner.
  destruct (topOwner b l.1.1) as [x|] eqn:Hx; [|lia].
  destruct (topOwner_player _ _ _ Hb Hx) as [-> | ->];
    repeat case_match; lia.
Qed.

Lemma firstNonZero_range (l : list Z) :
  Forall (fun x => 0 <= x <= 2) l -> 0 <= firstNonZero l <= 2.
Proof.
  induction 1 as [|x l Hx Hl IH]; cbn [firstNonZero]; [lia|].
  by destruct (x =? 0).
Qed.

Lemma checkWin_range b win :
  ownersValid b -> checkWin b = Some win -> 0 <= win <= 2.
Proof.
  intros Hb. rewrite checkWin_spec. intros H.
  replace win with (firstNonZero (map (lineWinner b) lines)) by congruence.
  apply firstNonZero_range, List.Forall_forall.
  intros x (l & <- & _)%in_map_iff. by apply lineWinner_range.
Qed.

Lemma small_is_int z : 0 <= z <= 3 -> is_int z.
Proof. unfold is_int, int_min, int_max. lia. Qed.

Lemma regular_wf g : regular g -> wfGobblet g.
Proof.
  intros [Hs [Ho | Ho]]; split; apply small_is_int; lia.
Qed.

Lemma snapshot_wf b turn win :
  boardAll regular b -> isPlayer turn -> checkWin b = Some win ->
  wfGameState (mkGameState b turn win).
Proof.
  intros Hb Ht Hwin. split; [|split]; cbn.
  - eapply boardAll_impl; [apply regular_wf | done].
  - apply small_is_int. destruct Ht; lia.
  - apply small_is_int.
    assert (ownersValid b) as Ho
      by (eapply boardAll_impl; [|done]; by intros g [_ ?]).
    pose proof (checkWin_range _ _ Ho Hwin). lia.
Qed.

Lemma net_reachable_outbox id w :
  Networked.reachable id w -> Forall publishesSnapshot (Networked.outbox w).
Proof.
  intros Hreach. induction Hreach as [|w cmd ok w' Hr IH Hstep]; [constructor|].
  pose proof (Networked.reach_perform _ _ _ _ _ Hr Hstep) as Hr'.
  pose proof (net_reachable_regular _ _ Hr') as Hb'.
  pose proof (net_reachable_turn _ _ Hr) as Ht.
  apply net_perform_cases in Hstep as [[_ ->] | [_ Ha]]; [done|].
  apply net_announce_outbox in Ha as (win & Hwin & Hout).
  cbv zeta in Hout. cbn [Networked.playerTurn Networked.setBoard Networked.outbox] in Hout.
  rewrite Hout. apply Forall_app. split; [done|].
  assert (forall turn, isPlayer turn ->
            publishesSnapshot
              (Networked.publicationOf (Networked.setBoard (Networked.board w') w)
                 (mkGameState (Networked.board w') turn win))) as Hpub.
  { intros turn Hturn. eexists. split; [|reflexivity]. by apply snapshot_wf. }
  destruct (win =? 0); repeat (apply List.Forall_cons || apply List.Forall_nil);
    apply Hpub; try done; by apply flip_player_wrap.
Qed.

Lemma onMessageReceived_Marshal st w :
  wfGameState st ->
  Networked.onMessageReceived (Json.Marshal st) w
  = Some (tt, Networked.mkWorld (Board_ st) (PlayerTurn st) (Networked.gameID w)
                (Networked.outbox w)
                (if Winner st =? 0 then Networked.exited w else true)).
Proof.
  intros Hst. unfold Networked.onMessageReceived.
  rewrite (Unmarshal_Marshal _ _ Hst). run_monad.
  by destruct (Winner st =? 0).
Qed.

(** C7.  Decoding the JSON text of a snapshot gives the snapshot back:
    [Unmarshal (Marshal st)] into a fresh [GameState] is [st], for every
    snapshot whose integers are Go [int]s.  In particular this holds for
    the snapshot of every state the networked program reaches by local
    actions, on the empty board as on a full one; and every payload it
    has published decodes to the snapshot it was made from, so that the
    process that receives it takes over the board and the turn of that
    snapshot. *)
Theorem snapshot_round_trip :
  (forall st,
      wfGameState st ->
      Json.Unmarshal (Json.Marshal st) zeroGameState = Some st)
  /\ (forall id w win,
      Networked.reachable id w ->
      checkWin (Networked.board w) = Some win ->
      let st := mkGameState (Networked.board w) (Networked.playerTurn w) win in
      Json.Unmarshal (Json.Marshal st) zeroGameState = Some st)
  /\ (forall id w p receiver,
      Networked.reachable id w ->
      In p (Networked.outbox w) ->
      exists st receiver',
        Networked.payload p = Json.Marshal st
        /\ Json.Unmarshal (Networked.payload p) zeroGameState = Some st
        /\ Networked.onMessageReceived (Networked.payload p) receiver
           = Some (tt, receiver')
        /\ Networked.board receiver' = Board_ st
        /\ Networked.playerTurn receiver' = PlayerTurn st).
Proof.
  split; [|split].
  - intros st Hst. by apply Unmarshal_Marshal.
  - intros id w win Hr Hwin st. apply Unmarshal_Marshal.
    apply snapshot_wf; [by eapply net_reachable_regular
                       | by eapply net_reachable_turn | done].
  - intros id w p receiver Hr Hin.
    pose proof (net_reachable_outbox _ _ Hr) as Hall.
    rewrite List.Forall_forall in Hall.
    destruct (Hall p Hin) as (st & Hst & Hp).
    exists st. eexists. split; [done|]. rewrite Hp.
    split; [by apply Unmarshal_Marshal|].
    split; [by apply onMessageReceived_Marshal|]. done.
Qed.

(** ** The scenarios of the specification *)

(** Scenario A: a small piece does not go on a medium one. *)
Example scenario_A :
  Networked.board (netAfter [Networked.Place 0 0 2])
  = mkArr3 (mkArr3 (slice [mkGobblet 2 1]) nil_slice nil_slice)
           (fill3 nil_slice) (fill3 nil_slice)
  /\ Networked.placePiece 0 0 1 (netAfter [Networked.Place 0 0 2])
     = Some (false, netAfter [Networked.Place 0 0 2]).
Proof. split; vm_compute; reflexivity. Qed.

(** Scenario B: a large piece of player 1 goes on the medium piece of
    player 2, and the cell then counts for player 1. *)
Example scenario_B :
  let w := netAfter [Networked.Place 0 0 1; Networked.Place 1 1 2;
                     Networked.Place 1 1 3] in
  cell (Networked.board w) 1 1 = Some (slice [mkGobblet 2 2; mkGobblet 3 1])
  /\ topOwner (Networked.board w) (1, 1) = Some 1.
Proof. split; vm_compute; reflexivity. Qed.

(** Scenario C: three pieces of player 1 of three sizes in row 0. *)
Example scenario_C :
  checkWin (mkArr3 (mkArr3 (slice [mkGobblet 1 1]) (slice [mkGobblet 2 1])
                            (slice [mkGobblet 3 1]))
                   (mkArr3 (slice [mkGobblet 1 2]) (slice [mkGobblet 2 2]) nil_slice)
                   (fill3 nil_slice))
  = Some 1.
Proof. vm_compute. reflexivity. Qed.

(** ** The theorems at work on concrete positions *)

(** A script of actions stays within the reachable states. *)
Lemma performAll_reachable id cmds w oks w' :
  Networked.reachable id w ->
  Networked.performAll cmds w = Some (oks, w') ->
  Networked.reachable id w'.
Proof.
  revert w oks. induction cmds as [|cmd cmds IH]; intros w oks Hr.
  - by intros [= <- <-].
  - cbn [Networked.performAll]. run_monad.
    destruct (Networked.perform cmd w) as [[ok w1]|] eqn:Hp; [|done].
    destruct (Networked.performAll cmds w1) as [[oks' w2]|] eqn:Hall; [|done].
    intros [= <- <-]. apply (IH w1 oks'); [|done].
    by apply (Networked.reach_perform _ _ _ _ _ Hr Hp).
Qed.

Lemma netAfter_reachable cmds : Networked.reachable "12345" (netAfter cmds).
Proof.
  unfold netAfter.
  destruct (Networked.performAll cmds (Networked.initial "12345"))
    as [[oks w]|] eqn:H; [|constructor].
  apply (performAll_reachable _ _ _ _ _ (Networked.reach_initial "12345") H).
Qed.

(** C1 at work: the first placement of a game. *)
Lemma accepted_action_publishes_three_snapshots_witness :
  let w := Networked.initial "12345" in
  let w' := netAfter [Networked.Place 0 0 1] in
  Networked.perform (Networked.Place 0 0 1) w = Some (true, w')
  /\ checkWin (Networked.board w') = Some 0
  /\ Networked.outbox w'
     = [Networked.publicationOf w (mkGameState (Networked.board w') 1 0);
        Networked.publicationOf w (mkGameState (Networked.board w') 1 0);
        Networked.publicationOf w (mkGameState (Networked.board w') 2 0)]
  /\ Networked.playerTurn w' = 2.
Proof.
  intros w w'.
  assert (Networked.perform (Networked.Place 0 0 1) w = Some (true, w')) as H1
    by (vm_compute; reflexivity).
  assert (checkWin (Networked.board w') = Some 0) as H2 by (vm_compute; reflexivity).
  destruct (accepted_action_publishes_three_snapshots w _ w' H1 H2) as (Hout & Hturn & _).
  split; [exact H1|]. split; [exact H2|]. split; [exact Hout | exact Hturn].
Defined.

(** C2 at work: placements on the empty board, accepted and refused, in
    both programs. *)
Lemma placement_refused_iff_witness :
  is_Some (Standalone.pieceCount Standalone.initial
             !! Standalone.playerTurn Standalone.initial)
  /\ (exists w',
        Standalone.placePiece 0 0 2 Standalone.initial = Some (true, w')
        /\ placedOnTop (Standalone.board Standalone.initial) (Standalone.board w')
                       0 0 (mkGobblet 2 1)
        /\ budget w' 2 = 2)
  /\ Standalone.placePiece 0 3 2 Standalone.initial = Some (false, Standalone.initial)
  /\ (exists w',
        Networked.placePiece 1 1 3 (Networked.initial "12345") = Some (true, w')
        /\ placedOnTop (Networked.board (Networked.initial "12345"))
                       (Networked.board w') 1 1 (mkGobblet 3 1))
  /\ Networked.placePiece 1 1 4 (Networked.initial "12345")
     = Some (false, Networked.initial "12345").
Proof.
  assert (is_Some (Standalone.pieceCount Standalone.initial
                     !! Standalone.playerTurn Standalone.initial)) as Hkey
    by (vm_compute; eauto).
  destruct placement_refused_iff as (Hstd & Hnet & _).
  split; [exact Hkey|]. split; [|split; [|split]].
  - destruct (Hstd Standalone.initial 0 0 2 Hkey) as [_ Hacc].
    destruct Hacc as (w' & Hw' & Hplaced & _ & _ & Hbudget).
    { unfold inb. intros [?|[?|[Hb|(st & Hc & Hb)]]]; try lia.
      - vm_compute in Hb. by apply Hb.
      - vm_compute in Hc. injection Hc as <-. discriminate. }
    exists w'. split; [exact Hw'|]. split; [exact Hplaced|].
    rewrite Hbudget; [reflexivity | vm_compute; split; discriminate].
  - apply (Hstd Standalone.initial 0 3 2 Hkey). right. left. unfold inb. lia.
  - destruct (Hnet (Networked.initial "12345") 1 1 3) as [_ Hacc].
    destruct Hacc as (w' & Hw' & Hplaced).
    { unfold inb. intros [?|[?|[?|[?|(st & Hc & Hb)]]]]; try lia.
      vm_compute in Hc. injection Hc as <-. discriminate. }
    exists w'. split; [exact Hw' | exact Hplaced].
  - apply (Hnet (Networked.initial "12345") 1 1 4). right. left. lia.
Defined.

(** C3 at work: on the board with two owned lines, row 0 is the first. *)
Lemma checkWin_reports_first_owned_line_witness :
  let b := Networked.board
             (netAfter [Networked.Place 0 0 1; Networked.Place 1 0 1;
                        Networked.Place 1 0 3; Networked.Place 1 1 1;
                        Networked.Place 0 1 1; Networked.Place 1 2 1;
                        Networked.Move 1 0 0 2]) in
  checkWin b = Some 1
  /\ exists before l after,
       lines = before ++ l :: after /\ ownsLine b 1 l
       /\ forall l' p, In l' before -> p <> 0 -> ~ ownsLine b p l'.
Proof.
  intros b.
  destruct (checkWin_reports_first_owned_line b) as (w & Hw & Hfirst & _).
  assert (w = 1) as -> by (vm_compute in Hw; congruence).
  split; [exact Hw|]. apply Hfirst. discriminate.
Defined.

(** C4 at work: four refused actions on the initial states. *)
Lemma rejected_action_changes_nothing_witness :
  let wn := Networked.initial "12345" in
  let ws := Standalone.initial in
  Networked.placePiece 0 0 4 wn = Some (false, wn)
  /\ Networked.movePiece 0 0 1 1 wn = Some (false, wn)
  /\ Standalone.placePiece 3 0 1 ws = Some (false, ws)
  /\ Standalone.movePiece 0 0 1 1 ws = Some (false, ws)
  /\ Networked.outbox wn = [].
Proof.
  intros wn ws.
  destruct rejected_action_changes_nothing as (Hnp & Hnm & Hsp & Hsm).
  assert (Networked.placePiece 0 0 4 wn = Some (false, wn)) as H1
    by (vm_compute; reflexivity).
  assert (Networked.movePiece 0 0 1 1 wn = Some (false, wn)) as H2
    by (vm_compute; reflexivity).
  assert (Standalone.placePiece 3 0 1 ws = Some (false, ws)) as H3
    by (vm_compute; reflexivity).
  assert (Standalone.movePiece 0 0 1 1 ws = Some (false, ws)) as H4
    by (vm_compute; reflexivity).
  split; [exact (proj2 (proj2 (Hnp _ _ _ _ _ H1)))|].
  split; [exact (proj2 (proj2 (Hnm _ _ _ _ _ _ H2)))|].
  split; [exact (proj2 (Hsp _ _ _ _ _ H3))|].
  split; [exact (proj2 (Hsm _ _ _ _ _ _ H4))|].
  exact (proj1 (proj2 (Hnp _ _ _ _ _ H1))).
Defined.


(** C6 at work: player 1 moves the piece of the corner to the next cell. *)
Lemma move_pops_source_pushes_destination_witness :
  let wn := netAfter [Networked.Place 0 0 1; Networked.Place 1 1 1] in
  let wn' := netAfter [Networked.Place 0 0 1; Networked.Place 1 1 1;
                       Networked.Move 0 0 0 1] in
  let ws := stdAfter [Standalone.Place 0 0 1; Standalone.Place 1 1 1] in
  let ws' := Standalone.setPlayerTurn 1
               (stdAfter [Standalone.Place 0 0 1; Standalone.Place 1 1 1;
                          Standalone.Move 0 0 0 1]) in
  Networked.movePiece 0 0 0 1 wn = Some (true, wn')
  /\ movedTop (Networked.board wn) (Networked.board wn') 0 0 0 1
  /\ Standalone.movePiece 0 0 0 1 ws = Some (true, ws')
  /\ movedTop (Standalone.board ws) (Standalone.board ws') 0 0 0 1.
Proof.
  intros wn wn' ws ws'.
  destruct move_pops_source_pushes_destination as [Hn Hs].
  assert (Networked.movePiece 0 0 0 1 wn = Some (true, wn')) as H1
    by (vm_compute; reflexivity).
  assert (Standalone.movePiece 0 0 0 1 ws = Some (true, ws')) as H2
    by (vm_compute; reflexivity).
  split; [exact H1|]. split; [exact (Hn _ _ _ _ _ _ H1)|].
  split; [exact H2 | exact (Hs _ _ _ _ _ _ H2)].
Defined.

(** C8 at work: player 2 covers the small piece of player 1. *)
Lemma placed_piece_belongs_to_player_to_move_witness :
  let wn := netAfter [Networked.Place 0 0 1] in
  let wn' := netAfter [Networked.Place 0 0 1; Networked.Place 0 0 2] in
  let ws := Standalone.initial in
  let ws' := Standalone.setPlayerTurn 1 (stdAfter [Standalone.Place 2 2 3]) in
  Networked.playerTurn wn = 2
  /\ Networked.placePiece 0 0 2 wn = Some (true, wn')
  /\ placedOnTop (Networked.board wn) (Networked.board wn') 0 0 (mkGobblet 2 2)
  /\ Standalone.placePiece 2 2 3 ws = Some (true, ws')
  /\ placedOnTop (Standalone.board ws) (Standalone.board ws') 2 2 (mkGobblet 3 1)
  /\ ownersValid (Networked.board (netAfter drawnGame)).
Proof.
  intros wn wn' ws ws'.
  destruct placed_piece_belongs_to_player_to_move as (Hn & Hs & Hnr & _).
  assert (Networked.placePiece 0 0 2 wn = Some (true, wn')) as H1
    by (vm_compute; reflexivity).
  assert (Standalone.placePiece 2 2 3 ws = Some (true, ws')) as H2
    by (vm_compute; reflexivity).
  split; [reflexivity|]. split; [exact H1|]. split; [exact (Hn _ _ _ _ _ H1)|].
  split; [exact H2|]. split; [exact (Hs _ _ _ _ _ H2)|].
  exact (Hnr "12345"%string _ (netAfter_reachable drawnGame)).
Defined.

(** C9 at work: a piece of the player to move, and one of the other
    player, each moved onto its own cell. *)
Lemma move_onto_own_cell_rejected_witness :
  let wn := netAfter [Networked.Place 0 0 1; Networked.Place 1 1 1] in
  let ws := stdAfter [Standalone.Place 0 0 1; Standalone.Place 1 1 1] in
  cell (Networked.board wn) 0 0 = Some (slice [mkGobblet 1 1])
  /\ Networked.playerTurn wn = 1
  /\ Networked.movePiece 0 0 0 0 wn = Some (false, wn)
  /\ cell (Standalone.board ws) 1 1 = Some (slice [mkGobblet 1 2])
  /\ Standalone.movePiece 1 1 1 1 ws = Some (false, ws).
Proof.
  intros wn ws.
  destruct move_onto_own_cell_rejected as [Hn Hs].
  assert (cell (Networked.board wn) 0 0 = Some (slice [mkGobblet 1 1])) as H1
    by (vm_compute; reflexivity).
  assert (cell (Standalone.board ws) 1 1 = Some (slice [mkGobblet 1 2])) as H2
    by (vm_compute; reflexivity).
  assert (topPiece (slice [mkGobblet 1 1]) <> None) as T1 by discriminate.
  assert (topPiece (slice [mkGobblet 1 2]) <> None) as T2 by discriminate.
  split; [exact H1|]. split; [reflexivity|].
  split; [exact (proj1 (Hn _ _ _ _ H1 T1))|].
  split; [exact H2 | exact (proj1 (Hs _ _ _ _ H2 T2))].
Defined.

(** C10 at work: sizes 4 and 0 in both programs. *)
Lemma standalone_places_any_size_networked_refuses_witness :
  Networked.placePiece 0 0 4 (Networked.initial "12345")
  = Some (false, Networked.initial "12345")
  /\ Networked.placePiece 7 7 0 (Networked.initial "12345")
     = Some (false, Networked.initial "12345")
  /\ (exists w',
        Standalone.placePiece 0 0 4 Standalone.initial = Some (true, w')
        /\ cell (Standalone.board w') 0 0 = Some (slice [mkGobblet 4 1]))
  /\ (exists w',
        Standalone.placePiece 1 1 0 Standalone.initial = Some (true, w')
        /\ cell (Standalone.board w') 1 1 = Some (slice [mkGobblet 0 1]))
  /\ (exists w',
        Standalone.placePiece 0 0 4 (stdAfter [Standalone.Place 0 0 3; Standalone.Place 1 1 1])
        = Some (true, w')
        /\ cell (Standalone.board w') 0 0
           = Some (slice [mkGobblet 3 1; mkGobblet 4 1])).
Proof.
  destruct standalone_places_any_size_networked_refuses as (Hn & Hany & _ & Hopen).
  split; [apply Hn; lia|]. split; [apply Hn; lia|].
  split; [apply Hopen; unfold inb; lia|]. split; [apply Hopen; unfold inb; lia|].
  destruct (Hany (stdAfter [Standalone.Place 0 0 3; Standalone.Place 1 1 1])
              0 0 4 (slice [mkGobblet 3 1])) as (w' & Hw' & st & Hst & Hcell & _).
  - vm_compute. eauto.
  - vm_compute. reflexivity.
  - vm_compute. reflexivity.
  - vm_compute. reflexivity.
  - exists w'. split; [exact Hw'|].
    assert (st = slice [mkGobblet 3 1]) as -> by (vm_compute in Hst; congruence).
    exact Hcell.
Defined.

(** C7 at work: the snapshot of the empty board and that of a full
    board. *)
Lemma snapshot_round_trip_witness :
  let empty := mkGameState emptyBoard 1 0 in
  let full := mkGameState (Networked.board (netAfter drawnGame)) 2 0 in
  wfGameState empty
  /\ Json.Unmarshal (Json.Marshal empty) zeroGameState = Some empty
  /\ Networked.reachable "12345" (netAfter drawnGame)
  /\ checkWin (Networked.board (netAfter drawnGame)) = Some 0
  /\ Networked.playerTurn (netAfter drawnGame) = 2
  /\ Json.Unmarshal (Json.Marshal full) zeroGameState = Some full
  /\ length (Networked.outbox (netAfter drawnGame)) = 27%nat.
Proof.
  intros empty full.
  destruct snapshot_round_trip as (Hwf & Hreach & _).
  assert (wfGameState empty) as He.
  { split; [apply boardAll_empty|]. split; vm_compute; split; discriminate. }
  assert (checkWin (Networked.board (netAfter drawnGame)) = Some 0) as Hwin
    by (vm_compute; reflexivity).
  split; [exact He|]. split; [exact (Hwf empty He)|].
  split; [exact (netAfter_reachable drawnGame)|]. split; [exact Hwin|].
  split; [vm_compute; reflexivity|].
  split; [exact (Hreach _ _ _ (netAfter_reachable drawnGame) Hwin)|].
  vm_compute. reflexivity.
Defined.

(** ** The order of the pieces in a stack *)

Lemma stacksAll_setCell P b row col s b' :
  setCell b row col s = Some b' ->
  stacksAll P b -> P (elems s) -> stacksAll P b'.
Proof.
  intros Hset Hb Hs r c st Hcell.
  rewrite (cell_setCell _ _ _ _ _ r c Hset) in Hcell.
  case_decide; [by injection Hcell as <- | by apply (Hb r c)].
Qed.

Lemma stacksAll_empty P : P [] -> stacksAll P emptyBoard.
Proof.
  intros HP r c st Hcell.
  assert (st = nil_slice) as ->; [|done].
  unfold cell, get3 in Hcell. by repeat case_match; simplify_eq.
Qed.

Lemma ascending_nil : ascending [].
Proof. intros i j a b Ha. by rewrite lookup_nil in Ha. Qed.

Lemma ascending_prefix l l' : ascending (l ++ l') -> ascending l.
Proof.
  intros H i j a b Ha Hb Hij.
  apply (H i j); [by apply lookup_app_l_Some | by apply lookup_app_l_Some | done].
Qed.

Lemma ascending_snoc l g :
  ascending l ->
  (forall top, last l = Some top -> Size top < Size g) ->
  ascending (l ++ [g]).
Proof.
  intros Hl Htop i j a b Ha Hb Hij.
  assert (j < length l \/ j = length l)%nat as [Hj | ->].
  { apply lookup_lt_Some in Hb. rewrite length_app in Hb. cbn in Hb. lia. }
  - rewrite lookup_app_l in Ha, Hb by lia. by apply (Hl i j).
  - rewrite lookup_app_l in Ha by lia.
    rewrite lookup_app_r, Nat.sub_diag in Hb by lia. injection Hb as <-.
    destruct l as [|x l' _] using rev_ind; [by rewrite lookup_nil in Ha|].
    specialize (Htop x (last_snoc _ _)).
    rewrite length_app in Hij. cbn in Hij.
    assert (i < length l' \/ i = length l')%nat as [Hi | ->] by lia.
    + assert ((l' ++ [x]) !! length l' = Some x) as Hx
        by (by rewrite lookup_app_r, Nat.sub_diag by lia).
      pose proof (Hl i (length l') a x Ha Hx Hi). lia.
    + rewrite lookup_app_r, Nat.sub_diag in Ha by lia. injection Ha as <-. done.
Qed.

Lemma blocks_false st size top :
  blocks st size = false -> topPiece st = Some top -> Size top < size.
Proof.
  unfold blocks. intros H Ht. rewrite Ht, Z.geb_leb in H. by apply Z.leb_gt in H.
Qed.

Lemma ascending_place b row col st g b' :
  cell b row col = Some st ->
  blocks st (Size g) = false ->
  setCell b row col (append st g) = Some b' ->
  stacksAll ascending b -> stacksAll ascending b'.
Proof.
  intros Hcell Hb Hset Hall. apply (stacksAll_setCell _ _ _ _ _ _ Hset Hall).
  cbn. apply ascending_snoc; [by apply (Hall row col)|].
  intros top Htop. by apply (blocks_false st).
Qed.

Lemma ascending_move b turn fromRow fromCol toRow toCol b2 :
  moveDone b turn fromRow fromCol toRow toCol b2 ->
  stacksAll ascending b -> stacksAll ascending b2.
Proof.
  intros (_ & _ & _ & _ & Hne & src & top & dst & b1 & Hsrc & Htop & Ho & Hdst & Hb & Hb1 & Hb2) Hall.
  assert (elems src = removelast (elems src) ++ [top]) as Hsplit.
  { unfold topPiece in Htop. destruct (elems src) as [|x l _] using rev_ind; [done|].
    rewrite last_snoc in Htop. injection Htop as ->. by rewrite removelast_last. }
  apply (stacksAll_setCell _ _ _ _ _ _ Hb2).
  - apply (stacksAll_setCell _ _ _ _ _ _ Hb1 Hall). cbn.
    apply (ascending_prefix _ [top]). rewrite <- Hsplit. by apply (Hall fromRow fromCol).
  - cbn. apply ascending_snoc; [by apply (Hall toRow toCol)|].
    intros t Ht. by apply (blocks_false dst).
Qed.

Lemma net_reachable_ascending id w :
  Networked.reachable id w -> stacksAll ascending (Networked.board w).
Proof.
  induction 1 as [|w cmd ok w' Hr IH Hstep];
    [apply stacksAll_empty, ascending_nil|].
  destruct ok.
  - destruct cmd as [row col size | fromRow fromCol toRow toCol]; cbn in Hstep.
    + apply net_place_accepted in Hstep as (_ & st & Hc & Hb & Hset & _).
      by apply (ascending_place _ _ _ _ (mkGobblet size _) _ Hc Hb Hset).
    + apply net_move_accepted in Hstep as [Hd _].
      by apply (ascending_move _ _ _ _ _ _ _ Hd).
  - by apply net_perform_cases in Hstep as [[_ ->] | [? _]].
Qed.

Lemma std_step_board cmd w pass w' :
  Standalone.mainLoopBody cmd w = Some (pass, w') ->
  exists ok w1,
    Standalone.perform cmd w = Some (ok, w1)
    /\ Standalone.board w' = Standalone.board w1
    /\ Standalone.pieceCount w' = Standalone.pieceCount w1.
Proof.
  intros Hstep.
  destruct (Standalone.perform cmd w) as [[ok w1]|] eqn:Hp.
  2:{ unfold Standalone.mainLoopBody in Hstep. run_monad. by rewrite Hp in Hstep. }
  destruct (std_mainLoopBody_spec _ _ _ _ Hp) as (win & _ & Hbody).
  rewrite Hbody in Hstep. exists ok, w1. split; [done|].
  destruct ok; [destruct (win =? 0)|]; by simplify_eq.
Qed.

Lemma std_reachable_ascending w :
  Standalone.reachable w -> stacksAll ascending (Standalone.board w).
Proof.
  induction 1 as [|w cmd w' Hr IH Hstep];
    [apply stacksAll_empty, ascending_nil|].
  apply std_step_board in Hstep as (ok & w1 & Hp & -> & _).
  destruct ok; [|by apply std_perform_rejected in Hp as ->].
  destruct cmd as [row col size | fromRow fromCol toRow toCol |]; cbn in Hp.
  - apply std_place_accepted in Hp as (_ & _ & _ & st & Hc & Hb & Hset).
    by apply (ascending_place _ _ _ _ (mkGobblet size _) _ Hc Hb Hset).
  - apply std_move_accepted in Hp as [Hd _].
    by apply (ascending_move _ _ _ _ _ _ _ Hd).
  - done.
Qed.

(** X1.  No piece ever lies on a piece of its size or larger: in every
    state that either program reaches by local play, the sizes of each
    stack grow strictly from the bottom to the top. *)
Theorem stacks_grow_from_bottom_to_top :
  (forall id w, Networked.reachable id w ->
     stacksAll ascending (Networked.board w))
  /\ (forall w, Standalone.reachable w ->
     stacksAll ascending (Standalone.board w)).
Proof. split; [apply net_reachable_ascending | apply std_reachable_ascending]. Qed.

Lemma ascending_lower_bound l i a :
  ascending l -> (forall g, In g l -> 1 <= Size g) ->
  l !! i = Some a -> Z.of_nat i + 1 <= Size a.
Proof.
  intros Hl Hmin. revert a. induction i as [|i IH]; intros a Ha.
  - assert (1 <= Size a); [|lia].
    apply Hmin, list_elem_of_In, list_elem_of_lookup. eauto.
  - destruct (l !! i) as [x|] eqn:Hx.
    + pose proof (IH x eq_refl). pose proof (Hl i (S i) x a Hx Ha ltac:(lia)). lia.
    + apply lookup_ge_None in Hx. apply lookup_lt_Some in Ha. lia.
Qed.

(** X2.  In the networked program a cell never holds more than three
    pieces, and every piece on the board is of size 1, 2 or 3 and of
    player 1 or 2: at most a small, a medium and a large piece, in that
    order. *)
Theorem networked_stack_holds_at_most_three id w row col st :
  Networked.reachable id w ->
  cell (Networked.board w) row col = Some st ->
  len st <= 3
  /\ (forall g, In g (elems st) -> regular g)
  /\ ascending (elems st).
Proof.
  intros Hr Hcell.
  pose proof (net_reachable_regular _ _ Hr) as Hreg.
  pose proof (net_reachable_ascending _ _ Hr row col st Hcell) as Hasc.
  assert (forall g, In g (elems st) -> regular g) as Hst
    by (intros g; apply (Hreg row col st g Hcell)).
  split; [|by split].
  unfold len. destruct (decide (length (elems st) <= 3)%nat) as [|Hlong]; [lia|].
  destruct (elems st !! 3%nat) as [a|] eqn:Ha.
  - assert (Z.of_nat 3 + 1 <= Size a) as Hlow.
    { apply (ascending_lower_bound (elems st)); [done | | done].
      intros g Hg. by destruct (Hst g Hg) as [[? ?] _]. }
    assert (regular a) as [[_ ?] _]; [|lia].
    apply Hst, list_elem_of_In, list_elem_of_lookup. eauto.
  - apply lookup_ge_None in Ha. lia.
Qed.

(** X3.  Only a visible piece of the player to move can be moved, and
    only onto an empty cell or a smaller visible piece: after an accepted
    move the piece that shows on the destination is the one that showed
    on the source, it belongs to the player whose turn it was, and what
    showed on the destination before, if anything, is smaller. *)
Theorem move_takes_own_visible_piece :
  (forall w w' fromRow fromCol toRow toCol,
      Networked.movePiece fromRow fromCol toRow toCol w = Some (true, w') ->
      exists top,
        topAt (Networked.board w) (fromRow, fromCol) = Some top
        /\ Owner top = Networked.playerTurn w
        /\ topAt (Networked.board w') (toRow, toCol) = Some top
        /\ forall under, topAt (Networked.board w) (toRow, toCol) = Some under ->
             Size under < Size top)
  /\ (forall w w' fromRow fromCol toRow toCol,
      Standalone.movePiece fromRow fromCol toRow toCol w = Some (true, w') ->
      exists top,
        topAt (Standalone.board w) (fromRow, fromCol) = Some top
        /\ Owner top = Standalone.playerTurn w
        /\ topAt (Standalone.board w') (toRow, toCol) = Some top
        /\ forall under, topAt (Standalone.board w) (toRow, toCol) = Some under ->
             Size under < Size top).
Proof.
  assert (forall b turn fromRow fromCol toRow toCol b2,
      moveDone b turn fromRow fromCol toRow toCol b2 ->
      exists top,
        topAt b (fromRow, fromCol) = Some top /\ Owner top = turn
        /\ topAt b2 (toRow, toCol) = Some top
        /\ forall under, topAt b (toRow, toCol) = Some under ->
             Size under < Size top) as Hmove.
  { intros b turn fromRow fromCol toRow toCol b2
      (_ & _ & _ & _ & Hne & src & top & dst & b1 & Hsrc & Htop & Ho & Hdst & Hb & Hb1 & Hb2).
    exists top. unfold topAt. cbn [fst snd]. rewrite Hsrc, Hdst. cbn.
    split; [done|]. split; [done|]. split.
    - rewrite (cell_setCell _ _ _ _ _ toRow toCol Hb2).
      case_decide; [|tauto]. cbn. unfold topPiece. cbn. by rewrite last_snoc.
    - intros under Hu. by apply (blocks_false dst). }
  split; intros w w' fromRow fromCol toRow toCol H.
  - apply net_move_accepted in H as [Hd _]. by apply (Hmove _ _ _ _ _ _ _ Hd).
  - apply std_move_accepted in H as [Hd _]. by apply (Hmove _ _ _ _ _ _ _ Hd).
Qed.

(** ** The pieces on the board as a collection *)

Lemma allPieces_setCell b row col s b' old :
  cell b row col = Some old ->
  setCell b row col s = Some b' ->
  exists pre post,
    allPieces b = pre ++ elems old ++ post
    /\ allPieces b' = pre ++ elems s ++ post.
Proof.
  destruct b as [[a b c] [d e f] [g h i]].
  unfold cell, setCell, get3, set3, allPieces.
  destruct (row =? 0); [|destruct (row =? 1); [|destruct (row =? 2); [|done]]];
    (destruct (col =? 0); [|destruct (col =? 1); [|destruct (col =? 2); [|done]]]);
    cbn; intros [= <-] [= <-]; cbn.
  - exists [], (elems b ++ elems c ++ (elems d ++ elems e ++ elems f)
                ++ elems g ++ elems h ++ elems i).
    by rewrite <- !app_assoc.
  - exists (elems a), (elems c ++ (elems d ++ elems e ++ elems f)
                ++ elems g ++ elems h ++ elems i).
    by rewrite <- !app_assoc.
  - exists (elems a ++ elems b), ((elems d ++ elems e ++ elems f)
                ++ elems g ++ elems h ++ elems i).
    by rewrite <- !app_assoc.
  - exists (elems a ++ elems b ++ elems c), (elems e ++ elems f
                ++ elems g ++ elems h ++ elems i).
    by rewrite <- !app_assoc.
  - exists (elems a ++ elems b ++ elems c ++ elems d), (elems f
                ++ elems g ++ elems h ++ elems i).
    by rewrite <- !app_assoc.
  - exists (elems a ++ elems b ++ elems c ++ elems d ++ elems e),
           (elems g ++ elems h ++ elems i).
    by rewrite <- !app_assoc.
  - exists (elems a ++ elems b ++ elems c ++ elems d ++ elems e ++ elems f),
           (elems h ++ elems i).
    by rewrite <- !app_assoc.
  - exists (elems a ++ elems b ++ elems c ++ elems d ++ elems e ++ elems f
            ++ elems g), (elems i).
    by rewrite <- !app_assoc.
  - exists (elems a ++ elems b ++ elems c ++ elems d ++ elems e ++ elems f
            ++ elems g ++ elems h), [].
    by rewrite <- !app_assoc, !app_nil_r.
Qed.

Lemma allPieces_place b row col st g b' :
  cell b row col = Some st ->
  setCell b row col (append st g) = Some b' ->
  allPieces b' ≡ₚ g :: allPieces b.
Proof.
  intros Hc Hset.
  destruct (allPieces_setCell _ _ _ _ _ _ Hc Hset) as (pre & post & -> & ->).
  cbn. rewrite <- !app_assoc. cbn. rewrite !app_assoc.
  symmetry. apply Permutation_middle.
Qed.

Lemma topPiece_split src top :
  topPiece src = Some top -> elems src = removelast (elems src) ++ [top].
Proof.
  unfold topPiece. intros Htop.
  destruct (elems src) as [|x l _] using rev_ind; [done|].
  rewrite last_snoc in Htop. injection Htop as ->. by rewrite removelast_last.
Qed.

Lemma allPieces_move b turn fromRow fromCol toRow toCol b2 :
  moveDone b turn fromRow fromCol toRow toCol b2 ->
  allPieces b2 ≡ₚ allPieces b.
Proof.
  intros (_ & _ & _ & _ & Hne & src & top & dst & b1 & Hsrc & Htop & Ho & Hdst & Hb & Hb1 & Hb2).
  assert (cell b1 toRow toCol = Some dst) as Hdst1.
  { rewrite (cell_setCell _ _ _ _ _ toRow toCol Hb1).
    case_decide as Heq; [|done]. destruct Heq as [<- <-]. done. }
  rewrite (allPieces_place _ _ _ _ _ _ Hdst1 Hb2).
  destruct (allPieces_setCell _ _ _ _ _ _ Hsrc Hb1) as (pre & post & -> & ->).
  rewrite (topPiece_split _ _ Htop) at 2. cbn.
  rewrite <- !app_assoc. cbn. rewrite !app_assoc.
  apply Permutation_middle.
Qed.

Lemma placedCount_perm b b' p size :
  allPieces b' ≡ₚ allPieces b -> placedCount b' p size = placedCount b p size.
Proof. unfold placedCount. by intros ->. Qed.

Lemma placedCount_cons b b' g p size :
  allPieces b' ≡ₚ g :: allPieces b ->
  placedCount b' p size
  = ((if decide (Owner g = p /\ Size g = size) then 1 else 0) + placedCount b p size)%nat.
Proof.
  unfold placedCount. intros ->. rewrite filter_cons.
  destruct (Z.eqb_spec (Owner g) p), (Z.eqb_spec (Size g) size);
    cbn; case_decide; try tauto; case_decide; cbn; try tauto; try done.
Qed.

(** X4.  A move neither adds nor removes a piece, in either program:
    after an accepted move the pieces on the board, buried ones included,
    are those of the board before, rearranged. *)
Theorem move_conserves_pieces :
  (forall w w' fromRow fromCol toRow toCol,
      Networked.movePiece fromRow fromCol toRow toCol w = Some (true, w') ->
      allPieces (Networked.board w') ≡ₚ allPieces (Networked.board w))
  /\ (forall w w' fromRow fromCol toRow toCol,
      Standalone.movePiece fromRow fromCol toRow toCol w = Some (true, w') ->
      allPieces (Standalone.board w') ≡ₚ allPieces (Standalone.board w)
      /\ Standalone.pieceCount w' = Standalone.pieceCount w).
Proof.
  split; intros w w' fromRow fromCol toRow toCol H.
  - apply net_move_accepted in H as [Hd _]. by apply (allPieces_move _ _ _ _ _ _ _ Hd).
  - apply std_move_accepted in H as [Hd Hw]. split.
    + by apply (allPieces_move _ _ _ _ _ _ _ Hd).
    + by rewrite Hw.
Qed.

(** X5.  A placement adds exactly one piece, of the size asked for and
    of the player to move, and buries what was there: no piece is ever
    removed from the board by a placement, in either program. *)
Theorem placement_adds_one_piece :
  (forall w w' row col size,
      Networked.placePiece row col size w = Some (true, w') ->
      allPieces (Networked.board w')
      ≡ₚ mkGobblet size (Networked.playerTurn w) :: allPieces (Networked.board w))
  /\ (forall w w' row col size,
      Standalone.placePiece row col size w = Some (true, w') ->
      allPieces (Standalone.board w')
      ≡ₚ mkGobblet size (Standalone.playerTurn w) :: allPieces (Standalone.board w)).
Proof.
  split; intros w w' row col size H.
  - apply net_place_accepted in H as (_ & st & Hc & _ & Hset & _).
    by apply (allPieces_place _ _ _ _ _ _ Hc Hset).
  - apply std_place_accepted in H as (_ & _ & _ & st & Hc & _ & Hset).
    by apply (allPieces_place _ _ _ _ _ _ Hc Hset).
Qed.

(** ** The counters of the stand-alone program *)

Lemma countsMatch_initial : countsMatch Standalone.initial.
Proof.
  intros p size. cbn. unfold Standalone.countOf.
  destruct (decide (p = 1)) as [->|]; [|destruct (decide (p = 2)) as [->|]];
    simplify_map_eq; [| |done];
    (destruct (decide (size = 1)) as [->|]; [done|];
     destruct (decide (size = 2)) as [->|]; [done|];
     destruct (decide (size = 3)) as [->|]; [done|];
     by simplify_map_eq).
Qed.

Lemma countsMatch_place row col size w w' :
  Standalone.placePiece row col size w = Some (true, w') ->
  countsMatch w -> countsMatch w'.
Proof.
  intros H Hm p s.
  apply std_place_accepted in H as (Hlt & _ & Hinc & st & Hc & _ & Hset).
  rewrite (countOf_increment _ _ _ _ p s Hinc).
  rewrite (placedCount_cons _ _ _ p s (allPieces_place _ _ _ _ _ _ Hc Hset)).
  cbn [Owner Size].
  pose proof (Hm (Standalone.playerTurn w) size) as Hn.
  assert (is_int (Standalone.countOf (Standalone.pieceCount w)
                    (Standalone.playerTurn w) size + 1)) as Hint.
  { apply small_is_int. lia. }
  rewrite (wrap_id _ Hint).
  case_decide as Hd.
  - destruct Hd as [<- <-]. lia.
  - apply Hm.
Qed.

Lemma std_reachable_counts w : Standalone.reachable w -> countsMatch w.
Proof.
  induction 1 as [|w cmd w' Hr IH Hstep]; [apply countsMatch_initial|].
  apply std_step_board in Hstep as (ok & w1 & Hp & Hb & Hpc).
  assert (countsMatch w1) as H1.
  { destruct ok; [|by apply std_perform_rejected in Hp as ->].
    destruct cmd as [row col size | fromRow fromCol toRow toCol |]; cbn in Hp.
    - by apply (countsMatch_place _ _ _ _ _ Hp).
    - apply std_move_accepted in Hp as [Hd Hw]. intros p s.
      rewrite (placedCount_perm _ _ p s (allPieces_move _ _ _ _ _ _ _ Hd)).
      rewrite Hw. apply IH.
    - done. }
  intros p s. unfold countsMatch in H1. by rewrite Hb, Hpc.
Qed.

Lemma std_reachable_counts_le w p size :
  Standalone.reachable w ->
  Standalone.countOf (Standalone.pieceCount w) p size <= 3.
Proof.
  induction 1 as [|w cmd w' Hr IH Hstep] in p, size |- *.
  { rewrite (countsMatch_initial p size). cbn. lia. }
  apply std_step_board in Hstep as (ok & w1 & Hp & _ & ->).
  destruct ok; [|by apply std_perform_rejected in Hp as ->].
  destruct cmd as [row col sz | fromRow fromCol toRow toCol |]; cbn in Hp.
  - pose proof (std_reachable_counts w Hr (Standalone.playerTurn w) sz) as Hn.
    apply std_place_accepted in Hp as (Hlt & _ & Hinc & _).
    rewrite (countOf_increment _ _ _ _ p size Hinc).
    case_decide; [|apply IH].
    rewrite wrap_id by (apply small_is_int; lia). lia.
  - apply std_move_accepted in Hp as [_ ->]. apply IH.
  - done.
Qed.

(** X6.  The counters of the stand-alone program count the board: in
    every state it reaches, [pieceCount[p][size]] is the number of pieces
    of player [p] and of that size on the board, buried ones included,
    for every player and every size; so no player ever has more than
    three pieces of one size on the board. *)
Theorem standalone_counters_count_the_board w p size :
  Standalone.reachable w ->
  Standalone.countOf (Standalone.pieceCount w) p size
  = Z.of_nat (placedCount (Standalone.board w) p size)
  /\ (placedCount (Standalone.board w) p size <= 3)%nat.
Proof.
  intros Hr. pose proof (std_reachable_counts w Hr p size) as Hn.
  pose proof (std_reachable_counts_le w p size Hr). split; [done | lia].
Qed.

(** ** Deliveries *)

Section Deliveries.
Import Networked.

Lemma onMessageReceived_spec data w :
  onMessageReceived data w
  = Some (tt, received (Json.Unmarshal data zeroGameState) w).
Proof.
  unfold onMessageReceived, received.
  destruct (Json.Unmarshal data zeroGameState) as [st|]; [|done].
  run_monad. cbn. by destruct (Winner st =? 0).
Qed.

Lemma deliverAll_nil w : deliverAll [] w = Some (tt, w).
Proof. done. Qed.

Lemma deliverAll_cons data rest w :
  deliverAll (data :: rest) w
  = if exited w then Some (tt, w)
    else deliverAll rest (received (Json.Unmarshal data zeroGameState) w).
Proof.
  cbn [deliverAll]. run_monad. destruct (exited w); [done|].
  by rewrite onMessageReceived_spec.
Qed.

Lemma deliverAll_total payloads w : exists w', deliverAll payloads w = Some (tt, w').
Proof.
  revert w. induction payloads as [|data rest IH]; intros w; [by exists w|].
  rewrite deliverAll_cons. destruct (exited w); [by exists w | apply IH].
Qed.

Lemma deliverAll_keeps payloads w w' :
  deliverAll payloads w = Some (tt, w') ->
  outbox w' = outbox w /\ gameID w' = gameID w.
Proof.
  revert w. induction payloads as [|data rest IH]; intros w.
  - by intros [= <-].
  - rewrite deliverAll_cons. destruct (exited w); [by intros [= <-]|].
    intros H. apply IH in H as [-> ->].
    by destruct (Json.Unmarshal data zeroGameState).
Qed.

Lemma received_Marshal st w :
  wfGameState st ->
  received (Json.Unmarshal (Json.Marshal st) zeroGameState) w
  = received (Some st) w.
Proof. intros Hwf. by rewrite (Unmarshal_Marshal st zeroGameState Hwf). Qed.

Lemma deliverAll_snapshot st rest w :
  wfGameState st -> exited w = false ->
  deliverAll (Json.Marshal st :: rest) w = deliverAll rest (received (Some st) w).
Proof. intros Hwf He. by rewrite deliverAll_cons, He, received_Marshal. Qed.

Lemma net_accepted_outcome id w cmd w' :
  reachable id w -> perform cmd w = Some (true, w') ->
  exists win,
    checkWin (board w') = Some win
    /\ 0 <= win <= 2
    /\ boardAll regular (board w')
    /\ isPlayer (playerTurn w) /\ isPlayer (playerTurn w')
    /\ playerTurn w' = (if win =? 0 then wrap (3 - playerTurn w) else playerTurn w)
    /\ gameID w' = gameID w /\ exited w' = exited w
    /\ outbox w'
       = outbox w
         ++ (let before := publicationOf w (mkGameState (board w') (playerTurn w) win) in
             if win =? 0
             then [before; before; publicationOf w (snapshotOf w' win)]
             else [before; before]).
Proof.
  intros Hr Hp.
  pose proof (net_reachable_turn _ _ Hr) as Ht.
  pose proof (net_reachable_regular _ _ (reach_perform _ _ _ _ _ Hr Hp)) as Hreg.
  pose proof (net_reachable_turn _ _ (reach_perform _ _ _ _ _ Hr Hp)) as Ht'.
  apply net_perform_cases in Hp as [[? _] | [_ Ha]]; [done|].
  rewrite net_announce_spec in Ha. cbn zeta in Ha.
  pose proof (checkWin_spec (board w')) as Hwin.
  exists (firstNonZero (map (lineWinner (board w')) lines)).
  assert (ownersValid (board w')) as Hown.
  { intros row col st g Hc Hg. by destruct (Hreg row col st g Hc Hg). }
  split; [done|]. split; [by apply (checkWin_range (board w'))|].
  do 3 (split; [done|]).
  cbn [setBoard board playerTurn gameID outbox exited publicationOf] in Ha.
  unfold snapshotOf, publicationOf.
  remember (firstNonZero (map (lineWinner (board w')) lines)) as win eqn:Ew.
  clear Ew Hwin Hreg Hown Ht'.
  destruct (win =? 0) eqn:E; injection Ha as Ha; rewrite <- Ha; cbn; by rewrite ?E.
Qed.

Lemma deliver_accepted id w cmd w' r :
  reachable id w ->
  perform cmd w = Some (true, w') ->
  exited r = false ->
  exists win r',
    checkWin (board w') = Some win
    /\ deliverAll (payload <$> drop (length (outbox w)) (outbox w')) r
       = Some (tt, r')
    /\ board r' = board w'
    /\ playerTurn r' = playerTurn w'
    /\ exited r' = negb (win =? 0)
    /\ outbox r' = outbox r
    /\ gameID r' = gameID r.
Proof.
  intros Hr Hp He.
  destruct (net_accepted_outcome _ _ _ _ Hr Hp)
    as (win & Hwin & Hrange & Hreg & Ht & Ht' & Hturn & _ & _ & Hout).
  exists win. rewrite Hout, drop_app_length. cbn zeta.
  assert (wfGameState (mkGameState (board w') (playerTurn w) win)) as Hwf
    by by apply snapshot_wf.
  assert (wfGameState (snapshotOf w' win)) as Hwf' by by apply snapshot_wf.
  assert (forall st r0, Winner st = win -> exited r0 = false ->
            exited (received (Some st) r0) = negb (win =? 0)) as Hex.
  { intros st r0 <- He0. cbn [received exited]. rewrite He0.
    by destruct (Winner st =? 0). }
  destruct (win =? 0) eqn:E.
  - cbn [fmap list_fmap payload publicationOf].
    rewrite deliverAll_snapshot by done.
    set (before := mkGameState (board w') (playerTurn w) win) in *.
    assert (exited (received (Some before) r) = false) as He1 by by apply Hex.
    assert (exited (received (Some before) (received (Some before) r)) = false)
      as He2 by by apply Hex.
    rewrite deliverAll_snapshot by done.
    rewrite deliverAll_snapshot by done.
    rewrite deliverAll_nil. eexists. split; [done|]. split; [done|].
    cbn [received board playerTurn exited outbox gameID snapshotOf Board_ PlayerTurn Winner].
    subst before. cbn [Winner]. by rewrite !E, He.
  - cbn [fmap list_fmap payload publicationOf].
    rewrite deliverAll_snapshot by done.
    rewrite deliverAll_cons, Hex by done. cbn [negb].
    eexists. split; [done|]. split; [done|].
    cbn [received board playerTurn exited outbox gameID snapshotOf Board_ PlayerTurn Winner].
    by rewrite ?E, Hturn, ?E.
Qed.

(** X7.  Whoever runs the callback on what an accepted action has
    published, in the order of publication, ends with the board and the
    turn of the sender, whatever its own state was before: the sender
    itself, the opponent or a spectator.  The receiver stops, through
    [os.Exit], exactly when the action has produced a winner; its own
    list of publications and its game identifier are untouched. *)
Theorem receivers_converge_to_sender id w cmd w' r :
  reachable id w ->
  perform cmd w = Some (true, w') ->
  exited r = false ->
  exists win r',
    checkWin (board w') = Some win
    /\ deliverAll (payload <$> drop (length (outbox w)) (outbox w')) r
       = Some (tt, r')
    /\ board r' = board w'
    /\ playerTurn r' = playerTurn w'
    /\ exited r' = negb (win =? 0)
    /\ outbox r' = outbox r
    /\ gameID r' = gameID r.
Proof. apply deliver_accepted. Qed.

Lemma deliverAll_same payloads r1 r2 r1' r2' :
  board r1 = board r2 -> playerTurn r1 = playerTurn r2 -> exited r1 = exited r2 ->
  deliverAll payloads r1 = Some (tt, r1') ->
  deliverAll payloads r2 = Some (tt, r2') ->
  board r1' = board r2' /\ playerTurn r1' = playerTurn r2' /\ exited r1' = exited r2'.
Proof.
  revert r1 r2. induction payloads as [|data rest IH]; intros r1 r2 Hb Ht He.
  - by intros [= <-] [= <-].
  - rewrite !deliverAll_cons, <- He. destruct (exited r1) eqn:E1.
    + intros [= <-] [= <-]. by rewrite E1.
    + apply IH; destruct (Json.Unmarshal data zeroGameState); cbn;
        rewrite <- ?He, ?E1; done.
Qed.

(** X8.  What a process holds after a series of deliveries does not
    depend on what it held before, as soon as one of the payloads
    decodes: two processes that are alive and are handed the same
    payloads end with the same board and the same turn, and either both
    have stopped or neither has. *)
Theorem deliveries_override_local_state payloads r1 r2 r1' r2' st :
  exited r1 = false -> exited r2 = false ->
  firstDecoded payloads = Some st ->
  deliverAll payloads r1 = Some (tt, r1') ->
  deliverAll payloads r2 = Some (tt, r2') ->
  board r1' = board r2' /\ playerTurn r1' = playerTurn r2' /\ exited r1' = exited r2'.
Proof.
  revert r1 r2. induction payloads as [|data rest IH]; intros r1 r2 E1 E2 Hd; [done|].
  rewrite !deliverAll_cons, E1, E2. cbn [firstDecoded] in Hd.
  destruct (Json.Unmarshal data zeroGameState) as [st0|] eqn:Hdec.
  - apply deliverAll_same; cbn; by rewrite ?E1, ?E2.
  - by apply IH.
Qed.



End Deliveries.

(** ** Panics *)

Lemma net_perform_total cmd w :
  exists ok w', Networked.perform cmd w = Some (ok, w').
Proof.
  destruct cmd as [row col size | fromRow fromCol toRow toCol]; cbn.
  - destruct (net_place_cases row col size w)
      as [[-> _] | (_ & _ & _ & st & b' & _ & _ & _ & ->)]; [by eauto|].
    rewrite net_announce_spec. eauto.
  - destruct (net_move_cases fromRow fromCol toRow toCol w)
      as [[-> _] | (b2 & _ & ->)]; [by eauto|].
    rewrite net_announce_spec. eauto.
Qed.

Lemma saveGameState_spec w :
  Networked.saveGameState w
  = Some (tt, Networked.mkWorld
                (Networked.board w) (Networked.playerTurn w) (Networked.gameID w)
                (Networked.outbox w
                 ++ [Networked.publicationOf w
                       (snapshotOf w (firstNonZero (map (lineWinner (Networked.board w)) lines)))])
                (Networked.exited w)).
Proof.
  unfold Networked.saveGameState, Networked.publish. run_monad.
  by rewrite checkWin_spec.
Qed.

Lemma net_mainLoopBody_cases playerID input w :
  Networked.mainLoopBody playerID input w
  = if playerID =? 3 then Some (Networked.Spectating, w)
    else if negb (Networked.playerTurn w =? playerID) then Some (Networked.Waiting, w)
    else
      let win := firstNonZero (map (lineWinner (Networked.board w)) lines) in
      if negb (win =? 0) then Some (Networked.Exit win, Networked.setExited w)
      else match input with
           | Networked.Act cmd =>
               match Networked.perform cmd w with
               | Some (_, w') => Some (Networked.Again, w')
               | None => None
               end
           | Networked.Unreadable => Some (Networked.Again, w)
           end.
Proof.
  unfold Networked.mainLoopBody. destruct (playerID =? 3); [done|].
  run_monad. destruct (Networked.playerTurn w =? playerID); [|done].
  cbn [negb]. rewrite checkWin_spec. cbn zeta.
  destruct (firstNonZero _ =? 0); [|done]. cbn [negb].
  destruct input as [cmd|]; [|done].
  by destruct (Networked.perform cmd w) as [[ok w']|].
Qed.

Lemma loadGameState_total subscribed arrivals w :
  exists found w', Networked.loadGameState subscribed arrivals w = Some (found, w').
Proof.
  unfold Networked.loadGameState. destruct subscribed; cbn [negb]; [|by eauto].
  destruct (Networked.firstDecoded arrivals); run_monad; eauto.
Qed.

(** X10.  The networked program never panics, whatever it is given: no
    board, however it was received, no coordinates, no size, no payload
    and no identifier makes an action, a pass of the main loop, a
    delivery or the start of the program fail on an index or a slice. *)
Theorem networked_program_never_panics :
  (forall cmd w, exists ok w', Networked.perform cmd w = Some (ok, w'))
  /\ (forall playerID input w,
        exists pass w', Networked.mainLoopBody playerID input w = Some (pass, w'))
  /\ (forall data w, exists w', Networked.onMessageReceived data w = Some (tt, w'))
  /\ (forall id subscribed arrivals,
        exists s, Networked.start id subscribed arrivals = Some s).
Proof.
  split; [apply net_perform_total|]. split; [|split].
  - intros playerID input w. rewrite net_mainLoopBody_cases. cbn zeta.
    destruct (playerID =? 3); [by eauto|].
    destruct (negb (Networked.playerTurn w =? playerID)); [by eauto|].
    destruct (negb _); [by eauto|].
    destruct input as [cmd|]; [|by eauto].
    destruct (net_perform_total cmd w) as (ok & w' & ->). eauto.
  - intros data w. rewrite onMessageReceived_spec. eauto.
  - intros id subscribed arrivals. unfold Networked.start.
    destruct (negb _); [by eauto|].
    unfold mbind, M_bind.
    destruct (loadGameState_total subscribed arrivals (Networked.initial id))
      as (found & w' & ->).
    destruct found; [cbn; by eauto|].
    rewrite saveGameState_spec. eauto.
Qed.

Lemma std_place_panics_iff row col size w :
  Standalone.placePiece row col size w = None
  <-> inb row /\ inb col
      /\ Standalone.pieceCount w !! Standalone.playerTurn w = None
      /\ exists st, cell (Standalone.board w) row col = Some st
                    /\ blocks st size = false.
Proof.
  destruct (std_place_cases row col size w)
    as [[H Hwhy] | (Hr & Hc & Hn & st & b' & Hcell & Hb & Hset & H)]; rewrite H.
  - split; [done|]. intros (Hr & Hc & Hkey & st & Hcell & Hb). exfalso.
    destruct Hwhy as [?|[?|[Hcount|(st' & Hcell' & Hb')]]]; [done | done | |].
    + unfold Standalone.countOf in Hcount. rewrite Hkey in Hcount. lia.
    + congruence.
  - unfold Standalone.increment.
    destruct (Standalone.pieceCount w !! Standalone.playerTurn w) as [inner|] eqn:Hkey.
    + split; [done|]. by intros (_ & _ & ? & _).
    + split; [|done]. intros _. do 3 (split; [done|]). by exists st.
Qed.

(** X11.  In play the stand-alone program never panics: from every
    state it reaches, a pass of its loop comes to an end for every
    command.  [movePiece] cannot panic at all.  [placePiece] on its own
    panics in exactly one case: the placement passes every test and
    [pieceCount] has no entry for the player to move, so that the counter
    is written to a nil map; play never gets there, [playerTurn] being 1
    or 2. *)
Theorem standalone_panics_only_on_missing_counter :
  (forall w cmd, Standalone.reachable w ->
     exists pass w', Standalone.mainLoopBody cmd w = Some (pass, w'))
  /\ (forall fromRow fromCol toRow toCol w,
     exists ok w', Standalone.movePiece fromRow fromCol toRow toCol w = Some (ok, w'))
  /\ (forall row col size w,
     Standalone.placePiece row col size w = None
     <-> inb row /\ inb col
         /\ Standalone.pieceCount w !! Standalone.playerTurn w = None
         /\ exists st, cell (Standalone.board w) row col = Some st
                       /\ blocks st size = false).
Proof.
  assert (forall fromRow fromCol toRow toCol w,
     exists ok w', Standalone.movePiece fromRow fromCol toRow toCol w = Some (ok, w'))
    as Hmove.
  { intros fromRow fromCol toRow toCol w.
    destruct (std_move_cases fromRow fromCol toRow toCol w)
      as [[-> _] | (b2 & _ & ->)]; eauto. }
  split; [|split; [done | apply std_place_panics_iff]].
  intros w cmd Hr.
  assert (exists ok w1, Standalone.perform cmd w = Some (ok, w1)) as (ok & w1 & Hp).
  { destruct cmd as [row col size | fromRow fromCol toRow toCol |]; cbn;
      [| apply Hmove | by eauto].
    destruct (Standalone.placePiece row col size w) as [[ok w1]|] eqn:Hp; [by eauto|].
    apply std_place_panics_iff in Hp as (_ & _ & Hkey & _).
    destruct (std_reachable_key w Hr) as [inner Hin]. congruence. }
  destruct (std_mainLoopBody_spec _ _ _ _ Hp) as (win & _ & ->).
  destruct ok; [destruct (win =? 0)|]; by eauto.
Qed.

Lemma std_reachable_no_winner w :
  Standalone.reachable w -> checkWin (Standalone.board w) = Some 0.
Proof.
  induction 1 as [|w cmd w' Hr IH Hstep]; [done|].
  destruct (Standalone.perform cmd w) as [[ok w1]|] eqn:Hp.
  2:{ unfold Standalone.mainLoopBody in Hstep. run_monad. by rewrite Hp in Hstep. }
  destruct (std_mainLoopBody_spec _ _ _ _ Hp) as (win & Hwin & Hbody).
  rewrite Hbody in Hstep. destruct ok.
  - destruct (win =? 0) eqn:E; [|done]. injection Hstep as <-.
    apply Z.eqb_eq in E as ->. done.
  - injection Hstep as <-. by apply std_perform_rejected in Hp as ->.
Qed.

(** ** Whose turn it is to act *)

(** X12.  The stand-alone program never asks for an action on a board
    that has a winner: in every state at the top of its loop no line is
    owned by anybody, so play stops at the first win. *)
Theorem standalone_plays_only_without_winner w :
  Standalone.reachable w ->
  checkWin (Standalone.board w) = Some 0
  /\ forall p l, p <> 0 -> In l lines -> ~ ownsLine (Standalone.board w) p l.
Proof.
  intros Hr. pose proof (std_reachable_no_winner w Hr) as Hwin.
  split; [done|]. intros p l Hp Hl Hown.
  rewrite checkWin_spec in Hwin.
  assert (firstNonZero (map (lineWinner (Standalone.board w)) lines) = 0) as Hz
    by congruence.
  pose proof (firstNonZero_none _ _ Hz l Hl) as H0.
  apply (lineWinner_owns _ _ _ Hp) in Hown. cbv beta in H0. lia.
Qed.

Section Turns.
Import Networked.

Lemma net_pass_cases playerID input w pass w' :
  mainLoopBody playerID input w = Some (pass, w') ->
  w' = w /\ (pass = Spectating /\ playerID = 3
             \/ pass = Waiting /\ playerID <> 3 /\ playerTurn w <> playerID
             \/ pass = Again /\ playerID <> 3 /\ playerTurn w = playerID
                /\ checkWin (board w) = Some 0)
  \/ (exists win, pass = Exit win /\ win <> 0 /\ w' = setExited w
        /\ playerID <> 3 /\ playerTurn w = playerID
        /\ checkWin (board w) = Some win)
  \/ pass = Again /\ playerID <> 3 /\ playerTurn w = playerID
     /\ checkWin (board w) = Some 0
     /\ exists cmd, input = Act cmd /\ perform cmd w = Some (true, w').
Proof.
  rewrite net_mainLoopBody_cases, checkWin_spec. cbn zeta.
  destruct (Z.eqb_spec playerID 3) as [->|Hp].
  { intros [= <- <-]. left. split; [done|]. by left. }
  destruct (Z.eqb_spec (playerTurn w) playerID) as [Ht|Ht]; cbn [negb].
  2:{ intros [= <- <-]. left. split; [done|]. right. by left. }
  destruct (Z.eqb_spec (firstNonZero (map (lineWinner (board w)) lines)) 0)
    as [E|E]; cbn [negb].
  2:{ intros [= <- <-]. right. left. eexists. by repeat split. }
  rewrite E.
  destruct input as [cmd|].
  2:{ intros [= <- <-]. left. split; [done|]. right. right. by repeat split. }
  destruct (perform cmd w) as [[ok w1]|] eqn:Hperf; [|done].
  intros [= <- <-]. destruct ok.
  - right. right. repeat split; try done. by exists cmd.
  - apply net_perform_cases in Hperf as [[_ ->] | [? _]]; [|done].
    left. split; [done|]. right. right. by repeat split.
Qed.

Lemma turn_never_stays t : wrap (3 - t) <> t.
Proof.
  unfold wrap. intros H.
  pose proof (Z.div_mod (3 - t + 2 ^ 63) (2 ^ 64) ltac:(lia)) as Hd.
  change (2 ^ 64) with 18446744073709551616 in *.
  change (2 ^ 63) with 9223372036854775808 in *.
  lia.
Qed.

Lemma net_accepted_publishes cmd w w' :
  perform cmd w = Some (true, w') ->
  exists news, news <> [] /\ outbox w' = outbox w ++ news.
Proof.
  intros Hp. apply net_perform_cases in Hp as [[? _] | [_ Ha]]; [done|].
  apply net_announce_outbox in Ha as (win & _ & Hout). cbn zeta in Hout.
  cbn [setBoard outbox] in Hout. rewrite Hout.
  destruct (win =? 0); eexists; (split; [|reflexivity]); done.
Qed.

(** X13.  A pass of the main loop touches the game only for the player
    to move, and only on a board without a winner: in every other case
    (a spectator, a player waiting for the other, a board that already
    has a winner, an unreadable input, a refused action) the board, the
    turn and the list of publications are after the pass what they were
    before. *)
Theorem pass_acts_only_for_player_to_move playerID input w pass w' :
  mainLoopBody playerID input w = Some (pass, w') ->
  (board w' = board w /\ playerTurn w' = playerTurn w
   /\ outbox w' = outbox w /\ gameID w' = gameID w)
  \/ (playerID <> 3 /\ playerTurn w = playerID
      /\ checkWin (board w) = Some 0 /\ pass = Again
      /\ exists cmd, input = Act cmd /\ perform cmd w = Some (true, w')
                     /\ outbox w' <> outbox w).
Proof.
  intros H.
  apply net_pass_cases in H
    as [[-> _] | [(win & _ & _ & -> & _) | (Hpass & Hp & Ht & Hw & cmd & Hin & Hperf)]];
    [by left | by left |].
  right. repeat split; try done. exists cmd. repeat split; try done.
  destruct (net_accepted_publishes _ _ _ Hperf) as (news & Hne & ->).
  intros Heq. apply Hne.
  apply (f_equal length) in Heq. rewrite length_app in Heq.
  destruct news; [done | cbn in Heq; lia].
Qed.

(** X14.  Nobody acts twice in a row.  After a pass in which its action
    was accepted, the next pass of the same process, whatever is typed,
    either waits for the other player, the turn having been handed over,
    or ends the program because the action has won; in both cases it
    leaves the board, the turn and the publications alone.  This holds
    for every state, also one whose turn a delivery has set to a number
    that is neither 1 nor 2. *)
Theorem no_second_action_before_a_delivery playerID input w pass w' input' :
  mainLoopBody playerID input w = Some (pass, w') ->
  outbox w' <> outbox w ->
  mainLoopBody playerID input' w' = Some (Waiting, w')
  /\ checkWin (board w') = Some 0
  \/ exists win, win <> 0 /\ checkWin (board w') = Some win
       /\ mainLoopBody playerID input' w' = Some (Exit win, setExited w').
Proof.
  intros H Hout.
  apply net_pass_cases in H
    as [[-> _] | [(win & _ & _ & -> & _) | (Hpass & Hp & Ht & Hw & cmd & Hin & Hperf)]];
    [done | done |].
  destruct (net_perform_turn _ _ _ _ Hperf) as (win & Hwin & Hturn).
  rewrite net_mainLoopBody_cases. cbn zeta.
  pose proof (checkWin_spec (board w')) as Hspec. rewrite Hwin in Hspec.
  assert (firstNonZero (map (lineWinner (board w')) lines) = win) as Hfz
    by congruence.
  rewrite Hfz. clear Hspec Hfz.
  destruct (Z.eqb_spec playerID 3) as [?|_]; [done|].
  cbn [andb] in Hturn.
  destruct (Z.eqb_spec win 0) as [E|E].
  - left. split; [|by rewrite Hwin, E].
    rewrite Hturn, Ht.
    destruct (Z.eqb_spec (wrap (3 - playerID)) playerID) as [Hbad|_]; [|done].
    by apply turn_never_stays in Hbad.
  - right. exists win. do 2 (split; [done|]).
    rewrite Hturn, Ht, Z.eqb_refl. cbn [negb].
    by destruct (Z.eqb_spec win 0).
Qed.

End Turns.

(** ** The life of a process *)

Section Life.
Import Networked.

Lemma checkWin_empty : checkWin emptyBoard = Some 0.
Proof. done. Qed.

Lemma start_cases id subscribed arrivals :
  String.length id <> 5%nat /\ start id subscribed arrivals = Some Refused
  \/ String.length id = 5%nat
     /\ exists w,
         start id subscribed arrivals = Some (Started w)
         /\ gameID w = id /\ exited w = false
         /\ (subscribed = true
             /\ (exists st, firstDecoded arrivals = Some st
                   /\ board w = Board_ st /\ playerTurn w = PlayerTurn st)
             /\ outbox w = []
             \/ (subscribed = false \/ firstDecoded arrivals = None)
                /\ board w = emptyBoard /\ playerTurn w = 1
                /\ outbox w = [publicationOf w (mkGameState emptyBoard 1 0)]).
Proof.
  unfold start. destruct (Nat.eqb_spec (String.length id) 5) as [Hlen|Hlen];
    cbn [negb]; [right | by left].
  split; [done|]. unfold loadGameState, mbind, M_bind.
  destruct subscribed; cbn [negb].
  - destruct (firstDecoded arrivals) as [st|] eqn:Hd.
    + run_monad. cbn. eexists. split; [done|]. do 2 (split; [done|]).
      left. split; [done|]. split; [|done]. by exists st.
    + cbn. rewrite saveGameState_spec. eexists. split; [done|].
      do 2 (split; [done|]). right. split; [by right|]. by repeat split.
  - cbn. rewrite saveGameState_spec. eexists. split; [done|].
    do 2 (split; [done|]). right. split; [by left|]. by repeat split.
Qed.


Lemma topicOf_inj id1 id2 : topicOf id1 = topicOf id2 -> id1 = id2.
Proof.
  unfold topicOf. rewrite !append_cons, !append_nil_l. by intros [= ->].
Qed.

Lemma runs_publications id playerID w :
  runs id playerID w ->
  gameID w = id
  /\ forall p, In p (outbox w) ->
       topic p = topicOf id /\ qos p = 1 /\ retained p = true
       /\ exists b turn win,
           checkWin b = Some win
           /\ payload p = Json.Marshal (mkGameState b turn win).
Proof.
  induction 1 as [subscribed arrivals w Hs | w input pass w' Hr [IHid IH] He Hp
                 | w data w' Hr [IHid IH] He Hd].
  - destruct (start_cases id subscribed arrivals)
      as [[_ H] | (_ & w0 & H & Hid & _ & Hcases)]; [congruence|].
    assert (w0 = w) as -> by congruence. split; [done|].
    destruct Hcases as [(_ & _ & ->) | (_ & _ & _ & ->)]; [done|].
    intros p [<- | []]. cbn. rewrite Hid. do 3 (split; [done|]).
    exists emptyBoard, 1, 0. by split.
  - apply net_pass_cases in Hp
      as [[-> _] | [(win & _ & _ & -> & _) | (_ & _ & _ & _ & cmd & _ & Hperf)]];
      [done | done |].
    apply net_perform_cases in Hperf as [[? _] | [_ Ha]]; [done|].
    pose proof (net_announce_true _ _ _ Ha) as (_ & _ & Hid).
    destruct (net_announce_outbox _ _ Ha) as (win & Hwin & Hout).
    cbn zeta in Hout. cbn [setBoard gameID outbox playerTurn board] in Hout, Hid.
    split; [congruence|]. rewrite Hout. intros p Hin.
    apply in_app_or in Hin as [Hin | Hin]; [by apply IH|].
    assert (exists turn, p = publicationOf (setBoard (board w') w)
                             (mkGameState (board w') turn win)) as (turn & ->).
    { destruct (win =? 0); cbn in Hin; intuition eauto. }
    cbn. rewrite IHid. do 3 (split; [done|]). by exists (board w'), turn, win.
  - rewrite onMessageReceived_spec in Hd. injection Hd as <-.
    by destruct (Json.Unmarshal data zeroGameState).
Qed.

(** X16.  Everything a process ever publishes goes to the topic of its
    own session, with QoS 1 and retained, and is the snapshot of a board
    together with the verdict of [checkWin] on that very board: no
    subscriber is ever told a winner that the board it receives does not
    show, or the reverse.  The game identifier never changes, and two
    sessions with different identifiers never share a topic. *)
Theorem publications_stay_in_session id playerID w p :
  runs id playerID w ->
  In p (outbox w) ->
  gameID w = id
  /\ topic p = topicOf id /\ qos p = 1 /\ retained p = true
  /\ (exists b turn win,
        checkWin b = Some win
        /\ payload p = Json.Marshal (mkGameState b turn win))
  /\ forall id', topicOf id' = topic p -> id' = id.
Proof.
  intros Hr Hin. destruct (runs_publications _ _ _ Hr) as [Hid Hall].
  destruct (Hall p Hin) as (Ht & Hq & Hret & Hsnap).
  repeat split; try done. intros id' H. rewrite Ht in H. by apply topicOf_inj.
Qed.


End Life.

(** ** Who can win by which action *)

Lemma topOwner_placed b b' row col g xy :
  placedOnTop b b' row col g ->
  topOwner b' xy = if decide (xy = (row, col)) then Some (Owner g) else topOwner b xy.
Proof.
  intros (st & Hc & Hc' & Hothers). unfold topOwner, topAt.
  case_decide as Hxy.
  - subst xy. cbn [fst snd]. rewrite Hc'. cbn. unfold topPiece. cbn.
    by rewrite last_snoc.
  - destruct xy as [r c]. cbn [fst snd]. by rewrite (Hothers r c Hxy).
Qed.

Lemma lineWinner_placed b b' row col g l :
  placedOnTop b b' row col g ->
  lineWinner b' l = 0 \/ lineWinner b' l = Owner g
  \/ lineWinner b' l = lineWinner b l.
Proof.
  intros Hp. unfold lineWinner.
  rewrite !(topOwner_placed _ _ _ _ _ _ Hp).
  repeat case_decide; repeat case_match; simplify_eq; auto;
    repeat match goal with
           | H : (_ && _) = true |- _ => apply andb_true_iff in H as [? ?]
           | H : (_ =? _) = true |- _ => apply Z.eqb_eq in H
           end; subst; auto.
Qed.

Lemma firstNonZero_among p (l : list Z) :
  (forall x, In x l -> x = 0 \/ x = p) -> firstNonZero l = 0 \/ firstNonZero l = p.
Proof.
  induction l as [|x l IH]; intros H; [by left|]. cbn [firstNonZero].
  destruct (Z.eqb_spec x 0) as [_|Hx].
  - apply IH. intros y Hy. apply H. by right.
  - destruct (H x (or_introl eq_refl)); [done | by right].
Qed.

Lemma checkWin_placed b b' row col g :
  placedOnTop b b' row col g ->
  checkWin b = Some 0 ->
  checkWin b' = Some 0 \/ checkWin b' = Some (Owner g).
Proof.
  intros Hp Hwin. rewrite checkWin_spec in Hwin |- *.
  assert (firstNonZero (map (lineWinner b) lines) = 0) as Hz by congruence.
  destruct (firstNonZero_among (Owner g) (map (lineWinner b') lines)) as [-> | ->];
    [| by left | by right].
  intros x Hx. apply in_map_iff in Hx as (l & <- & Hl).
  pose proof (firstNonZero_none _ _ Hz l Hl) as H0. cbv beta in H0.
  destruct (lineWinner_placed _ _ _ _ _ l Hp) as [? | [? | Heq]]; [by left | by right |].
  left. congruence.
Qed.

(** X18.  A placement never hands the win to the other player: on a
    board without a winner, after an accepted placement [checkWin] names
    nobody or the player who has placed, in both programs.  A move is
    different, because it uncovers a piece: there is a position of the
    networked game, reached by play, without a winner, in which a move of
    the player to move is accepted and makes the other player the
    winner. *)
Theorem placement_never_wins_for_the_opponent :
  (forall w w' row col size,
      Networked.placePiece row col size w = Some (true, w') ->
      checkWin (Networked.board w) = Some 0 ->
      checkWin (Networked.board w') = Some 0
      \/ checkWin (Networked.board w') = Some (Networked.playerTurn w))
  /\ (forall w w' row col size,
      Standalone.placePiece row col size w = Some (true, w') ->
      checkWin (Standalone.board w) = Some 0 ->
      checkWin (Standalone.board w') = Some 0
      \/ checkWin (Standalone.board w') = Some (Standalone.playerTurn w))
  /\ exists id w w' fromRow fromCol toRow toCol,
      Networked.reachable id w
      /\ checkWin (Networked.board w) = Some 0
      /\ Networked.movePiece fromRow fromCol toRow toCol w = Some (true, w')
      /\ checkWin (Networked.board w') = Some (3 - Networked.playerTurn w).
Proof.
  split; [|split].
  - intros w w' row col size H Hwin.
    apply net_place_accepted in H as (_ & st & Hc & _ & Hset & _).
    apply (checkWin_placed (Networked.board w) _ row col
             (mkGobblet size (Networked.playerTurn w)));
      [by apply (setCell_placedOnTop _ _ _ st) | done].
  - intros w w' row col size H Hwin.
    apply std_place_accepted in H as (_ & _ & _ & st & Hc & _ & Hset).
    apply (checkWin_placed (Standalone.board w) _ row col
             (mkGobblet size (Standalone.playerTurn w)));
      [by apply (setCell_placedOnTop _ _ _ st) | done].
  - exists "12345"%string,
      (netAfter [Networked.Place 2 2 1; Networked.Place 0 2 1;
                 Networked.Place 0 2 2; Networked.Place 0 0 1;
                 Networked.Place 2 1 1; Networked.Place 0 1 1]).
    eexists. exists 0, 2, 1, 1.
    split; [apply netAfter_reachable|].
    split; [by vm_compute|]. split; [by vm_compute | by vm_compute].
Qed.

(** ** The display *)










(** ** The two programs side by side *)

Lemma moveDone_fun b turn fromRow fromCol toRow toCol b2 b2' :
  moveDone b turn fromRow fromCol toRow toCol b2 ->
  moveDone b turn fromRow fromCol toRow toCol b2' -> b2 = b2'.
Proof.
  intros (_ & _ & _ & _ & _ & src & top & dst & b1 & Hsrc & Htop & _ & Hdst & _ & Hb1 & Hb2)
         (_ & _ & _ & _ & _ & src' & top' & dst' & b1' & Hsrc' & Htop' & _ & Hdst' & _ & Hb1' & Hb2').
  simplify_eq. done.
Qed.

Lemma move_refused_or_done b turn fromRow fromCol toRow toCol b2 :
  moveRefused b turn fromRow fromCol toRow toCol ->
  moveDone b turn fromRow fromCol toRow toCol b2 -> False.
Proof.
  intros Hno (Hfr & Hfc & Htr & Htc & _ & src & top & dst & b1
              & Hsrc & Htop & Ho & Hdst & Hb & _).
  destruct Hno as [?|[?|[?|[?|(src' & Hsrc' & Hwhy)]]]]; try done.
  simplify_eq.
  destruct Hwhy as [? | (top' & Htop' & Hwhy)]; [congruence|].
  simplify_eq.
  destruct Hwhy as [? | (dst' & Hdst' & Hb')]; [done|]. simplify_eq. congruence.
Qed.

Lemma moves_agree wn ws fromRow fromCol toRow toCol :
  Networked.board wn = Standalone.board ws ->
  Networked.playerTurn wn = Standalone.playerTurn ws ->
  exists ok wn' ws',
    Networked.movePiece fromRow fromCol toRow toCol wn = Some (ok, wn')
    /\ Standalone.movePiece fromRow fromCol toRow toCol ws = Some (ok, ws')
    /\ Networked.board wn' = Standalone.board ws'
    /\ Standalone.playerTurn ws' = Standalone.playerTurn ws.
Proof.
  intros Hb Ht.
  destruct (net_move_cases fromRow fromCol toRow toCol wn) as [[Hn Hno] | (b2 & Hd & Hn)];
    destruct (std_move_cases fromRow fromCol toRow toCol ws) as [[Hs Hso] | (b2' & Hd' & Hs)];
    rewrite ?Hb, ?Ht in *.
  - exists false, wn, ws. by repeat split.
  - destruct (move_refused_or_done _ _ _ _ _ _ _ Hno Hd').
  - destruct (move_refused_or_done _ _ _ _ _ _ _ Hso Hd).
  - rewrite (moveDone_fun _ _ _ _ _ _ _ _ Hd Hd') in *.
    rewrite net_announce_spec in Hn. eexists true, _, _.
    split; [exact Hn|]. split; [exact Hs|]. cbn zeta.
    split; [|done]. by destruct (_ =? 0).
Qed.

Lemma placements_agree wn ws row col size :
  Networked.board wn = Standalone.board ws ->
  Networked.playerTurn wn = Standalone.playerTurn ws ->
  1 <= size <= 3 ->
  Standalone.countOf (Standalone.pieceCount ws) (Standalone.playerTurn ws) size < 3 ->
  is_Some (Standalone.pieceCount ws !! Standalone.playerTurn ws) ->
  exists ok wn' ws',
    Networked.placePiece row col size wn = Some (ok, wn')
    /\ Standalone.placePiece row col size ws = Some (ok, ws')
    /\ Networked.board wn' = Standalone.board ws'
    /\ Standalone.playerTurn ws' = Standalone.playerTurn ws.
Proof.
  intros Hb Ht Hsize Hcount Hkey.
  destruct (net_place_cases row col size wn)
    as [[Hn Hno] | (_ & Hr & Hc & st & b' & Hcell & Hblk & Hset & Hn)];
    destruct (std_place_cases row col size ws)
      as [[Hs Hso] | (Hr' & Hc' & _ & st' & b'' & Hcell' & Hblk' & Hset' & Hs)];
    rewrite ?Hb, ?Ht in *.
  - exists false, wn, ws. by repeat split.
  - exfalso. destruct Hno as [?|[?|[?|[?|(st & Hcell & Hblk)]]]]; try lia; try done.
    simplify_eq. congruence.
  - exfalso. destruct Hso as [?|[?|[?|(st' & Hcell' & Hblk')]]]; try lia; try done.
    simplify_eq. congruence.
  - simplify_eq.
    destruct (increment_is_Some _ _ size Hkey) as [pc' Hpc]. rewrite Hpc in Hs.
    rewrite net_announce_spec in Hn. eexists true, _, _.
    split; [exact Hn|]. split; [exact Hs|]. cbn zeta.
    split; [|done]. by destruct (_ =? 0).
Qed.

Lemma passes_agree wn ws cmdn cmds ok wn' ws1 :
  Networked.playerTurn wn = Standalone.playerTurn ws ->
  Networked.perform cmdn wn = Some (ok, wn') ->
  Standalone.perform cmds ws = Some (ok, ws1) ->
  Networked.board wn' = Standalone.board ws1 ->
  Standalone.playerTurn ws1 = Standalone.playerTurn ws ->
  exists pass ws',
    Standalone.mainLoopBody cmds ws = Some (pass, ws')
    /\ Networked.board wn' = Standalone.board ws'
    /\ Networked.playerTurn wn' = Standalone.playerTurn ws'
    /\ (pass = Standalone.Again /\ (ok = false \/ checkWin (Networked.board wn') = Some 0)
        \/ exists win, pass = Standalone.Exit win /\ win <> 0 /\ ok = true
             /\ checkWin (Networked.board wn') = Some win).
Proof.
  intros Ht Hn Hs Hb Ht1.
  destruct (std_mainLoopBody_spec _ _ _ _ Hs) as (win & Hwin & ->).
  destruct (net_perform_turn _ _ _ _ Hn) as (win' & Hwin' & Hturn).
  rewrite Hb, Hwin in Hwin'. injection Hwin' as <-.
  rewrite Hturn, Ht, <- Ht1.
  destruct ok; cbn [andb]; [destruct (Z.eqb_spec win 0) as [->|Hne]|].
  - eexists _, _. split; [done|]. do 2 (split; [done|]). left. split; [done|].
    right. by rewrite Hb.
  - eexists _, _. split; [done|]. do 2 (split; [done|]). right. exists win.
    by rewrite Hb.
  - eexists _, _. split; [done|]. do 2 (split; [done|]). left. split; [done|]. by left.
Qed.

(** X20.  The two programs play the same game.  From states with the
    same board and the same player to move, a move is accepted by both
    or refused by both, and so is a placement of a size from 1 to 3 for
    which the stand-alone program has budget left; after the action,
    and after the rest of the stand-alone pass, the two boards are the
    same again and the same player is to move.  The stand-alone program
    stops, naming the winner, exactly when the networked action has
    produced one. *)
Theorem programs_play_the_same_game wn ws :
  Networked.board wn = Standalone.board ws ->
  Networked.playerTurn wn = Standalone.playerTurn ws ->
  (forall fromRow fromCol toRow toCol,
      exists ok wn' pass ws',
        Networked.movePiece fromRow fromCol toRow toCol wn = Some (ok, wn')
        /\ Standalone.mainLoopBody
             (Standalone.Move fromRow fromCol toRow toCol) ws = Some (pass, ws')
        /\ Networked.board wn' = Standalone.board ws'
        /\ Networked.playerTurn wn' = Standalone.playerTurn ws'
        /\ (pass = Standalone.Again
              /\ (ok = false \/ checkWin (Networked.board wn') = Some 0)
            \/ exists win, pass = Standalone.Exit win /\ win <> 0 /\ ok = true
                 /\ checkWin (Networked.board wn') = Some win))
  /\ (forall row col size,
      1 <= size <= 3 ->
      Standalone.countOf (Standalone.pieceCount ws) (Standalone.playerTurn ws) size < 3 ->
      is_Some (Standalone.pieceCount ws !! Standalone.playerTurn ws) ->
      exists ok wn' pass ws',
        Networked.placePiece row col size wn = Some (ok, wn')
        /\ Standalone.mainLoopBody (Standalone.Place row col size) ws = Some (pass, ws')
        /\ Networked.board wn' = Standalone.board ws'
        /\ Networked.playerTurn wn' = Standalone.playerTurn ws'
        /\ (pass = Standalone.Again
              /\ (ok = false \/ checkWin (Networked.board wn') = Some 0)
            \/ exists win, pass = Standalone.Exit win /\ win <> 0 /\ ok = true
                 /\ checkWin (Networked.board wn') = Some win)).
Proof.
  intros Hb Ht. split.
  - intros fromRow fromCol toRow toCol.
    destruct (moves_agree wn ws fromRow fromCol toRow toCol Hb Ht)
      as (ok & wn' & ws1 & Hn & Hs & Hb1 & Ht1).
    destruct (passes_agree wn ws (Networked.Move fromRow fromCol toRow toCol)
                (Standalone.Move fromRow fromCol toRow toCol) ok wn' ws1 Ht Hn Hs Hb1 Ht1)
      as (pass & ws' & H).
    by exists ok, wn', pass, ws'.
  - intros row col size Hsize Hcount Hkey.
    destruct (placements_agree wn ws row col size Hb Ht Hsize Hcount Hkey)
      as (ok & wn' & ws1 & Hn & Hs & Hb1 & Ht1).
    destruct (passes_agree wn ws (Networked.Place row col size)
                (Standalone.Place row col size) ok wn' ws1 Ht Hn Hs Hb1 Ht1)
      as (pass & ws' & H).
    by exists ok, wn', pass, ws'.
Qed.


(** ** The invariants at work on concrete positions *)

(** X1 at work: a small, a medium and a large piece on one cell. *)
Lemma stacks_grow_from_bottom_to_top_witness :
  let w := netAfter [Networked.Place 0 0 1; Networked.Place 0 0 2;
                     Networked.Place 0 0 3] in
  cell (Networked.board w) 0 0
  = Some (slice [mkGobblet 1 1; mkGobblet 2 2; mkGobblet 3 1])
  /\ stacksAll ascending (Networked.board w)
  /\ stacksAll ascending (Standalone.board Standalone.initial).
Proof.
  intros w. destruct stacks_grow_from_bottom_to_top as [Hn Hs].
  split; [vm_compute; reflexivity|].
  split; [exact (Hn "12345"%string w (netAfter_reachable _))|].
  exact (Hs _ Standalone.reach_initial).
Defined.

(** X2 at work: the same cell is full. *)
Lemma networked_stack_holds_at_most_three_witness :
  let w := netAfter [Networked.Place 0 0 1; Networked.Place 0 0 2;
                     Networked.Place 0 0 3] in
  let st := slice [mkGobblet 1 1; mkGobblet 2 2; mkGobblet 3 1] in
  Networked.reachable "12345" w
  /\ cell (Networked.board w) 0 0 = Some st
  /\ len st <= 3
  /\ (forall g, In g (elems st) -> regular g)
  /\ ascending (elems st).
Proof.
  intros w st.
  assert (cell (Networked.board w) 0 0 = Some st) as Hc by (vm_compute; reflexivity).
  split; [apply netAfter_reachable|]. split; [exact Hc|].
  exact (networked_stack_holds_at_most_three "12345" w 0 0 st
           (netAfter_reachable _) Hc).
Defined.

(** X3 at work: player 1 moves its piece from the corner onto the
    smaller piece of player 2 in the centre. *)
Lemma move_takes_own_visible_piece_witness :
  let w := netAfter [Networked.Place 0 0 2; Networked.Place 1 1 1] in
  let w' := netAfter [Networked.Place 0 0 2; Networked.Place 1 1 1;
                      Networked.Move 0 0 1 1] in
  Networked.movePiece 0 0 1 1 w = Some (true, w')
  /\ exists top,
      topAt (Networked.board w) (0, 0) = Some top
      /\ Owner top = Networked.playerTurn w
      /\ topAt (Networked.board w') (1, 1) = Some top
      /\ forall under, topAt (Networked.board w) (1, 1) = Some under ->
           Size under < Size top.
Proof.
  intros w w'.
  assert (Networked.movePiece 0 0 1 1 w = Some (true, w')) as H
    by (vm_compute; reflexivity).
  split; [exact H|].
  exact (proj1 move_takes_own_visible_piece w w' 0 0 1 1 H).
Defined.

(** X4 at work: the same move. *)
Lemma move_conserves_pieces_witness :
  let w := netAfter [Networked.Place 0 0 2; Networked.Place 1 1 1] in
  let w' := netAfter [Networked.Place 0 0 2; Networked.Place 1 1 1;
                      Networked.Move 0 0 1 1] in
  Networked.movePiece 0 0 1 1 w = Some (true, w')
  /\ allPieces (Networked.board w) = [mkGobblet 2 1; mkGobblet 1 2]
  /\ allPieces (Networked.board w') ≡ₚ allPieces (Networked.board w).
Proof.
  intros w w'.
  assert (Networked.movePiece 0 0 1 1 w = Some (true, w')) as H
    by (vm_compute; reflexivity).
  split; [exact H|]. split; [vm_compute; reflexivity|].
  exact (proj1 move_conserves_pieces w w' 0 0 1 1 H).
Defined.

(** X5 at work: player 2 covers the piece of player 1. *)
Lemma placement_adds_one_piece_witness :
  let w := netAfter [Networked.Place 0 0 1] in
  let w' := netAfter [Networked.Place 0 0 1; Networked.Place 0 0 2] in
  Networked.placePiece 0 0 2 w = Some (true, w')
  /\ allPieces (Networked.board w')
     ≡ₚ mkGobblet 2 (Networked.playerTurn w) :: allPieces (Networked.board w).
Proof.
  intros w w'.
  assert (Networked.placePiece 0 0 2 w = Some (true, w')) as H
    by (vm_compute; reflexivity).
  split; [exact H|].
  exact (proj1 placement_adds_one_piece w w' 0 0 2 H).
Defined.

Lemma stdAfter_two_reachable :
  Standalone.reachable (stdAfter [Standalone.Place 0 0 1; Standalone.Place 0 0 2]).
Proof.
  apply (Standalone.reach_pass (stdAfter [Standalone.Place 0 0 1])
           (Standalone.Place 0 0 2)); [|vm_compute; reflexivity].
  apply (Standalone.reach_pass Standalone.initial (Standalone.Place 0 0 1));
    [apply Standalone.reach_initial | vm_compute; reflexivity].
Qed.

(** X6 at work: after one placement by each player. *)
Lemma standalone_counters_count_the_board_witness :
  let w := stdAfter [Standalone.Place 0 0 1; Standalone.Place 0 0 2] in
  Standalone.reachable w
  /\ Standalone.countOf (Standalone.pieceCount w) 2 2 = 1
  /\ Standalone.countOf (Standalone.pieceCount w) 2 2
     = Z.of_nat (placedCount (Standalone.board w) 2 2)
  /\ (placedCount (Standalone.board w) 2 2 <= 3)%nat.
Proof.
  intros w. split; [apply stdAfter_two_reachable|].
  split; [vm_compute; reflexivity|].
  exact (standalone_counters_count_the_board w 2 2 stdAfter_two_reachable).
Defined.

(** X7 at work: a terminal that holds another position receives the
    first placement of a game. *)
Lemma receivers_converge_to_sender_witness :
  let w := Networked.initial "12345" in
  let w' := netAfter [Networked.Place 0 0 1] in
  let r := netAfter [Networked.Place 2 2 3; Networked.Place 1 1 1] in
  Networked.reachable "12345" w
  /\ Networked.perform (Networked.Place 0 0 1) w = Some (true, w')
  /\ Networked.exited r = false
  /\ Networked.board r <> Networked.board w'
  /\ exists win r',
      checkWin (Networked.board w') = Some win
      /\ Networked.deliverAll
           (Networked.payload
              <$> drop (length (Networked.outbox w)) (Networked.outbox w')) r
         = Some (tt, r')
      /\ Networked.board r' = Networked.board w'
      /\ Networked.playerTurn r' = Networked.playerTurn w'
      /\ Networked.exited r' = negb (win =? 0)
      /\ Networked.outbox r' = Networked.outbox r
      /\ Networked.gameID r' = Networked.gameID r.
Proof.
  intros w w' r.
  assert (Networked.perform (Networked.Place 0 0 1) w = Some (true, w')) as H
    by (vm_compute; reflexivity).
  split; [apply Networked.reach_initial|]. split; [exact H|].
  split; [reflexivity|]. split; [by vm_compute|].
  exact (receivers_converge_to_sender "12345" w (Networked.Place 0 0 1) w' r
           (Networked.reach_initial _) H eq_refl).
Defined.

(** X8 at work: two terminals with different positions receive the
    publications of a third. *)
Lemma deliveries_override_local_state_witness :
  let payloads :=
    Networked.payload <$> Networked.outbox (netAfter [Networked.Place 1 1 2]) in
  let r1 := Networked.initial "12345" in
  let r2 := netAfter [Networked.Place 0 0 1] in
  let r' b := Networked.mkWorld (Networked.board (netAfter [Networked.Place 1 1 2]))
                                2 "12345" (Networked.outbox b) false in
  Networked.deliverAll payloads r1 = Some (tt, r' r1)
  /\ Networked.deliverAll payloads r2 = Some (tt, r' r2)
  /\ Networked.board (r' r1) = Networked.board (r' r2)
  /\ Networked.playerTurn (r' r1) = Networked.playerTurn (r' r2)
  /\ Networked.exited (r' r1) = Networked.exited (r' r2).
Proof.
  intros payloads r1 r2 r'.
  assert (Networked.deliverAll payloads r1 = Some (tt, r' r1)) as H1
    by (vm_compute; reflexivity).
  assert (Networked.deliverAll payloads r2 = Some (tt, r' r2)) as H2
    by (vm_compute; reflexivity).
  assert (Networked.firstDecoded payloads
          = Some (mkGameState (Networked.board (netAfter [Networked.Place 1 1 2])) 1 0))
    as Hd by (vm_compute; reflexivity).
  split; [exact H1|]. split; [exact H2|].
  exact (deliveries_override_local_state payloads r1 r2 (r' r1) (r' r2) _
           eq_refl eq_refl Hd H1 H2).
Defined.


(** X12 at work. *)
Lemma standalone_plays_only_without_winner_witness :
  let w := stdAfter [Standalone.Place 0 0 1; Standalone.Place 0 0 2] in
  Standalone.reachable w
  /\ checkWin (Standalone.board w) = Some 0
  /\ forall p l, p <> 0 -> In l lines -> ~ ownsLine (Standalone.board w) p l.
Proof.
  intros w. split; [apply stdAfter_two_reachable|].
  exact (standalone_plays_only_without_winner w stdAfter_two_reachable).
Defined.

(** X13 at work: the first pass of player 1, and a pass of player 2 at
    the same moment. *)
Lemma pass_acts_only_for_player_to_move_witness :
  let w := Networked.initial "12345" in
  let w' := netAfter [Networked.Place 0 0 1] in
  let input := Networked.Act (Networked.Place 0 0 1) in
  Networked.mainLoopBody 1 input w = Some (Networked.Again, w')
  /\ Networked.mainLoopBody 2 input w = Some (Networked.Waiting, w)
  /\ ((Networked.board w' = Networked.board w
       /\ Networked.playerTurn w' = Networked.playerTurn w
       /\ Networked.outbox w' = Networked.outbox w
       /\ Networked.gameID w' = Networked.gameID w)
      \/ (1 <> 3 /\ Networked.playerTurn w = 1
          /\ checkWin (Networked.board w) = Some 0
          /\ Networked.Again = Networked.Again
          /\ exists cmd, input = Networked.Act cmd
               /\ Networked.perform cmd w = Some (true, w')
               /\ Networked.outbox w' <> Networked.outbox w)).
Proof.
  intros w w' input.
  assert (Networked.mainLoopBody 1 input w = Some (Networked.Again, w')) as H
    by (vm_compute; reflexivity).
  split; [exact H|]. split; [vm_compute; reflexivity|].
  exact (pass_acts_only_for_player_to_move 1 input w Networked.Again w' H).
Defined.

(** X14 at work: player 1 has placed, and is not asked again. *)
Lemma no_second_action_before_a_delivery_witness :
  let w := Networked.initial "12345" in
  let w' := netAfter [Networked.Place 0 0 1] in
  let input := Networked.Act (Networked.Place 0 0 1) in
  let input' := Networked.Act (Networked.Place 1 1 1) in
  Networked.mainLoopBody 1 input w = Some (Networked.Again, w')
  /\ Networked.outbox w' <> Networked.outbox w
  /\ (Networked.mainLoopBody 1 input' w' = Some (Networked.Waiting, w')
      /\ checkWin (Networked.board w') = Some 0
      \/ exists win, win <> 0 /\ checkWin (Networked.board w') = Some win
           /\ Networked.mainLoopBody 1 input' w'
              = Some (Networked.Exit win, Networked.setExited w')).
Proof.
  intros w w' input input'.
  assert (Networked.mainLoopBody 1 input w = Some (Networked.Again, w')) as H
    by (vm_compute; reflexivity).
  assert (Networked.outbox w' <> Networked.outbox w) as Hne by (by vm_compute).
  split; [exact H|]. split; [exact Hne|].
  exact (no_second_action_before_a_delivery 1 input w Networked.Again w' input' H Hne).
Defined.

Lemma opened_session_runs playerID :
  Networked.runs "12345" playerID
    (Networked.mkWorld emptyBoard 1 "12345"
       [Networked.mkPublication (Networked.topicOf "12345") 1 true
          (Json.Marshal (mkGameState emptyBoard 1 0))] false).
Proof.
  apply (Networked.run_start "12345" playerID false []). vm_compute. reflexivity.
Qed.

(** X16 at work: the publication that opens a session. *)
Lemma publications_stay_in_session_witness :
  let p := Networked.mkPublication (Networked.topicOf "12345") 1 true
             (Json.Marshal (mkGameState emptyBoard 1 0)) in
  let w := Networked.mkWorld emptyBoard 1 "12345" [p] false in
  Networked.runs "12345" 1 w
  /\ In p (Networked.outbox w)
  /\ Networked.gameID w = "12345"%string
  /\ Networked.topic p = Networked.topicOf "12345"
  /\ Networked.qos p = 1 /\ Networked.retained p = true
  /\ (exists b turn win,
        checkWin b = Some win
        /\ Networked.payload p = Json.Marshal (mkGameState b turn win))
  /\ forall id', Networked.topicOf id' = Networked.topic p -> id' = "12345"%string.
Proof.
  intros p w. split; [apply opened_session_runs|]. split; [by left|].
  exact (publications_stay_in_session "12345" 1 w p (opened_session_runs 1)
           (or_introl eq_refl)).
Defined.


(** X20 at work: the two programs at the beginning of a game. *)
Lemma programs_play_the_same_game_witness :
  let wn := Networked.initial "12345" in
  let ws := Standalone.initial in
  Networked.board wn = Standalone.board ws
  /\ Networked.playerTurn wn = Standalone.playerTurn ws
  /\ exists ok wn' pass ws',
      Networked.placePiece 0 0 1 wn = Some (ok, wn')
      /\ Standalone.mainLoopBody (Standalone.Place 0 0 1) ws = Some (pass, ws')
      /\ Networked.board wn' = Standalone.board ws'
      /\ Networked.playerTurn wn' = Standalone.playerTurn ws'
      /\ (pass = Standalone.Again
            /\ (ok = false \/ checkWin (Networked.board wn') = Some 0)
          \/ exists win, pass = Standalone.Exit win /\ win <> 0 /\ ok = true
               /\ checkWin (Networked.board wn') = Some win).
Proof.
  intros wn ws. split; [reflexivity|]. split; [reflexivity|].
  refine (proj2 (programs_play_the_same_game wn ws eq_refl eq_refl) 0 0 1 _ _ _).
  - lia.
  - vm_compute. reflexivity.
  - vm_compute. eauto.
Defined.

